(** * ts-linqlite: a shallow embedding of [LinqLite.ts]

    The library is a set of free functions over JavaScript iterables
    (terminal operations written with [for ... of], transformations written
    as generator functions) and a fluent wrapper [LinqWrapper] forwarding to
    them.  The embedding has three layers:

    - [JS]: the JavaScript values the code compares and tests
      ([undefined], numbers with [NaN] and signed zeros, [===], [!x],
      [Math.max], [Math.min], [Number.MIN_VALUE], thrown [Error]s);
    - [Protocol]: the iteration protocol ([next], [return], iterables whose
      iterator is a fresh object or the object itself), the [for ... of]
      statement and generator objects with their three states;
    - [LinqLite]: the functions of the library, one definition per source
      function, under the source's names. *)

From Stdlib Require Import ZArith String List Bool Lia SpecFloat.
Import ListNotations.

Set Implicit Arguments.
Local Open Scope Z_scope.

(* ================================================================== *)
(** ** JavaScript values                                               *)
(* ================================================================== *)

Module JS.

(** A JavaScript number is an IEEE 754 binary64 value. *)
Definition number : Type := spec_float.
Definition prec : Z := 53.
Definition emax : Z := 1024.

Definition NaN : number := S754_nan.
(** [Number.MIN_VALUE] is the smallest positive number, [2^-1074];
    [Number.MAX_VALUE] is [(2^53 - 1) * 2^971]. *)
Definition MIN_VALUE : number := S754_finite false 1 (-1074).
Definition MAX_VALUE : number := S754_finite false 9007199254740991 971.

(** The number denoted by an integer literal. *)
Definition number_of_Z (z : Z) : number := binary_normalize prec emax z 0 false.

Definition isNaN (x : number) : bool :=
  match x with S754_nan => true | _ => false end.
Definition is_pos_zero (x : number) : bool :=
  match x with S754_zero false => true | _ => false end.
Definition is_neg_zero (x : number) : bool :=
  match x with S754_zero true => true | _ => false end.

(** [x < y] and [x === y] on numbers: false as soon as one side is NaN,
    and [+0 === -0]. *)
Definition number_lt (x y : number) : bool := SFltb x y.
Definition number_eq (x y : number) : bool := SFeqb x y.

(** [Math.max(a, b)]: NaN if either argument is NaN, [+0] counts as
    larger than [-0], otherwise the larger argument. *)
Definition Math_max (a b : number) : number :=
  if isNaN a || isNaN b then NaN
  else if is_neg_zero a && is_pos_zero b then b
  else if number_lt a b then b else a.

(** [Math.min(a, b)], symmetrically. *)
Definition Math_min (a b : number) : number :=
  if isNaN a || isNaN b then NaN
  else if is_pos_zero a && is_neg_zero b then b
  else if number_lt b a then b else a.

(** [x + y] and [x / y] on numbers: IEEE 754 binary64, rounding to
    nearest, ties to even. *)
Definition number_add (x y : number) : number := SFadd prec emax x y.
Definition number_div (x y : number) : number := SFdiv prec emax x y.

(** The values an array may hold.  [VObj] stands for any object, known by
    its identity. *)
Inductive value : Type :=
| VUndefined
| VNull
| VBool (b : bool)
| VNum (n : number)
| VStr (s : string)
| VObj (ref : nat).

Definition undefined : value := VUndefined.

(** [a === b]. *)
Definition strict_eq (a b : value) : bool :=
  match a, b with
  | VUndefined, VUndefined => true
  | VNull, VNull => true
  | VBool x, VBool y => Bool.eqb x y
  | VNum x, VNum y => number_eq x y
  | VStr x, VStr y => String.eqb x y
  | VObj x, VObj y => Nat.eqb x y
  | _, _ => false
  end.

(** [ToBoolean]: the falsy values are [undefined], [null], [false],
    [+0], [-0], [NaN] and the empty string. *)
Definition truthy (v : value) : bool :=
  match v with
  | VUndefined | VNull => false
  | VBool b => b
  | VNum (S754_zero _) | VNum S754_nan => false
  | VNum _ => true
  | VStr EmptyString => false
  | VStr _ => true
  | VObj _ => true
  end.

Definition int (z : Z) : value := VNum (number_of_Z z).

(** [throw new Error(message)]. *)
Record Error : Type := mkError { message : string }.

(** The outcome of a call that may throw. *)
Inductive Outcome (A : Type) : Type :=
| Returns (a : A)
| Throws (e : Error).
Arguments Returns {A} a.
Arguments Throws {A} e.

(** A property key computed from a number: [o[x]] converts [x] to a
    string, and two numbers give the same string exactly when they are
    both NaN or are equal as numbers (so [+0] and [-0] share "0"). *)
Definition same_key (x y : number) : bool :=
  match x, y with
  | S754_nan, S754_nan => true
  | _, _ => number_eq x y
  end.

End JS.
Import JS.

(* ================================================================== *)
(** ** The iteration protocol                                          *)
(* ================================================================== *)

Module Protocol.

(** What [next()] answers: [{ value: v, done: false }] or
    [{ done: true }]. *)
Inductive IteratorResult : Type :=
| Yielded (v : value)
| Finished.

(** An iterator object, by the type [I] of its states.  [next] and
    [return_] give the answer and the object's state after the call
    ([return_] is [IteratorClose]: it calls the [return] method when the
    iterator has one).  [pending] is ghost: a bound on the number of
    values the iterator can still deliver, which the loops below use to
    be total. *)
Class Iterator (I : Type) : Type := {
  next : I -> IteratorResult * I;
  return_ : I -> I;
  pending : I -> nat
}.

(** An iterable object of type [C] whose [Symbol.iterator] method gives an
    iterator of type [I].  The iterator may be a fresh object (arrays) or
    the object itself (generator objects); [writeback c it] is the
    iterable once its iterator has reached state [it].  [asArray] is the
    test [c instanceof Array]. *)
Class Iterable (C I : Type) : Type := {
  iterator : C -> I;
  writeback : C -> I -> C;
  asArray : C -> option (list value)
}.

(** The iterator type is found from the iterable's type. *)
#[export] Hint Mode Iterator ! : typeclass_instances.
#[export] Hint Mode Iterable ! - : typeclass_instances.

(** *** Arrays *)

(** An array iterator walks the array by index; it has no [return]
    method. *)
Record ArrayIterator : Type := mkArrayIterator {
  iterated : list value;
  nextIndex : nat
}.

Definition array_next (it : ArrayIterator) : IteratorResult * ArrayIterator :=
  match nth_error (iterated it) (nextIndex it) with
  | Some v => (Yielded v, mkArrayIterator (iterated it) (S (nextIndex it)))
  | None => (Finished, it)
  end.

#[export] Instance ArrayIterator_Iterator : Iterator ArrayIterator := {
  next := array_next;
  return_ := fun it => it;
  pending := fun it => (length (iterated it) - nextIndex it)%nat
}.

#[export] Instance Array_Iterable : Iterable (list value) ArrayIterator := {
  iterator := fun a => mkArrayIterator a 0;
  writeback := fun a _ => a;
  asArray := fun a => Some a
}.

(** *** The [for ... of] statement *)

(** How one run of a loop body ends: normally, with the loop's variables
    [acc], or by leaving the loop ([return], [break] or [throw]) with [r]. *)
Inductive Completion (A R : Type) : Type :=
| Continue (acc : A)
| Exit (r : R).
Arguments Continue {A R} acc.
Arguments Exit {A R} r.

Section ForOf.
Context {I : Type} `{Iterator I} {A R : Type}.
Variable body : A -> value -> Completion A R.

(** [next] is called before each run of the body; the loop ends when it
    answers [done], and an exit from the body closes the iterator.  [fuel]
    bounds the number of runs: with more fuel than the iterator has values
    to deliver it is never used up ([for_of_loop_produces] below). *)
Fixpoint for_of_loop (fuel : nat) (it : I) (acc : A) : Completion A R * I :=
  match fuel with
  | O => (Continue acc, it)
  | S fuel' =>
      match next it with
      | (Finished, it') => (Continue acc, it')
      | (Yielded item, it') =>
          match body acc item with
          | Continue acc' => for_of_loop fuel' it' acc'
          | Exit r => (Exit r, return_ it')
          end
      end
  end.
End ForOf.

(** [for (let item of source) body]: the loop's outcome and the source
    object afterwards. *)
Definition for_of {C I : Type} `{Iterator I} `{Iterable C I} {A R : Type}
    (source : C) (body : A -> value -> Completion A R) (acc : A)
    : Completion A R * C :=
  let it := iterator source in
  let '(r, it') := for_of_loop body (S (pending it)) it acc in
  (r, writeback source it').

(** *** Generator objects *)

Inductive GeneratorState : Type :=
| suspendedStart   (* created; the body has not started *)
| suspendedYield   (* paused at a [yield] *)
| completed.

(** Every generator function of the library is one [for ... of] loop over
    its source with at most one [yield] in the loop body.  For one item
    and the function's local variables [l], the body yields a value,
    goes on to the next item, or breaks out of the loop. *)
Inductive Step (L : Type) : Type :=
| Yield (v : value) (l : L)
| Skip (l : L)
| Break (l : L).
Arguments Yield {L} v l.
Arguments Skip {L} l.
Arguments Break {L} l.

(** [on_item] is the loop body up to its [yield] (or to its end when it
    does not yield); [resume] is the rest of the body, run when the
    generator is resumed. *)
Record LoopBody (L : Type) : Type := mkLoopBody {
  on_item : L -> value -> Step L;
  resume : L -> L
}.

(** The source a generator function was called with, and, once the body
    has entered its loop, the iterator it obtained from it. *)
Inductive Upstream (C I : Type) : Type :=
| Captured (source : C)
| Obtained (it : I).
Arguments Captured {C I} source.
Arguments Obtained {C I} it.

(** A generator object.  [pulled] is ghost: the number of items the body
    has received from its source so far. *)
Record Generator (C I L : Type) : Type := mkGenerator {
  gstate : GeneratorState;
  code : LoopBody L;
  upstream : Upstream C I;
  locals : L;
  pulled : nat
}.

Section Generators.
Context {C I L : Type} `{Iterator I} `{Iterable C I}.
Local Abbreviation Gen := (Generator C I L).

(** The generator paused at its [yield], and the generator completed; a
    completed generator keeps, as ghost state, the iterator and the locals
    it ended with. *)
Definition suspend (g : Gen) (it : I) (l : L) : Gen :=
  mkGenerator suspendedYield (code g) (Obtained it) l (pulled g).
Definition finish (g : Gen) (it : I) (l : L) : Gen :=
  mkGenerator completed (code g) (Obtained it) l (pulled g).
Definition pull (g : Gen) : Gen :=
  mkGenerator (gstate g) (code g) (upstream g) (locals g) (S (pulled g)).

(** Run the loop from its head until the next [yield] or the end of the
    body; a [break] closes the iterator of the loop.  [fuel] is as in
    [for_of_loop]. *)
Fixpoint gen_loop (fuel : nat) (g : Gen) (it : I) (l : L)
    : IteratorResult * Gen :=
  match fuel with
  | O => (Finished, finish g it l)
  | S fuel' =>
      match next it with
      | (Finished, it') => (Finished, finish g it' l)
      | (Yielded item, it') =>
          let g' := pull g in
          match on_item (code g) l item with
          | Yield v l' => (Yielded v, suspend g' it' l')
          | Skip l' => gen_loop fuel' g' it' l'
          | Break l' => (Finished, finish g' (return_ it') l')
          end
      end
  end.

(** [g.next()]: the first call enters the body, which asks the source for
    its iterator; a later call resumes the body after its [yield]. *)
Definition gen_next (g : Gen) : IteratorResult * Gen :=
  match gstate g, upstream g with
  | completed, _ => (Finished, g)
  | _, Captured source =>
      let it := iterator source in
      gen_loop (S (pending it)) g it (locals g)
  | _, Obtained it =>
      gen_loop (S (pending it)) g it (resume (code g) (locals g))
  end.

(** [g.return()]: a generator paused inside its loop closes the
    iterator of the loop; in every state the generator ends up
    completed. *)
Definition gen_return (g : Gen) : Gen :=
  match gstate g, upstream g with
  | suspendedYield, Obtained it => finish g (return_ it) (locals g)
  | _, _ => mkGenerator completed (code g) (upstream g) (locals g) (pulled g)
  end.

Definition gen_pending (g : Gen) : nat :=
  match gstate g, upstream g with
  | completed, _ => O
  | _, Captured source => pending (iterator source)
  | _, Obtained it => pending it
  end.

#[export] Instance Generator_Iterator : Iterator Gen := {
  next := gen_next;
  return_ := gen_return;
  pending := gen_pending
}.

(** A generator object is its own iterator. *)
#[export] Instance Generator_Iterable : Iterable Gen Gen := {
  iterator := fun g => g;
  writeback := fun _ g' => g';
  asArray := fun _ => None
}.
End Generators.

(** Calling a generator function runs none of its body. *)
Definition generator {C I L : Type} `{Iterable C I}
    (source : C) (body : LoopBody L) (init : L) : Generator C I L :=
  mkGenerator suspendedStart body (Captured source) init O.

(** *** Generator functions with two loops

    [concat] and the two [union]s are two [for ... of] loops in a row, over
    a first and a second source, which share the function's local
    variables.  The generator object is in its first loop (or not started),
    in its second loop (or completed after it), or was closed by [return]
    before its second loop. *)
Inductive TwoLoops (C1 I1 C2 I2 L : Type) : Type :=
| InFirst (loop1 : Generator C1 I1 L) (source2 : C2) (body2 : LoopBody L)
| InSecond (loop2 : Generator C2 I2 L)
| Closed (loop1 : Generator C1 I1 L) (source2 : C2).
Arguments InFirst {C1 I1 C2 I2 L} loop1 source2 body2.
Arguments InSecond {C1 I1 C2 I2 L} loop2.
Arguments Closed {C1 I1 C2 I2 L} loop1 source2.

Section TwoLoopsObjects.
Context {C1 I1 C2 I2 L : Type}.
Context `{Iterator I1} `{Iterable C1 I1} `{Iterator I2} `{Iterable C2 I2}.
Local Abbreviation Gen2 := (TwoLoops C1 I1 C2 I2 L).

(** When the first loop ends, the second starts with the locals the first
    one left, and asks the second source for its iterator only then. *)
Definition two_next (g : Gen2) : IteratorResult * Gen2 :=
  match g with
  | InFirst loop1 source2 body2 =>
      match next loop1 with
      | (Yielded v, loop1') => (Yielded v, InFirst loop1' source2 body2)
      | (Finished, loop1') =>
          let loop2 := generator source2 body2 (locals loop1') in
          let '(r, loop2') := next loop2 in
          (r, InSecond loop2')
      end
  | InSecond loop2 => let '(r, loop2') := next loop2 in (r, InSecond loop2')
  | Closed _ _ => (Finished, g)
  end.

Definition two_return (g : Gen2) : Gen2 :=
  match g with
  | InFirst loop1 source2 _ => Closed (return_ loop1) source2
  | InSecond loop2 => InSecond (return_ loop2)
  | Closed _ _ => g
  end.

Definition two_pending (g : Gen2) : nat :=
  match g with
  | InFirst loop1 source2 _ => (pending loop1 + pending (iterator source2))%nat
  | InSecond loop2 => pending loop2
  | Closed _ _ => O
  end.

#[export] Instance TwoLoops_Iterator : Iterator Gen2 := {
  next := two_next;
  return_ := two_return;
  pending := two_pending
}.

#[export] Instance TwoLoops_Iterable : Iterable Gen2 Gen2 := {
  iterator := fun g => g;
  writeback := fun _ g' => g';
  asArray := fun _ => None
}.
End TwoLoopsObjects.

(** Calling such a generator function runs none of its body. *)
Definition two_loops {C1 I1 C2 I2 L : Type} `{Iterable C1 I1} `{Iterable C2 I2}
    (first : C1) (second : C2) (body1 body2 : LoopBody L) (init : L)
    : TwoLoops C1 I1 C2 I2 L :=
  InFirst (generator first body1 init) second body2.

End Protocol.
Import Protocol.

(* ================================================================== *)
(** ** The library                                                     *)
(* ================================================================== *)

Module LinqLite.

Definition Selector (R : Type) : Type := value -> R.
Definition IndexedSelector (R : Type) : Type := value -> Z -> R.
Definition Predicate : Type := value -> bool.
Definition IndexedPredicate : Type := value -> Z -> bool.
Definition EqualityComparer : Type := value -> value -> bool.
Definition Hash : Type := value -> number.

(** [type HashSet<T> = { [key: number]: T }]: an object used as a map from
    number keys to elements, the latest write first.  Reading a key that
    was never written gives [undefined] (the string of a number names no
    property that an object inherits). *)
Definition HashSet : Type := list (number * value).

Fixpoint hs_get (h : HashSet) (key : number) : value :=
  match h with
  | [] => undefined
  | (k, v) :: h' => if same_key k key then v else hs_get h' key
  end.

Definition hs_set (h : HashSet) (key : number) (v : value) : HashSet :=
  (key, v) :: h.

(** [e.valueOf()] where a number is expected.  A number is its own
    [valueOf()]; elements of other types are outside the declared types
    [Selector<T, number>] and [Hash<T>] and are given [NaN] here. *)
Definition valueOf (e : value) : number :=
  match e with VNum n => n | _ => NaN end.

Definition defaultNumberSelector : Selector number := fun e => valueOf e.
Definition defaultPredicate : Predicate := fun _ => true.
Definition defaultEqualityComparer : EqualityComparer := fun a b => strict_eq a b.
Definition defaultHash : Hash := fun e => valueOf e.

Definition emptySequence : Error := mkError "empty sequence".
Definition elementNotExisted : Error := mkError "element not existed".
Definition noElementSatisfies : Error :=
  mkError "sequence contains no element that satisfies specified predicate".
Definition moreThanOneElement : Error :=
  mkError "sequence contains more than one element that satisfies specified predicate".

(** [function throwEmptySequence(): never]. *)
Definition throwEmptySequence {A : Type} : Outcome A := Throws emptySequence.

(** *** Terminal operations

    A terminal operation gives its result and the source object as the
    traversal left it. *)

Section Terminal.
Context {C I : Type} `{Iterator I} `{Iterable C I}.

Definition contains (source : C) (v : value) (comparer : EqualityComparer)
    : bool * C :=
  let '(r, source') :=
    for_of source
      (fun (_ : unit) item => if comparer item v then Exit true else Continue tt) tt in
  (match r with Exit b => b | Continue _ => false end, source').

Definition count (source : C) (predicate : Predicate) : Z * C :=
  let '(r, source') :=
    for_of (R := Empty_set) source
      (fun count item =>
         if predicate item then Continue (count + 1) else Continue count) 0 in
  (match r with Continue count => count | Exit e => match e with end end, source').

Definition elementAtOrUndefined (source : C) (index : Z) : value * C :=
  let '(r, source') :=
    for_of source
      (fun currentIndex item =>
         if currentIndex =? index then Exit item else Continue (currentIndex + 1)) 0 in
  (match r with Exit item => item | Continue _ => undefined end, source').

Definition elementAt (source : C) (index : Z) : Outcome value * C :=
  let '(element, source') := elementAtOrUndefined source index in
  (if negb (truthy element) then Throws elementNotExisted else Returns element, source').

Definition firstOrUndefined (source : C) (predicate : Predicate) : value * C :=
  let '(r, source') :=
    for_of source
      (fun (_ : unit) item => if predicate item then Exit item else Continue tt) tt in
  (match r with Exit item => item | Continue _ => undefined end, source').

Definition first (source : C) (predicate : Predicate) : Outcome value * C :=
  let '(result, source') := firstOrUndefined source predicate in
  (if strict_eq result undefined then throwEmptySequence else Returns result, source').

(** [for (let i = source.length - 1; i >= 0; --i)], with [n = i + 1]. *)
Fixpoint lastOrUndefinedForArray_from (source : list value) (predicate : Predicate)
    (n : nat) : value :=
  match n with
  | O => undefined
  | S i =>
      let item := nth i source undefined in
      if predicate item then item
      else lastOrUndefinedForArray_from source predicate i
  end.

Definition lastOrUndefinedForArray (source : list value) (predicate : Predicate)
    : value :=
  lastOrUndefinedForArray_from source predicate (length source).

Definition lastOrUndefined (source : C) (predicate : Predicate) : value * C :=
  match asArray source with
  | Some a => (lastOrUndefinedForArray a predicate, source)
  | None =>
      let '(r, source') :=
        for_of (R := Empty_set) source
          (fun last item => if predicate item then Continue item else Continue last)
          undefined in
      (match r with Continue last => last | Exit e => match e with end end, source')
  end.

Definition last (source : C) (predicate : Predicate) : Outcome value * C :=
  let '(result, source') := lastOrUndefined source predicate in
  (if strict_eq result undefined then Throws emptySequence else Returns result, source').

Definition max (source : C) (selector : Selector number) : number * C :=
  let '(r, source') :=
    for_of (R := Empty_set) source
      (fun max item => Continue (Math_max max (selector item))) MIN_VALUE in
  (match r with Continue max => max | Exit e => match e with end end, source').

Definition min (source : C) (selector : Selector number) : number * C :=
  let '(r, source') :=
    for_of (R := Empty_set) source
      (fun min item => Continue (Math_min min (selector item))) MAX_VALUE in
  (match r with Continue min => min | Exit e => match e with end end, source').

Record MinMax : Type := mkMinMax { min_of : number; max_of : number }.

Definition minMax (source : C) (selector : Selector number) : MinMax * C :=
  let '(r, source') :=
    for_of (R := Empty_set) source
      (fun mm item =>
         let v := selector item in
         Continue (mkMinMax (Math_min (min_of mm) v) (Math_max (max_of mm) v)))
      (mkMinMax MAX_VALUE MIN_VALUE) in
  (match r with Continue mm => mm | Exit e => match e with end end, source').

Definition singleOrUndefined (source : C) (predicate : Predicate)
    : Outcome value * C :=
  let '(r, source') :=
    for_of source
      (fun result item =>
         if predicate item then
           if negb (strict_eq result undefined) then Exit moreThanOneElement
           else Continue item
         else Continue result)
      undefined in
  (match r with Continue result => Returns result | Exit e => Throws e end, source').

Definition single (source : C) (predicate : Predicate) : Outcome value * C :=
  match singleOrUndefined source predicate with
  | (Throws e, source') => (Throws e, source')
  | (Returns result, source') =>
      (if strict_eq result undefined then Throws noElementSatisfies
       else Returns result, source')
  end.

Definition toArray (source : C) : list value * C :=
  let '(r, source') :=
    for_of (R := Empty_set) source
      (fun array item => Continue (array ++ [item])) [] in
  (match r with Continue array => array | Exit e => match e with end end, source').

(** [aggregate] drives the iterator by hand: one [next()] for the seed,
    then [while (true)] with a [break] on [done], which is a [for ... of]
    loop that nothing leaves early. *)
Definition aggregate (source : C) (func : value -> value -> value)
    : Outcome value * C :=
  let iterator_ := iterator source in
  match next iterator_ with
  | (Finished, it') => (throwEmptySequence, writeback source it')
  | (Yielded v, it') =>
      let '(r, it'') :=
        for_of_loop (R := Empty_set)
          (fun seed current => Continue (func seed current))
          (S (pending it')) it' v in
      (match r with Continue seed => Returns seed | Exit e => match e with end end,
       writeback source it'')
  end.

Definition aggregateWithSeed {A : Type} (source : C) (seed : A)
    (func : A -> value -> A) : A * C :=
  let '(r, source') :=
    for_of (R := Empty_set) source (fun seed item => Continue (func seed item)) seed in
  (match r with Continue seed => seed | Exit e => match e with end end, source').

Definition all (source : C) (predicate : Predicate) : bool * C :=
  let '(r, source') :=
    for_of source
      (fun (_ : unit) item => if negb (predicate item) then Exit false else Continue tt)
      tt in
  (match r with Exit b => b | Continue _ => true end, source').

Definition any (source : C) (predicate : Predicate) : bool * C :=
  let '(r, source') :=
    for_of source
      (fun (_ : unit) item => if predicate item then Exit true else Continue tt) tt in
  (match r with Exit b => b | Continue _ => false end, source').

(** [sum += selector(item); ++count] and [return sum / count]. *)
Definition average (source : C) (selector : Selector number) : number * C :=
  let '(r, source') :=
    for_of (R := Empty_set) source
      (fun sc item =>
         Continue (number_add (fst sc) (selector item),
                   number_add (snd sc) (number_of_Z 1)))
      (number_of_Z 0, number_of_Z 0) in
  (match r with
   | Continue sc => number_div (fst sc) (snd sc)
   | Exit e => match e with end
   end, source').

Definition sum (source : C) (selector : Selector number) : number * C :=
  let '(r, source') :=
    for_of (R := Empty_set) source
      (fun sum item => Continue (number_add sum (selector item))) (number_of_Z 0) in
  (match r with Continue sum => sum | Exit e => match e with end end, source').

(** [hashSet[hash(item)] = item] for every item. *)
Definition makeHashSet (source : C) (hash : Hash) : HashSet * C :=
  let '(r, source') :=
    for_of (R := Empty_set) source
      (fun hashSet item => Continue (hs_set hashSet (hash item) item)) [] in
  (match r with Continue hashSet => hashSet | Exit e => match e with end end, source').

End Terminal.

(** [sequenceEqual] calls [next()] on both iterators in every round, and
    closes neither. *)
Section SequenceEqual.
Context {C1 I1 C2 I2 : Type}.
Context `{Iterator I1} `{Iterable C1 I1} `{Iterator I2} `{Iterable C2 I2}.
Variable comparer : EqualityComparer.

Fixpoint sequenceEqual_loop (fuel : nat) (firstIterator : I1) (secondIterator : I2)
    : bool * (I1 * I2) :=
  match fuel with
  | O => (false, (firstIterator, secondIterator))
  | S fuel' =>
      let '(firstResult, it1) := next firstIterator in
      let '(secondResult, it2) := next secondIterator in
      match firstResult, secondResult with
      | Finished, Finished => (true, (it1, it2))
      | Finished, Yielded _ => (false, (it1, it2))
      | Yielded _, Finished => (false, (it1, it2))
      | Yielded a, Yielded b =>
          if negb (comparer a b) then (false, (it1, it2))
          else sequenceEqual_loop fuel' it1 it2
      end
  end.

Definition sequenceEqual (first : C1) (second : C2) : bool * (C1 * C2) :=
  let firstIterator := iterator first in
  let secondIterator := iterator second in
  let '(r, (it1, it2)) :=
    sequenceEqual_loop (S (pending firstIterator)) firstIterator secondIterator in
  (r, (writeback first it1, writeback second it2)).
End SequenceEqual.

(** *** Transformations

    Each transformation is a generator function: calling it creates a
    generator object in state [suspendedStart]. *)

(** The locals of a body that counts its items.  [calls] is ghost: the
    number of times the body has called the selector or predicate it was
    given. *)
Record Counter : Type := mkCounter { index : Z; calls : nat }.

Definition called (l : Counter) : Counter := mkCounter (index l) (S (calls l)).
Definition incremented (l : Counter) : Counter := mkCounter (index l + 1) (calls l).

(** [contains(iteratedElements, item, comparer)]: [continue] when found,
    else [push] and [yield]. *)
Definition distinct_body (comparer : EqualityComparer) : LoopBody (list value) :=
  mkLoopBody
    (fun iteratedElements item =>
       if fst (contains iteratedElements item comparer) then Skip iteratedElements
       else Yield item (iteratedElements ++ [item]))
    (fun iteratedElements => iteratedElements).

Definition distinct {C I : Type} `{Iterable C I}
    (source : C) (comparer : EqualityComparer) : Generator C I (list value) :=
  generator source (distinct_body comparer) [].

Definition distinctHash_body (hash : Hash) : LoopBody HashSet :=
  mkLoopBody
    (fun iteratedElements item =>
       let hashValue := hash item in
       if negb (strict_eq (hs_get iteratedElements hashValue) undefined)
       then Skip iteratedElements
       else Yield item (hs_set iteratedElements hashValue item))
    (fun iteratedElements => iteratedElements).

Definition distinctHash {C I : Type} `{Iterable C I}
    (source : C) (hash : Hash) : Generator C I HashSet :=
  generator source (distinctHash_body hash) [].

(** [yield selector(item, index); ++index]. *)
Definition select_body (selector : IndexedSelector value) : LoopBody Counter :=
  mkLoopBody
    (fun l item => Yield (selector item (index l)) (called l))
    incremented.

Definition select {C I : Type} `{Iterable C I}
    (source : C) (selector : IndexedSelector value) : Generator C I Counter :=
  generator source (select_body selector) (mkCounter 0 0).

(** [if (index >= count) yield item; ++index]. *)
Definition skip_body (count : Z) : LoopBody Z :=
  mkLoopBody
    (fun index item => if index >=? count then Yield item index else Skip (index + 1))
    (fun index => index + 1).

Definition skip {C I : Type} `{Iterable C I}
    (source : C) (count : Z) : Generator C I Z :=
  generator source (skip_body count) 0.

(** [if (index < count) yield item; else break; ++index]. *)
Definition take_body (count : Z) : LoopBody Z :=
  mkLoopBody
    (fun index item => if index <? count then Yield item index else Break index)
    (fun index => index + 1).

Definition take {C I : Type} `{Iterable C I}
    (source : C) (count : Z) : Generator C I Z :=
  generator source (take_body count) 0.

(** [if (predicate(item, index)) yield item; ++index]. *)
Definition where_body (predicate : IndexedPredicate) : LoopBody Counter :=
  mkLoopBody
    (fun l item =>
       if predicate item (index l) then Yield item (called l)
       else Skip (incremented (called l)))
    incremented.

Definition where_ {C I : Type} `{Iterable C I}
    (source : C) (predicate : IndexedPredicate) : Generator C I Counter :=
  generator source (where_body predicate) (mkCounter 0 0).

(** [yield (item as TResult)]. *)
Definition assertType_body : LoopBody unit :=
  mkLoopBody (fun l item => Yield item l) (fun l => l).

Definition assertType {C I : Type} `{Iterable C I} (source : C) : Generator C I unit :=
  generator source assertType_body tt.

(** [if (predicate(item, index)) { yield item; ++index; continue; } break;] *)
Definition takeWhile_body (predicate : IndexedPredicate) : LoopBody Z :=
  mkLoopBody
    (fun index item => if predicate item index then Yield item index else Break index)
    (fun index => index + 1).

Definition takeWhile {C I : Type} `{Iterable C I}
    (source : C) (predicate : IndexedPredicate) : Generator C I Z :=
  generator source (takeWhile_body predicate) 0.

(** [if (skip) { if (predicate(item, index)) { ++index; continue; }
    skip = false; } yield item;] with the locals [index] and [skip]. *)
Definition skipWhile_body (predicate : IndexedPredicate) : LoopBody (Z * bool) :=
  mkLoopBody
    (fun (l : Z * bool) item =>
       let '(index, skip) := l in
       if skip then
         if predicate item index then Skip (index + 1, skip)
         else Yield item (index, false)
       else Yield item l)
    (fun l => l).

Definition skipWhile {C I : Type} `{Iterable C I}
    (source : C) (predicate : IndexedPredicate) : Generator C I (Z * bool) :=
  generator source (skipWhile_body predicate) (0, true).

(** [except] and [intersect] traverse [second] anew for every item of
    [first]: the body's local state is the object [second], as the calls
    of [contains] leave it. *)
Section ExceptIntersect.
Context {C I C2 I2 : Type} `{Iterable C I} `{Iterator I2} `{Iterable C2 I2}.

(** [if (!contains(second, item, comparer)) yield item;] *)
Definition except_body (comparer : EqualityComparer) : LoopBody C2 :=
  mkLoopBody
    (fun second item =>
       let '(found, second') := contains second item comparer in
       if negb found then Yield item second' else Skip second')
    (fun second => second).

Definition except (first : C) (second : C2) (comparer : EqualityComparer)
    : Generator C I C2 :=
  generator first (except_body comparer) second.

(** [if (contains(second, item, comparer)) yield item;] *)
Definition intersect_body (comparer : EqualityComparer) : LoopBody C2 :=
  mkLoopBody
    (fun second item =>
       let '(found, second') := contains second item comparer in
       if found then Yield item second' else Skip second')
    (fun second => second).

Definition intersect (first : C) (second : C2) (comparer : EqualityComparer)
    : Generator C I C2 :=
  generator first (intersect_body comparer) second.
End ExceptIntersect.

(** [for (let item of first) yield item; for (let item of second) yield
    item;] *)
Definition concat {C1 I1 C2 I2 : Type} `{Iterable C1 I1} `{Iterable C2 I2}
    (first : C1) (second : C2) : TwoLoops C1 I1 C2 I2 unit :=
  two_loops first second assertType_body assertType_body tt.

(** [if (!contains(items, item, comparer)) { items.push(item); yield item; }],
    in both loops. *)
Definition union_body (comparer : EqualityComparer) : LoopBody (list value) :=
  mkLoopBody
    (fun items item =>
       if negb (fst (contains items item comparer)) then Yield item (items ++ [item])
       else Skip items)
    (fun items => items).

Definition union {C1 I1 C2 I2 : Type} `{Iterable C1 I1} `{Iterable C2 I2}
    (first : C1) (second : C2) (comparer : EqualityComparer)
    : TwoLoops C1 I1 C2 I2 (list value) :=
  two_loops first second (union_body comparer) (union_body comparer) [].

(** [if (items[hashValue] === undefined) { items[hashValue] = item; yield
    item; }], in both loops. *)
Definition unionHash_body (hash : Hash) : LoopBody HashSet :=
  mkLoopBody
    (fun items item =>
       let hashValue := hash item in
       if strict_eq (hs_get items hashValue) undefined
       then Yield item (hs_set items hashValue item)
       else Skip items)
    (fun items => items).

Definition unionHash {C1 I1 C2 I2 : Type} `{Iterable C1 I1} `{Iterable C2 I2}
    (first : C1) (second : C2) (hash : Hash) : TwoLoops C1 I1 C2 I2 HashSet :=
  two_loops first second (unionHash_body hash) (unionHash_body hash) [].

(** [exceptHash] and [intersectHash] build the hash set of [second] when
    the body starts, before the loop over [first]. *)
Inductive HashFilter (C I C2 I2 : Type) : Type :=
| HashFilterStart (first : C) (second : C2) (hash : Hash) (body : LoopBody HashSet)
| HashFilterLoop (loop : Generator C I HashSet) (second : C2)
| HashFilterClosed (first : C) (second : C2).
Arguments HashFilterStart {C I C2 I2} first second hash body.
Arguments HashFilterLoop {C I C2 I2} loop second.
Arguments HashFilterClosed {C I C2 I2} first second.

Section HashFilters.
Context {C I C2 I2 : Type}.
Context `{Iterator I} `{Iterable C I} `{Iterator I2} `{Iterable C2 I2}.

Definition hashFilter_next (g : HashFilter C I C2 I2) : IteratorResult * HashFilter C I C2 I2 :=
  match g with
  | HashFilterStart first second hash body =>
      let '(hashedSecond, second') := makeHashSet second hash in
      let '(r, loop) := next (generator first body hashedSecond) in
      (r, HashFilterLoop loop second')
  | HashFilterLoop loop second =>
      let '(r, loop') := next loop in (r, HashFilterLoop loop' second)
  | HashFilterClosed _ _ => (Finished, g)
  end.

Definition hashFilter_return (g : HashFilter C I C2 I2) : HashFilter C I C2 I2 :=
  match g with
  | HashFilterStart first second _ _ => HashFilterClosed first second
  | HashFilterLoop loop second => HashFilterLoop (return_ loop) second
  | HashFilterClosed _ _ => g
  end.

Definition hashFilter_pending (g : HashFilter C I C2 I2) : nat :=
  match g with
  | HashFilterStart first _ _ _ => pending (iterator first)
  | HashFilterLoop loop _ => pending loop
  | HashFilterClosed _ _ => O
  end.

#[export] Instance HashFilter_Iterator : Iterator (HashFilter C I C2 I2) := {
  next := hashFilter_next;
  return_ := hashFilter_return;
  pending := hashFilter_pending
}.

#[export] Instance HashFilter_Iterable
    : Iterable (HashFilter C I C2 I2) (HashFilter C I C2 I2) := {
  iterator := fun g => g;
  writeback := fun _ g' => g';
  asArray := fun _ => None
}.

(** [if (hashedSecond[hash(item)] === undefined) yield item;] *)
Definition exceptHash_body (hash : Hash) : LoopBody HashSet :=
  mkLoopBody
    (fun hashedSecond item =>
       if strict_eq (hs_get hashedSecond (hash item)) undefined
       then Yield item hashedSecond else Skip hashedSecond)
    (fun hashedSecond => hashedSecond).

(** [if (hashedSecond[hash(item)] !== undefined) yield item;] *)
Definition intersectHash_body (hash : Hash) : LoopBody HashSet :=
  mkLoopBody
    (fun hashedSecond item =>
       if negb (strict_eq (hs_get hashedSecond (hash item)) undefined)
       then Yield item hashedSecond else Skip hashedSecond)
    (fun hashedSecond => hashedSecond).

End HashFilters.

Definition exceptHash {C I C2 I2 : Type} `{Iterable C I} `{Iterable C2 I2}
    (first : C) (second : C2) (hash : Hash) : HashFilter C I C2 I2 :=
  HashFilterStart first second hash (exceptHash_body hash).

Definition intersectHash {C I C2 I2 : Type} `{Iterable C I} `{Iterable C2 I2}
    (first : C) (second : C2) (hash : Hash) : HashFilter C I C2 I2 :=
  HashFilterStart first second hash (intersectHash_body hash).

(** [defaultIfEmpty] and [undefinedIfEmpty] drive the iterator of their
    source by hand: the first [next()] decides between the default and the
    first element, and the generator then passes on what [next()] gives
    until it answers [done].  They never close the iterator. *)
Inductive DefaultGenerator (C I : Type) : Type :=
| DefaultStart (source : C) (defaultValue : value)
| DefaultPaused (it : I)
| DefaultCompleted (it : option I).
Arguments DefaultStart {C I} source defaultValue.
Arguments DefaultPaused {C I} it.
Arguments DefaultCompleted {C I} it.

Section DefaultIfEmpty.
Context {C I : Type} `{Iterator I} `{Iterable C I}.

Definition default_next (g : DefaultGenerator C I)
    : IteratorResult * DefaultGenerator C I :=
  match g with
  | DefaultStart source defaultValue =>
      match next (iterator source) with
      | (Finished, it') => (Yielded defaultValue, DefaultPaused it')
      | (Yielded v, it') => (Yielded v, DefaultPaused it')
      end
  | DefaultPaused it =>
      match next it with
      | (Finished, it') => (Finished, DefaultCompleted (Some it'))
      | (Yielded v, it') => (Yielded v, DefaultPaused it')
      end
  | DefaultCompleted _ => (Finished, g)
  end.

Definition default_return (g : DefaultGenerator C I) : DefaultGenerator C I :=
  match g with
  | DefaultStart _ _ => DefaultCompleted None
  | DefaultPaused it => DefaultCompleted (Some it)
  | DefaultCompleted _ => g
  end.

Definition default_pending (g : DefaultGenerator C I) : nat :=
  match g with
  | DefaultStart source _ => S (pending (iterator source))
  | DefaultPaused it => pending it
  | DefaultCompleted _ => O
  end.

#[export] Instance DefaultGenerator_Iterator : Iterator (DefaultGenerator C I) := {
  next := default_next;
  return_ := default_return;
  pending := default_pending
}.

#[export] Instance DefaultGenerator_Iterable
    : Iterable (DefaultGenerator C I) (DefaultGenerator C I) := {
  iterator := fun g => g;
  writeback := fun _ g' => g';
  asArray := fun _ => None
}.
End DefaultIfEmpty.

Definition defaultIfEmpty {C I : Type} `{Iterable C I}
    (source : C) (defaultValue : value) : DefaultGenerator C I :=
  DefaultStart source defaultValue.

Definition undefinedIfEmpty {C I : Type} `{Iterable C I} (source : C)
    : DefaultGenerator C I :=
  DefaultStart source undefined.

(** [reverse] copies a source that is not an array with [toArray], when
    its body starts, and delegates to [reverseArray], which yields
    [source[i]] from [i = source.length - 1] down to 0.  In
    [ReversePaused array i] the element at index [i] was yielded last. *)
Inductive ReverseGenerator (C I : Type) : Type :=
| ReverseStart (source : C)
| ReversePaused (array : list value) (i : nat)
| ReverseCompleted.
Arguments ReverseStart {C I} source.
Arguments ReversePaused {C I} array i.
Arguments ReverseCompleted {C I}.

Section Reverse.
Context {C I : Type} `{Iterator I} `{Iterable C I}.

(** The loop of [reverseArray], about to test [i >= 0] with [i = n - 1]. *)
Definition reverseArray_step (array : list value) (n : nat)
    : IteratorResult * ReverseGenerator C I :=
  match n with
  | O => (Finished, ReverseCompleted)
  | S i => (Yielded (nth i array undefined), ReversePaused array i)
  end.

Definition reverse_next (g : ReverseGenerator C I) : IteratorResult * ReverseGenerator C I :=
  match g with
  | ReverseStart source =>
      let array :=
        match asArray source with
        | Some a => a
        | None => fst (toArray source)
        end in
      reverseArray_step array (length array)
  | ReversePaused array i => reverseArray_step array i
  | ReverseCompleted => (Finished, g)
  end.

Definition reverse_pending (g : ReverseGenerator C I) : nat :=
  match g with
  | ReverseStart source => pending (iterator source)
  | ReversePaused _ i => i
  | ReverseCompleted => O
  end.

#[export] Instance ReverseGenerator_Iterator : Iterator (ReverseGenerator C I) := {
  next := reverse_next;
  return_ := fun _ => ReverseCompleted;
  pending := reverse_pending
}.

#[export] Instance ReverseGenerator_Iterable
    : Iterable (ReverseGenerator C I) (ReverseGenerator C I) := {
  iterator := fun g => g;
  writeback := fun _ g' => g';
  asArray := fun _ => None
}.
End Reverse.

Definition reverse {C I : Type} `{Iterable C I} (source : C) : ReverseGenerator C I :=
  ReverseStart source.

(** [zip] drives both iterators by hand: every round calls [next()] on the
    first and then on the second, and the generator ends, closing neither,
    when either answers [done]. *)
Inductive ZipGenerator (C1 I1 C2 I2 : Type) : Type :=
| ZipStart (first : C1) (second : C2) (resultSelector : value -> value -> value)
| ZipPaused (firstIterator : I1) (secondIterator : I2)
    (resultSelector : value -> value -> value)
| ZipCompleted (iterators : option (I1 * I2)).
Arguments ZipStart {C1 I1 C2 I2} first second resultSelector.
Arguments ZipPaused {C1 I1 C2 I2} firstIterator secondIterator resultSelector.
Arguments ZipCompleted {C1 I1 C2 I2} iterators.

Section Zip.
Context {C1 I1 C2 I2 : Type}.
Context `{Iterator I1} `{Iterable C1 I1} `{Iterator I2} `{Iterable C2 I2}.
Local Abbreviation Zip := (ZipGenerator C1 I1 C2 I2).

Definition zip_round (firstIterator : I1) (secondIterator : I2)
    (resultSelector : value -> value -> value) : IteratorResult * Zip :=
  let '(firstResult, it1) := next firstIterator in
  let '(secondResult, it2) := next secondIterator in
  match firstResult, secondResult with
  | Yielded a, Yielded b =>
      (Yielded (resultSelector a b), ZipPaused it1 it2 resultSelector)
  | _, _ => (Finished, ZipCompleted (Some (it1, it2)))
  end.

Definition zip_next (g : Zip) : IteratorResult * Zip :=
  match g with
  | ZipStart first second resultSelector =>
      zip_round (iterator first) (iterator second) resultSelector
  | ZipPaused firstIterator secondIterator resultSelector =>
      zip_round firstIterator secondIterator resultSelector
  | ZipCompleted _ => (Finished, g)
  end.

Definition zip_return (g : Zip) : Zip :=
  match g with
  | ZipStart _ _ _ => ZipCompleted None
  | ZipPaused firstIterator secondIterator _ =>
      ZipCompleted (Some (firstIterator, secondIterator))
  | ZipCompleted _ => g
  end.

Definition zip_pending (g : Zip) : nat :=
  match g with
  | ZipStart first _ _ => pending (iterator first)
  | ZipPaused firstIterator _ _ => pending firstIterator
  | ZipCompleted _ => O
  end.

#[export] Instance ZipGenerator_Iterator : Iterator Zip := {
  next := zip_next;
  return_ := zip_return;
  pending := zip_pending
}.

#[export] Instance ZipGenerator_Iterable : Iterable Zip Zip := {
  iterator := fun g => g;
  writeback := fun _ g' => g';
  asArray := fun _ => None
}.
End Zip.

Definition zip {C1 I1 C2 I2 : Type} `{Iterable C1 I1} `{Iterable C2 I2}
    (first : C1) (second : C2) (resultSelector : value -> value -> value)
    : ZipGenerator C1 I1 C2 I2 :=
  ZipStart first second resultSelector.

(** [selectMany] is a loop within a loop: for each item of the source, it
    yields the children that the selector gives for the item and its
    index, and then increments the index.  The selector is taken to return
    arrays, so that the inner loop runs over an array iterator.  Paused at
    its [yield], the generator holds the iterator of the outer loop, the
    index and the iterator of the inner loop. *)
Definition ManySelector : Type := value -> Z -> list value.

Inductive SelectManyGenerator (C I : Type) : Type :=
| ManyStart (source : C) (selector : ManySelector)
| ManyPaused (it : I) (index : Z) (children : ArrayIterator) (selector : ManySelector)
| ManyCompleted (it : option I).
Arguments ManyStart {C I} source selector.
Arguments ManyPaused {C I} it index children selector.
Arguments ManyCompleted {C I} it.

Section SelectMany.
Context {C I : Type} `{Iterator I} `{Iterable C I}.

(** The outer loop from its head, until the inner loop yields a child or
    the source is exhausted.  [fuel] is as in [for_of_loop]. *)
Fixpoint many_outer (fuel : nat) (it : I) (index : Z) (selector : ManySelector)
    : IteratorResult * SelectManyGenerator C I :=
  match fuel with
  | O => (Finished, ManyCompleted (Some it))
  | S fuel' =>
      match next it with
      | (Finished, it') => (Finished, ManyCompleted (Some it'))
      | (Yielded item, it') =>
          match next (iterator (selector item index)) with
          | (Yielded child, children) =>
              (Yielded child, ManyPaused it' index children selector)
          | (Finished, _) => many_outer fuel' it' (index + 1) selector
          end
      end
  end.

(** Resumed after its [yield], the generator goes on with the inner loop;
    when that ends, [++index] and the outer loop goes on. *)
Definition many_next (g : SelectManyGenerator C I)
    : IteratorResult * SelectManyGenerator C I :=
  match g with
  | ManyStart source selector =>
      let it := iterator source in
      many_outer (S (pending it)) it 0 selector
  | ManyPaused it index children selector =>
      match next children with
      | (Yielded child, children') =>
          (Yielded child, ManyPaused it index children' selector)
      | (Finished, _) => many_outer (S (pending it)) it (index + 1) selector
      end
  | ManyCompleted _ => (Finished, g)
  end.

(** [return] at the [yield] leaves both loops: it closes the iterator of
    the inner loop (an array iterator, which has nothing to close) and
    then that of the outer loop. *)
Definition many_return (g : SelectManyGenerator C I) : SelectManyGenerator C I :=
  match g with
  | ManyStart _ _ => ManyCompleted None
  | ManyPaused it _ _ _ => ManyCompleted (Some (return_ it))
  | ManyCompleted _ => g
  end.

(** The number of children still to come from the items of [it]. *)
Fixpoint many_remaining (fuel : nat) (it : I) (index : Z) (selector : ManySelector)
    : nat :=
  match fuel with
  | O => O
  | S fuel' =>
      match next it with
      | (Finished, _) => O
      | (Yielded item, it') =>
          (length (selector item index)
           + many_remaining fuel' it' (index + 1) selector)%nat
      end
  end.

Definition many_pending (g : SelectManyGenerator C I) : nat :=
  match g with
  | ManyStart source selector =>
      many_remaining (pending (iterator source)) (iterator source) 0 selector
  | ManyPaused it index children selector =>
      (pending children + many_remaining (pending it) it (index + 1) selector)%nat
  | ManyCompleted _ => O
  end.

#[export] Instance SelectManyGenerator_Iterator : Iterator (SelectManyGenerator C I) := {
  next := many_next;
  return_ := many_return;
  pending := many_pending
}.

#[export] Instance SelectManyGenerator_Iterable
    : Iterable (SelectManyGenerator C I) (SelectManyGenerator C I) := {
  iterator := fun g => g;
  writeback := fun _ g' => g';
  asArray := fun _ => None
}.
End SelectMany.

Definition selectMany {C I : Type} `{Iterable C I}
    (source : C) (selector : ManySelector) : SelectManyGenerator C I :=
  ManyStart source selector.

(** *** The fluent wrapper *)

(** [class LinqWrapper<T>] with its one field. *)
Record LinqWrapper (C : Type) : Type := mkLinqWrapper { iterable : C }.

(** [L(iterable) = new LinqWrapper(iterable)]. *)
Definition L {C : Type} (iterable : C) : LinqWrapper C := mkLinqWrapper iterable.

(** [[Symbol.iterator]() { return this.iterable[Symbol.iterator](); }]. *)
#[export] Instance LinqWrapper_Iterable {C I : Type} `{Iterable C I}
    : Iterable (LinqWrapper C) I := {
  iterator := fun this => iterator (iterable this);
  writeback := fun this it => L (writeback (iterable this) it);
  asArray := fun _ => None
}.

(** The methods.  A terminal method gives the free function's result and
    the wrapper around the source as the call left it; a transformation
    method gives a new wrapper around the new generator. *)
Module Wrapper.
Section Methods.
Context {C I : Type} `{Iterator I} `{Iterable C I}.

Definition terminal {A : Type} (r : A * C) : A * LinqWrapper C :=
  (fst r, L (snd r)).

(** [count(predicate = defaultPredicate) { return count(this.iterable); }] *)
Definition count (this : LinqWrapper C) (predicate : Predicate) :=
  terminal (count (iterable this) defaultPredicate).

(** [distinct(comparer = defaultEqualityComparer)
     { return new LinqWrapper<T>(distinct(this.iterable)); }] *)
Definition distinct (this : LinqWrapper C) (comparer : EqualityComparer) :=
  L (distinct (iterable this) defaultEqualityComparer).

Definition distinctHash (this : LinqWrapper C) (hash : Hash) :=
  L (distinctHash (iterable this) hash).

Definition elementAt (this : LinqWrapper C) (index : Z) :=
  terminal (elementAt (iterable this) index).

Definition elementAtOrUndefined (this : LinqWrapper C) (index : Z) :=
  terminal (elementAtOrUndefined (iterable this) index).

Definition first (this : LinqWrapper C) (predicate : Predicate) :=
  terminal (first (iterable this) predicate).

Definition firstOrUndefined (this : LinqWrapper C) (predicate : Predicate) :=
  terminal (firstOrUndefined (iterable this) predicate).

Definition last (this : LinqWrapper C) (predicate : Predicate) :=
  terminal (last (iterable this) predicate).

Definition lastOrUndefined (this : LinqWrapper C) (predicate : Predicate) :=
  terminal (lastOrUndefined (iterable this) predicate).

Definition max (this : LinqWrapper C) (selector : Selector number) :=
  terminal (max (iterable this) selector).

Definition min (this : LinqWrapper C) (selector : Selector number) :=
  terminal (min (iterable this) selector).

Definition minMax (this : LinqWrapper C) (selector : Selector number) :=
  terminal (minMax (iterable this) selector).

Definition select (this : LinqWrapper C) (selector : IndexedSelector value) :=
  L (select (iterable this) selector).

Definition single (this : LinqWrapper C) (predicate : Predicate) :=
  terminal (single (iterable this) predicate).

Definition singleOrUndefined (this : LinqWrapper C) (predicate : Predicate) :=
  terminal (singleOrUndefined (iterable this) predicate).

Definition skip (this : LinqWrapper C) (count : Z) :=
  L (skip (iterable this) count).

Definition take (this : LinqWrapper C) (count : Z) :=
  L (take (iterable this) count).

Definition toArray (this : LinqWrapper C) :=
  terminal (toArray (iterable this)).

Definition where_ (this : LinqWrapper C) (predicate : IndexedPredicate) :=
  L (where_ (iterable this) predicate).

End Methods.
End Wrapper.

End LinqLite.
Import LinqLite.

(* ================================================================== *)
(** ** Sequences: what an iterator delivers                            *)
(* ================================================================== *)

Module Sequences.

(** [produces it l it']: calling [next] on [it] until it answers [done]
    delivers the values [l], in this order, and leaves the iterator in
    state [it'].  Each delivery lowers the iterator's own bound. *)
Inductive produces {I : Type} `{Iterator I} : I -> list value -> I -> Prop :=
| produces_done : forall it it',
    next it = (Finished, it') -> produces it [] it'
| produces_item : forall it v it1 l it',
    next it = (Yielded v, it1) ->
    (pending it1 < pending it)%nat ->
    produces it1 l it' ->
    produces it (v :: l) it'.

(** [Elements source l]: [source] is a finite sequence and a traversal of
    it delivers the values [l]; when [source] is an array, [l] is the
    array. *)
Definition Elements {C I : Type} `{Iterator I} `{Iterable C I}
    (source : C) (l : list value) : Prop :=
  (exists it', produces (iterator source) l it') /\
  (forall a, asArray source = Some a -> a = l).

(** A [for ... of] loop over the values [l]. *)
Fixpoint run_loop {A R : Type} (body : A -> value -> Completion A R)
    (l : list value) (acc : A) : Completion A R :=
  match l with
  | [] => Continue acc
  | item :: l' =>
      match body acc item with
      | Continue acc' => run_loop body l' acc'
      | Exit r => Exit r
      end
  end.

(** The values a generator yields, and the number of items it receives,
    when its loop is entered with locals [s] and its source still has the
    values [l] to deliver. *)
Fixpoint outputs {L : Type} (b : LoopBody L) (l : list value) (s : L) : list value :=
  match l with
  | [] => []
  | item :: l' =>
      match on_item b s item with
      | Yield v s' => v :: outputs b l' (resume b s')
      | Skip s' => outputs b l' s'
      | Break _ => []
      end
  end.

Fixpoint pulls {L : Type} (b : LoopBody L) (l : list value) (s : L) : nat :=
  match l with
  | [] => O
  | item :: l' =>
      S (match on_item b s item with
         | Yield _ s' => pulls b l' (resume b s')
         | Skip s' => pulls b l' s'
         | Break _ => O
         end)
  end.

(** What the loop of a generator answers when it is to yield [out] before
    it completes in state [g_end]. *)
Definition loop_answer {C I L : Type} `{Iterator I} `{Iterable C I}
    (r : IteratorResult * Generator C I L) (out : list value)
    (g_end : Generator C I L) (bound : nat) : Prop :=
  match out with
  | [] => r = (Finished, g_end)
  | v :: rest =>
      exists g1, r = (Yielded v, g1) /\ (pending g1 < bound)%nat /\
                 produces g1 rest g_end
  end.

(** The elements of [l] that satisfy [p], which is given each element and
    its position, counted from [i]. *)
Fixpoint filter_indexed (p : value -> Z -> bool) (l : list value) (i : Z) : list value :=
  match l with
  | [] => []
  | x :: l' =>
      if p x i then x :: filter_indexed p l' (i + 1)
      else filter_indexed p l' (i + 1)
  end.

(** The first occurrences of [l], for an equivalence test [eqb], after
    [seen]. *)
Fixpoint first_occurrences (eqb : value -> value -> bool) (seen l : list value)
    : list value :=
  match l with
  | [] => []
  | x :: l' =>
      if existsb (fun y => eqb y x) seen then first_occurrences eqb seen l'
      else x :: first_occurrences eqb (seen ++ [x]) l'
  end.

(** For the elements [x] of [universe]: the hash set [h] holds an element
    under the key of [x] exactly when [seen] holds an element [===] to
    [x]. *)
Definition hash_set_mirrors (universe : list value) (hash : Hash)
    (seen : list value) (h : HashSet) : Prop :=
  forall x, In x universe ->
    existsb (fun y => strict_eq y x) seen
    = negb (strict_eq (hs_get h (hash x)) undefined).

(** The left fold of the binary maximum over the projected values, from
    [Number.MIN_VALUE], and of the binary minimum, from
    [Number.MAX_VALUE]. *)
Definition max_as_fold (selector : Selector number) (l : list value) : number :=
  fold_left Math_max (map selector l) MIN_VALUE.

Definition min_as_fold (selector : Selector number) (l : list value) : number :=
  fold_left Math_min (map selector l) MAX_VALUE.

(** A traversal that is abandoned: [for (const x of source) { if (k-- <= 0)
    break; }] reads [k] values and leaves the loop at the next one. *)
Definition abandon {C I : Type} `{Iterator I} `{Iterable C I} (source : C) (k : nat)
    : C :=
  snd (for_of source
         (fun k (_ : value) => match k with O => Exit tt | S k' => Continue k' end) k).

(** The locals a generator's loop ends with. *)
Fixpoint final_locals {L : Type} (b : LoopBody L) (l : list value) (s : L) : L :=
  match l with
  | [] => s
  | item :: l' =>
      match on_item b s item with
      | Yield _ s' => final_locals b l' (resume b s')
      | Skip s' => final_locals b l' s'
      | Break s' => s'
      end
  end.

(** [f] applied to each element of [l] and its position, counted from
    [i]. *)
Fixpoint map_indexed (f : value -> Z -> value) (l : list value) (i : Z) : list value :=
  match l with
  | [] => []
  | x :: l' => f x i :: map_indexed f l' (i + 1)
  end.

(** The longest prefix of [l] whose elements satisfy [p] at their position,
    and what follows it. *)
Fixpoint prefix_while (p : value -> Z -> bool) (l : list value) (i : Z) : list value :=
  match l with
  | [] => []
  | x :: l' => if p x i then x :: prefix_while p l' (i + 1) else []
  end.

Fixpoint suffix_while (p : value -> Z -> bool) (l : list value) (i : Z) : list value :=
  match l with
  | [] => []
  | x :: l' => if p x i then suffix_while p l' (i + 1) else l
  end.

(** [f] applied to the elements of [l1] and [l2] at the same position. *)
Fixpoint zip_with (f : value -> value -> value) (l1 l2 : list value) : list value :=
  match l1, l2 with
  | x :: l1', y :: l2' => f x y :: zip_with f l1' l2'
  | _, _ => []
  end.

(** [l1] and [l2] have the same length and [eqb] holds at every
    position. *)
Fixpoint same_elements (eqb : value -> value -> bool) (l1 l2 : list value) : bool :=
  match l1, l2 with
  | [], [] => true
  | x :: l1', y :: l2' => eqb x y && same_elements eqb l1' l2'
  | _, _ => false
  end.

(** The number of elements of [l] as the code of [average] counts them:
    [++count] from [0], in floating point. *)
Definition count_as_number (l : list value) : number :=
  fold_left (fun count _ => number_add count (number_of_Z 1)) l (number_of_Z 0).

(** The left fold of [+] over the projected values, from [0]. *)
Definition sum_as_fold (selector : Selector number) (l : list value) : number :=
  fold_left number_add (map selector l) (number_of_Z 0).

(** The number of values of [l] that a [for ... of] loop receives: all of
    them, or those up to the one at which the body leaves the loop. *)
Fixpoint runs {A R : Type} (body : A -> value -> Completion A R)
    (l : list value) (acc : A) : nat :=
  match l with
  | [] => O
  | item :: l' =>
      S (match body acc item with
         | Continue acc' => runs body l' acc'
         | Exit _ => O
         end)
  end.

(** The children that [f] gives for each element of [l] and its position,
    counted from [i], one array after the other. *)
Fixpoint flat_map_indexed (f : value -> Z -> list value) (l : list value) (i : Z)
    : list value :=
  match l with
  | [] => []
  | x :: l' => f x i ++ flat_map_indexed f l' (i + 1)
  end.

(** The iterator after [n] calls of [next]. *)
Fixpoint nexts {I : Type} `{Iterator I} (n : nat) (it : I) : I :=
  match n with
  | O => it
  | S n' => nexts n' (snd (next it))
  end.

End Sequences.
Import Sequences.

(* ================================================================== *)
(** ** Facts about values                                              *)
(* ================================================================== *)

Lemma strict_eq_undefined (v : value) :
  strict_eq v undefined = true <-> v = undefined.
Proof.
  destruct v; simpl; split; intro E; try reflexivity; discriminate.
Qed.

Lemma strict_eq_not_undefined (v : value) :
  v <> undefined -> strict_eq v undefined = false.
Proof.
  intro N. destruct (strict_eq v undefined) eqn:E; [|reflexivity].
  apply strict_eq_undefined in E. contradiction.
Qed.

(** Comparing two numbers the other way round gives the opposite answer. *)
Lemma SFcompare_antisym (x y : number) (c : comparison) :
  SFcompare x y = Some c -> SFcompare y x = Some (CompOpp c).
Proof.
  destruct x as [sx|sx| |sx mx ex], y as [sy|sy| |sy my ey]; simpl;
    intro E; try discriminate; injection E as <-;
    try (destruct sx; reflexivity); try (destruct sy; reflexivity);
    try (destruct sx, sy; reflexivity).
  f_equal.
  destruct sx, sy; try reflexivity;
    rewrite (Z.compare_antisym ey ex);
    destruct (ey ?= ex); simpl; try reflexivity;
    rewrite (Pos.compare_cont_antisym mx my Eq); simpl;
    try rewrite CompOpp_involutive; reflexivity.
Qed.

Lemma number_lt_asym (x y : number) :
  number_lt x y = true -> number_lt y x = false.
Proof.
  unfold number_lt, SFltb. destruct (SFcompare x y) as [c|] eqn:E; [|discriminate].
  rewrite (SFcompare_antisym _ _ E). destruct c; simpl; congruence.
Qed.

Lemma number_lt_not_NaN (x y : number) : number_lt x y = true -> isNaN x = false.
Proof. destruct x; simpl; try reflexivity. discriminate. Qed.

(** Below the initial value of [max], a number leaves it unchanged. *)
Lemma Math_max_MIN_VALUE (y : number) :
  number_lt y MIN_VALUE = true -> Math_max MIN_VALUE y = MIN_VALUE.
Proof.
  intro Lt. unfold Math_max.
  rewrite (number_lt_asym _ _ Lt).
  assert (N : isNaN y = false) by (eapply number_lt_not_NaN; eassumption).
  rewrite N. reflexivity.
Qed.

Lemma same_key_refl (x : number) : same_key x x = true.
Proof.
  destruct x as [s|s| |s m e]; simpl; try reflexivity.
  - destruct s; reflexivity.
  - unfold number_eq, SFeqb; simpl.
    destruct s; rewrite Z.compare_refl, Pos.compare_cont_refl; reflexivity.
Qed.

(* ================================================================== *)
(** ** Facts about the protocol                                        *)
(* ================================================================== *)

Section IteratorFacts.
Context {I : Type} `{Iterator I}.

Lemma produces_length (it it' : I) (l : list value) :
  produces it l it' -> (length l <= pending it)%nat.
Proof.
  induction 1 as [|it v it1 l it' Hn Hp _ IH]; simpl; lia.
Qed.

Lemma produces_deterministic (it it1 it2 : I) (l1 l2 : list value) :
  produces it l1 it1 -> produces it l2 it2 -> l1 = l2 /\ it1 = it2.
Proof.
  intro P. revert l2 it2.
  induction P as [it it' Hn|it v it1' l it' Hn Hp _ IH]; intros l2 it2 P2.
  - inversion P2 as [a b Hn2|a w b l' c Hn2 Hp2 P2']; subst.
    + split; congruence.
    + congruence.
  - inversion P2 as [a b Hn2|a w b l' c Hn2 Hp2 P2']; subst.
    + congruence.
    + assert (E : it1' = b) by congruence. subst b.
      destruct (IH _ _ P2') as [-> ->]. split; congruence.
Qed.

(** A [for ... of] loop over an iterator that delivers [l] is the loop over
    the list [l]; when the body never leaves the loop, the iterator is
    left exhausted. *)
Lemma for_of_loop_produces {A R : Type} (body : A -> value -> Completion A R)
    (it it' : I) (l : list value) :
  produces it l it' ->
  forall (fuel : nat) (acc : A), (length l < fuel)%nat ->
  exists it_end,
    for_of_loop body fuel it acc = (run_loop body l acc, it_end) /\
    (forall a, run_loop body l acc = Continue a -> it_end = it').
Proof.
  induction 1 as [it it' Hn|it v it1 l it' Hn Hp _ IH]; intros fuel acc Hf;
    (destruct fuel as [|fuel]; [simpl in Hf; lia|]); simpl; rewrite Hn.
  - exists it'. split; [reflexivity|]. intros; reflexivity.
  - destruct (body acc v) as [acc'|r] eqn:Eb.
    + apply IH. simpl in Hf. lia.
    + exists (return_ it1). split; [reflexivity|]. intros; discriminate.
Qed.

End IteratorFacts.

Section IterableFacts.
Context {C I : Type} `{Iterator I} `{Iterable C I}.

Lemma for_of_Elements {A R : Type} (body : A -> value -> Completion A R)
    (source : C) (l : list value) (acc : A) :
  Elements source l -> fst (for_of source body acc) = run_loop body l acc.
Proof.
  intros [[it' P] _]. unfold for_of.
  destruct (for_of_loop_produces body P (fuel := S (pending (iterator source))) acc)
    as [it_end [E _]].
  - pose proof (produces_length P). lia.
  - rewrite E. reflexivity.
Qed.

Lemma for_of_exhausts {A R : Type} (body : A -> value -> Completion A R)
    (source : C) (l : list value) (it' : I) (acc a : A) :
  produces (iterator source) l it' ->
  run_loop body l acc = Continue a ->
  for_of source body acc = (Continue a, writeback source it').
Proof.
  intros P E. unfold for_of.
  destruct (for_of_loop_produces body P (fuel := S (pending (iterator source))) acc)
    as [it_end [E1 E2]].
  - pose proof (produces_length P). lia.
  - rewrite E1, E. rewrite (E2 a E). reflexivity.
Qed.

Lemma Elements_deterministic (source : C) (l1 l2 : list value) :
  Elements source l1 -> Elements source l2 -> l1 = l2.
Proof.
  intros [[i1 P1] _] [[i2 P2] _].
  exact (proj1 (produces_deterministic P1 P2)).
Qed.

(** The wrapper is traversed as the sequence it wraps. *)
Lemma Elements_L (source : C) (l : list value) :
  Elements source l -> Elements (L source) l.
Proof.
  intros [P _]. split; [exact P|]. intros a E. discriminate.
Qed.

End IterableFacts.

(** An array delivers its elements from the first to the last. *)
Lemma array_produces (a : list value) (i : nat) :
  (i <= length a)%nat ->
  produces (mkArrayIterator a i) (skipn i a) (mkArrayIterator a (length a)).
Proof.
  intro Hi. remember (length a - i)%nat as n eqn:En.
  revert i Hi En. induction n as [|n IH]; intros i Hi En.
  - assert (i = length a) by lia. subst i.
    rewrite skipn_all. apply produces_done. simpl. unfold array_next. simpl.
    assert (E : nth_error a (length a) = None) by (apply nth_error_None; lia).
    rewrite E. reflexivity.
  - destruct (nth_error a i) as [v|] eqn:Ev.
    + assert (Es : skipn i a = v :: skipn (S i) a).
      { clear - Ev. revert i Ev. induction a as [|x a IH]; intros [|i] Ev;
          simpl in *; try discriminate.
        - congruence.
        - apply IH. exact Ev. }
      rewrite Es. apply produces_item with (it1 := mkArrayIterator a (S i)).
      * simpl. unfold array_next. simpl. rewrite Ev. reflexivity.
      * simpl. lia.
      * apply IH; lia.
    + apply nth_error_None in Ev. lia.
Qed.

Lemma Elements_array (a : list value) : Elements a a.
Proof.
  split.
  - exists (mkArrayIterator a (length a)). apply (array_produces a (i := 0)). lia.
  - simpl. intros b E. congruence.
Qed.

(** *** Generator objects *)

Section GeneratorFacts.
Context {C I L : Type} `{Iterator I} `{Iterable C I}.
Local Abbreviation Gen := (Generator C I L).

Lemma gen_return_completed (g : Gen) : gstate (gen_return g) = completed.
Proof.
  unfold gen_return. destruct (gstate g), (upstream g); reflexivity.
Qed.

Lemma completed_next (g : Gen) : gstate g = completed -> next g = (Finished, g).
Proof. intro E. simpl. unfold gen_next. rewrite E. reflexivity. Qed.

Lemma completed_produces (g : Gen) : gstate g = completed -> produces g [] g.
Proof. intro E. apply produces_done. apply completed_next. exact E. Qed.

Lemma loop_answer_produces (g g_end : Gen) (out : list value) :
  loop_answer (next g) out g_end (pending g) -> produces g out g_end.
Proof.
  destruct out as [|v rest]; simpl.
  - intro E. apply produces_done. exact E.
  - intros [g1 [E [B P]]]. eapply produces_item; eassumption.
Qed.

Lemma loop_answer_bound (r : IteratorResult * Gen) (out : list value) (g_end : Gen)
    (b1 b2 : nat) :
  (b1 <= b2)%nat -> loop_answer r out g_end b1 -> loop_answer r out g_end b2.
Proof.
  destruct out as [|v rest]; simpl; [tauto|].
  intros Le [g1 [E [B P]]]. exists g1. repeat split; try assumption. lia.
Qed.

(** The loop of a generator whose source still delivers [l]. *)
Lemma gen_loop_produces (it it_end : I) (l : list value) :
  produces it l it_end ->
  forall (fuel : nat) (g : Gen) (s : L), (length l < fuel)%nat ->
  exists g_end,
    gstate g_end = completed /\
    pulled g_end = (pulled g + pulls (code g) l s)%nat /\
    loop_answer (gen_loop fuel g it s) (outputs (code g) l s) g_end (pending it).
Proof.
  induction 1 as [it it' Hn|it item it1 l it' Hn Hp P IH]; intros fuel g s Hf;
    (destruct fuel as [|fuel]; [simpl in Hf; lia|]); simpl; rewrite Hn.
  - exists (finish g it' s). simpl. repeat split. lia.
  - destruct (on_item (code g) s item) as [v s'|s'|s'] eqn:Eo.
    + set (g1 := suspend (pull g) it1 s').
      destruct (IH (S (pending it1)) g1 (resume (code g) s')) as [g_end [Ec [Ep La]]].
      { pose proof (produces_length P). lia. }
      exists g_end. split; [exact Ec|]. split; [rewrite Ep; simpl; lia|].
      simpl. exists g1. split; [reflexivity|]. split; [simpl; exact Hp|].
      apply loop_answer_produces. exact La.
    + destruct (IH fuel (pull g) s') as [g_end [Ec [Ep La]]].
      { simpl in Hf. lia. }
      exists g_end. split; [exact Ec|]. split; [rewrite Ep; simpl; lia|].
      eapply loop_answer_bound; [|exact La]. lia.
    + exists (finish (pull g) (return_ it1) s'). simpl. repeat split. lia.
Qed.

(** A generator created over a finite sequence is a finite sequence: it
    yields [outputs], completes, and has then received [pulls] items. *)
Lemma generator_produces (source : C) (b : LoopBody L) (init : L) (l : list value) :
  Elements source l ->
  exists g_end,
    produces (generator source b init) (outputs b l init) g_end /\
    gstate g_end = completed /\
    pulled g_end = pulls b l init.
Proof.
  intros [[it' P] _].
  destruct (gen_loop_produces P (fuel := S (pending (iterator source)))
              (generator source b init) init) as [g_end [Ec [Ep La]]].
  { pose proof (produces_length P). lia. }
  exists g_end. split; [|split; [exact Ec|exact Ep]].
  apply loop_answer_produces. exact La.
Qed.

Lemma Elements_generator (source : C) (b : LoopBody L) (init : L) (l : list value) :
  Elements source l -> Elements (generator source b init) (outputs b l init).
Proof.
  intro E. destruct (generator_produces b init E) as [g_end [P _]].
  split; [exists g_end; exact P|]. intros a Ea. discriminate.
Qed.

(** Whatever its body does, a [for ... of] loop over a generator leaves it
    completed: by exhausting it, or by closing it on the way out. *)
Lemma for_of_loop_completes {A R : Type} (body : A -> value -> Completion A R)
    (g g_end : Gen) (l : list value) :
  produces g l g_end -> gstate g_end = completed ->
  forall (fuel : nat) (acc : A), (length l < fuel)%nat ->
  gstate (snd (for_of_loop body fuel g acc)) = completed.
Proof.
  induction 1 as [g g' Hn|g v g1 l g' Hn Hp _ IH]; intros Ec fuel acc Hf;
    (destruct fuel as [|fuel]; [simpl in Hf; lia|]);
    cbn [for_of_loop]; rewrite Hn.
  - exact Ec.
  - destruct (body acc v) as [acc'|r].
    + apply IH; [exact Ec|]. simpl in Hf. lia.
    + apply gen_return_completed.
Qed.

End GeneratorFacts.

(* ================================================================== *)
(** ** toArray and the transformations                                 *)
(* ================================================================== *)

Lemma run_loop_push (l acc : list value) :
  run_loop (R := Empty_set) (fun array item => Continue (array ++ [item])) l acc
  = Continue (acc ++ l).
Proof.
  revert acc. induction l as [|x l IH]; intro acc; simpl.
  - rewrite app_nil_r. reflexivity.
  - rewrite IH, <- app_assoc. reflexivity.
Qed.

Section ToArray.
Context {C I : Type} `{Iterator I} `{Iterable C I}.

(** [toArray] gives the values of the sequence, in order. *)
Lemma toArray_Elements (source : C) (l : list value) :
  Elements source l -> fst (toArray source) = l.
Proof.
  intro E. unfold toArray.
  pose proof (for_of_Elements (R := Empty_set)
                (fun array item => Continue (array ++ [item])) [] E) as F.
  rewrite run_loop_push in F. simpl in F.
  destruct (for_of _ _ _) as [r source']. simpl in *. subst r. reflexivity.
Qed.

Lemma toArray_exhausts (source : C) (l : list value) (it' : I) :
  produces (iterator source) l it' ->
  toArray source = (l, writeback source it').
Proof.
  intro P. unfold toArray.
  rewrite (for_of_exhausts (R := Empty_set) _ source [] P (run_loop_push l [])).
  reflexivity.
Qed.

End ToArray.

(** A generator object traversed to its end is left in its final state. *)
Lemma toArray_generator {C I L : Type} `{Iterator I} `{Iterable C I}
    (g g_end : Generator C I L) (l : list value) :
  produces g l g_end -> toArray g = (l, g_end).
Proof.
  intro P. change g with (iterator g) in P.
  rewrite (toArray_exhausts g P). reflexivity.
Qed.

Lemma outputs_where (p : IndexedPredicate) (l : list value) (i : Z) (c : nat) :
  outputs (where_body p) l (mkCounter i c) = filter_indexed p l i.
Proof.
  revert i c. induction l as [|x l IH]; intros i c; simpl; [reflexivity|].
  destruct (p x i); simpl; [f_equal|]; apply IH.
Qed.

Lemma outputs_take (n : Z) (l : list value) (i : Z) :
  outputs (take_body n) l i = firstn (Z.to_nat (n - i)) l.
Proof.
  revert i. induction l as [|x l IH]; intro i; simpl.
  - rewrite firstn_nil. reflexivity.
  - destruct (i <? n) eqn:E.
    + apply Z.ltb_lt in E.
      replace (Z.to_nat (n - i)) with (S (Z.to_nat (n - (i + 1)))) by lia.
      simpl. f_equal. apply IH.
    + apply Z.ltb_ge in E.
      replace (Z.to_nat (n - i)) with O by lia. reflexivity.
Qed.

Lemma outputs_skip (n : Z) (l : list value) (i : Z) :
  outputs (skip_body n) l i = skipn (Z.to_nat (n - i)) l.
Proof.
  revert i. induction l as [|x l IH]; intro i; simpl.
  - rewrite skipn_nil. reflexivity.
  - destruct (i >=? n) eqn:E.
    + apply Z.geb_le in E.
      replace (Z.to_nat (n - i)) with O by lia. simpl. f_equal.
      rewrite IH. replace (Z.to_nat (n - (i + 1))) with O by lia. reflexivity.
    + assert (i < n) by (rewrite Z.geb_leb in E; apply Z.leb_gt in E; lia).
      replace (Z.to_nat (n - i)) with (S (Z.to_nat (n - (i + 1)))) by lia.
      simpl. apply IH.
Qed.

(** [take] receives one item more than it yields, unless the source ends
    first. *)
Lemma pulls_take (n : Z) (l : list value) (i : Z) :
  pulls (take_body n) l i = Nat.min (S (Z.to_nat (n - i))) (length l).
Proof.
  revert i. induction l as [|x l IH]; intro i; simpl; [reflexivity|].
  f_equal. destruct (i <? n) eqn:E.
  - apply Z.ltb_lt in E. rewrite IH.
    replace (Z.to_nat (n - i)) with (S (Z.to_nat (n - (i + 1)))) by lia.
    reflexivity.
  - apply Z.ltb_ge in E.
    replace (Z.to_nat (n - i)) with O by lia. reflexivity.
Qed.

Section Stages.
Context {C I : Type} `{Iterator I} `{Iterable C I}.

Lemma Elements_where (source : C) (p : IndexedPredicate) (l : list value) :
  Elements source l -> Elements (where_ source p) (filter_indexed p l 0).
Proof.
  intro E. rewrite <- (outputs_where p l 0 0).
  apply (Elements_generator (where_body p) (mkCounter 0 0) E).
Qed.

Lemma Elements_take (source : C) (n : Z) (l : list value) :
  Elements source l -> Elements (take source n) (firstn (Z.to_nat n) l).
Proof.
  intro E. replace (Z.to_nat n) with (Z.to_nat (n - 0)) by (f_equal; lia).
  rewrite <- outputs_take. apply (Elements_generator (take_body n) 0 E).
Qed.

Lemma Elements_skip (source : C) (n : Z) (l : list value) :
  Elements source l -> Elements (skip source n) (skipn (Z.to_nat n) l).
Proof.
  intro E. replace (Z.to_nat n) with (Z.to_nat (n - 0)) by (f_equal; lia).
  rewrite <- outputs_skip. apply (Elements_generator (skip_body n) 0 E).
Qed.

(** A full traversal of [take(source, n)] has pulled [n + 1] items from the
    source, or all of them when the source has no more than [n]. *)
Lemma take_pulled (source : C) (n : Z) (l : list value) :
  Elements source l ->
  pulled (snd (toArray (take source n))) = Nat.min (S (Z.to_nat n)) (length l).
Proof.
  intro E. destruct (generator_produces (take_body n) 0 E) as [g_end [P [_ Ep]]].
  unfold take. rewrite (toArray_generator P). simpl.
  rewrite Ep, pulls_take, Z.sub_0_r. reflexivity.
Qed.

End Stages.

(* ================================================================== *)
(** ** Traversing a stage more than once                               *)
(* ================================================================== *)

Section Retraversal.
Context {C I L : Type} `{Iterator I} `{Iterable C I}.

(** A completed generator yields nothing when it is traversed again. *)
Lemma toArray_completed (g : Generator C I L) :
  gstate g = completed -> toArray g = ([], g).
Proof. intro E. apply toArray_generator. apply completed_produces. exact E. Qed.

(** After one full traversal a generator over a finite sequence is
    completed. *)
Lemma toArray_completes (source : C) (b : LoopBody L) (init : L) (l : list value) :
  Elements source l ->
  gstate (snd (toArray (generator source b init))) = completed.
Proof.
  intro E. destruct (generator_produces b init E) as [g_end [P [Ec _]]].
  rewrite (toArray_generator P). exact Ec.
Qed.

(** So it is after a traversal that was abandoned. *)
Lemma abandon_completes (source : C) (b : LoopBody L) (init : L) (l : list value)
    (k : nat) :
  Elements source l ->
  gstate (abandon (generator source b init) k) = completed.
Proof.
  intro E. destruct (generator_produces b init E) as [g_end [P [Ec _]]].
  unfold abandon, for_of.
  set (g := generator source b init) in *.
  set (body := fun (k : nat) (_ : value) =>
                 match k with O => Exit tt | S k' => Continue k' end).
  change (iterator g) with g.
  pose proof (for_of_loop_completes body P Ec (fuel := S (pending g)) k) as F.
  destruct (for_of_loop body (S (pending g)) g k) as [r g'] eqn:Er.
  simpl in *. apply F. pose proof (produces_length P). simpl in *. lia.
Qed.

End Retraversal.

(** Traversing the wrapper is traversing the sequence it wraps. *)
Lemma toArray_L {C I : Type} `{Iterator I} `{Iterable C I} (s : C) :
  toArray (L s) = (fst (toArray s), L (snd (toArray s))).
Proof.
  unfold toArray, for_of. cbn [iterator writeback LinqWrapper_Iterable iterable L].
  destruct (for_of_loop _ (S (pending (iterator s))) (iterator s) [])
    as [r it'].
  reflexivity.
Qed.

(** C1, as amended.  A [where(source, predicate)] stage is a single-use
    generator object: for every finite source and every predicate, the
    first traversal of a newly built stage yields the elements that satisfy
    the predicate, in the order of the source; a second traversal of the
    same stage yields no element, be it after a full traversal or after a
    partial traversal abandoned by [break], and be the stage traversed
    directly or through the wrapper [L(stage)]. *)
Theorem where_stage_is_single_use {C I : Type} `{Iterator I} `{Iterable C I}
    (source : C) (l : list value) (predicate : IndexedPredicate) :
  Elements source l ->
  let stage := where_ source predicate in
  fst (toArray stage) = filter_indexed predicate l 0 /\
  fst (toArray (snd (toArray stage))) = [] /\
  (forall k : nat, fst (toArray (abandon stage k)) = []) /\
  fst (toArray (L stage)) = filter_indexed predicate l 0 /\
  fst (toArray (snd (toArray (L stage)))) = [].
Proof.
  intros E stage.
  assert (T1 : fst (toArray stage) = filter_indexed predicate l 0).
  { apply toArray_Elements. apply Elements_where. exact E. }
  assert (T2 : fst (toArray (snd (toArray stage))) = []).
  { unfold stage, where_.
    rewrite (toArray_completed _ (toArray_completes _ _ E)). reflexivity. }
  split; [exact T1|]. split; [exact T2|]. split; [|split].
  - intro k. unfold stage, where_.
    rewrite (toArray_completed _ (abandon_completes _ _ k E)). reflexivity.
  - rewrite toArray_L. exact T1.
  - rewrite (toArray_L stage). cbn [snd]. rewrite toArray_L. exact T2.
Qed.

Lemma where_stage_is_single_use_witness :
  let stage := where_ [int 1; int 2; int 3] (fun _ i => Z.even i) in
  fst (toArray stage) = [int 1; int 3] /\
  fst (toArray (snd (toArray stage))) = [] /\
  (forall k : nat, fst (toArray (abandon stage k)) = []) /\
  fst (toArray (L stage)) = [int 1; int 3] /\
  fst (toArray (snd (toArray (L stage)))) = [].
Proof.
  exact (where_stage_is_single_use (fun _ i => Z.even i)
           (Elements_array [int 1; int 2; int 3])).
Defined.

(** C1 as stated fails: the stage built once over [[1, 2, 3]] with a
    predicate that holds of every element yields [[1, 2, 3]] when it is
    first traversed and nothing when it is traversed again. *)
Lemma where_retraversal_counterexample :
  let stage := where_ [int 1; int 2; int 3] (fun _ _ => true) in
  fst (toArray stage) = [int 1; int 2; int 3] /\
  fst (toArray (snd (toArray stage))) = [] /\
  fst (toArray (snd (toArray stage))) <> fst (toArray stage).
Proof.
  vm_compute. repeat split. discriminate.
Qed.

(* ================================================================== *)
(** ** Laziness                                                        *)
(* ================================================================== *)

(** C3, on the code.  Building [select(source, f)] or [where(source, p)]
    runs nothing: the new generator has not started, has asked its source
    for no iterator, has received no item and has called [f] or [p] zero
    times.  But a traversal of [take(source, n)] pulls one item beyond the
    [n]th whenever the source has one: for every finite source and every
    [n >= 0] it yields the first [n] elements and has pulled
    [min (n + 1) |source|] items.  So [take([1, 2, 3], 0)] yields nothing
    and has pulled one item from the array, whose iterator is left at
    index 1.  (The calls are counted: traversing [select([1, 2, 3], f)]
    calls [f] three times.) *)
Theorem construction_is_lazy_and_take_pulls_one_more :
  (forall (C I : Type) (IC : Iterable C I) (source : C) (f : IndexedSelector value),
     let g := select source f in
     gstate g = suspendedStart /\ upstream g = Captured source /\
     pulled g = O /\ calls (locals g) = O) /\
  (forall (C I : Type) (IC : Iterable C I) (source : C) (p : IndexedPredicate),
     let g := where_ source p in
     gstate g = suspendedStart /\ upstream g = Captured source /\
     pulled g = O /\ calls (locals g) = O) /\
  (forall (C I : Type) (II : Iterator I) (IC : Iterable C I)
          (source : C) (l : list value) (n : Z),
     Elements source l -> 0 <= n ->
     let traversed := toArray (take source n) in
     fst traversed = firstn (Z.to_nat n) l /\
     pulled (snd traversed) = Nat.min (S (Z.to_nat n)) (length l)) /\
  (let source := [int 1; int 2; int 3] in
   let traversed := toArray (take source 0) in
   fst traversed = [] /\
   pulled (snd traversed) = 1%nat /\
   upstream (snd traversed) = Obtained (mkArrayIterator source 1)) /\
  (let traversed := toArray (select [int 1; int 2; int 3] (fun v _ => v)) in
   fst traversed = [int 1; int 2; int 3] /\
   calls (locals (snd traversed)) = 3%nat).
Proof.
  split; [|split; [|split; [|split]]].
  - intros. repeat split.
  - intros. repeat split.
  - intros C I II IC source l n E _ traversed. split.
    + apply toArray_Elements. apply Elements_take. exact E.
    + apply take_pulled. exact E.
  - vm_compute. repeat split.
  - vm_compute. repeat split.
Qed.

Lemma construction_is_lazy_and_take_pulls_one_more_witness :
  let traversed := toArray (take [int 1; int 2; int 3] 2) in
  fst traversed = [int 1; int 2] /\ pulled (snd traversed) = 3%nat.
Proof.
  destruct construction_is_lazy_and_take_pulls_one_more as [_ [_ [Take _]]].
  apply (Take _ _ _ _ _ _ 2 (Elements_array [int 1; int 2; int 3])). lia.
Defined.

(* ================================================================== *)
(** ** take and skip                                                   *)
(* ================================================================== *)

(** C9.  For every array [A] and every integer [n] with [0 <= n <= |A|],
    [toArray(take(A, n)).concat(toArray(skip(A, n)))] is [A], element by
    element and in the same order. *)
Theorem take_skip_complement (A : list value) (n : Z) :
  0 <= n <= Z.of_nat (length A) ->
  fst (toArray (take A n)) ++ fst (toArray (skip A n)) = A.
Proof.
  intros _.
  rewrite (toArray_Elements (Elements_take n (Elements_array A))).
  rewrite (toArray_Elements (Elements_skip n (Elements_array A))).
  apply firstn_skipn.
Qed.

Lemma take_skip_complement_witness :
  fst (toArray (take [int 1; int 2; int 3] 2))
    ++ fst (toArray (skip [int 1; int 2; int 3] 2))
  = [int 1; int 2; int 3].
Proof.
  apply (@take_skip_complement [int 1; int 2; int 3] 2). simpl. lia.
Defined.

(* ================================================================== *)
(** ** elementAt                                                       *)
(* ================================================================== *)

(** In a terminal operation, name the outcome of the loop and replace it
    by the loop over the list of the source's values. *)
Ltac loop_over E :=
  match goal with
  | |- context [for_of ?s ?b ?a] =>
      let F := fresh "F" in
      let r := fresh "r" in
      let s' := fresh "s'" in
      pose proof (for_of_Elements b a E) as F;
      destruct (for_of s b a) as [r s']; simpl in F; simpl; subst r
  end.

Lemma run_loop_elementAt (index : Z) (l : list value) (currentIndex : Z) :
  run_loop
    (fun currentIndex item =>
       if currentIndex =? index then Exit item else Continue (currentIndex + 1))
    l currentIndex
  = if (currentIndex <=? index) && (index <? currentIndex + Z.of_nat (length l))
    then Exit (nth (Z.to_nat (index - currentIndex)) l undefined)
    else Continue (currentIndex + Z.of_nat (length l)).
Proof.
  revert currentIndex. induction l as [|x l IH]; intro c; cbn [run_loop length].
  - destruct ((c <=? index) && (index <? c + Z.of_nat 0)) eqn:B.
    + apply andb_true_iff in B. destruct B as [B1 B2].
      apply Z.leb_le in B1. apply Z.ltb_lt in B2. lia.
    + f_equal. lia.
  - destruct (Z.eqb_spec c index) as [->|Ne].
    + replace (index - index) with 0 by lia. cbn [Z.to_nat nth].
      destruct ((index <=? index) && (index <? index + Z.of_nat (S (length l)))) eqn:B;
        [reflexivity|].
      apply andb_false_iff in B. destruct B as [B|B];
        [apply Z.leb_gt in B|apply Z.ltb_ge in B]; lia.
    + rewrite IH.
      destruct ((c + 1 <=? index) && (index <? c + 1 + Z.of_nat (length l))) eqn:B1;
        destruct ((c <=? index) && (index <? c + Z.of_nat (S (length l)))) eqn:B2.
      * replace (Z.to_nat (index - c)) with (S (Z.to_nat (index - (c + 1)))).
        -- reflexivity.
        -- apply andb_true_iff in B1. destruct B1 as [B1 _]. apply Z.leb_le in B1. lia.
      * apply andb_true_iff in B1. destruct B1 as [B11 B12].
        apply Z.leb_le in B11. apply Z.ltb_lt in B12.
        apply andb_false_iff in B2. destruct B2 as [B2|B2];
          [apply Z.leb_gt in B2|apply Z.ltb_ge in B2]; lia.
      * apply andb_true_iff in B2. destruct B2 as [B21 B22].
        apply Z.leb_le in B21. apply Z.ltb_lt in B22.
        apply andb_false_iff in B1. destruct B1 as [B1|B1];
          [apply Z.leb_gt in B1|apply Z.ltb_ge in B1]; lia.
      * f_equal. lia.
Qed.

Section ElementAt.
Context {C I : Type} `{Iterator I} `{Iterable C I}.

Lemma elementAtOrUndefined_Elements (source : C) (l : list value) (index : Z) :
  Elements source l ->
  fst (elementAtOrUndefined source index)
  = if (0 <=? index) && (index <? Z.of_nat (length l))
    then nth (Z.to_nat index) l undefined else undefined.
Proof.
  intro E. unfold elementAtOrUndefined. loop_over E.
  rewrite run_loop_elementAt, Z.sub_0_r. simpl.
  destruct ((0 <=? index) && (index <? Z.of_nat (length l))); reflexivity.
Qed.

Lemma elementAt_Elements (source : C) (l : list value) (index : Z) :
  Elements source l ->
  fst (elementAt source index)
  = let element := fst (elementAtOrUndefined source index) in
    if negb (truthy element) then Throws elementNotExisted else Returns element.
Proof.
  intros _. unfold elementAt.
  destruct (elementAtOrUndefined source index) as [element s']. reflexivity.
Qed.

(** C4, as amended.  For every finite sequence [A] with values [l] and
    every integer [i]: when [i] is negative or [i >= |A|], [elementAt(A, i)]
    throws "element not existed" and [elementAtOrUndefined(A, i)] returns
    [undefined] instead; when [0 <= i < |A|], [elementAtOrUndefined]
    returns the element at index [i], and [elementAt] returns it when it is
    truthy and throws "element not existed" when it is [undefined]. *)
Theorem elementAt_spec (A : C) (l : list value) (i : Z) :
  Elements A l ->
  (i < 0 \/ Z.of_nat (length l) <= i ->
     fst (elementAt A i) = Throws elementNotExisted /\
     fst (elementAtOrUndefined A i) = undefined) /\
  (0 <= i < Z.of_nat (length l) ->
     let x := nth (Z.to_nat i) l undefined in
     fst (elementAtOrUndefined A i) = x /\
     (truthy x = true -> fst (elementAt A i) = Returns x) /\
     (x = undefined -> fst (elementAt A i) = Throws elementNotExisted)).
Proof.
  intro E.
  pose proof (elementAtOrUndefined_Elements i E) as EO.
  pose proof (elementAt_Elements i E) as EA. simpl in EA.
  split.
  - intro Out.
    assert (R : (0 <=? i) && (i <? Z.of_nat (length l)) = false).
    { destruct (Z.leb_spec 0 i), (Z.ltb_spec i (Z.of_nat (length l)));
        simpl; try reflexivity; lia. }
    rewrite R in EO. rewrite EA, EO. split; reflexivity.
  - intros In x.
    assert (R : (0 <=? i) && (i <? Z.of_nat (length l)) = true).
    { destruct (Z.leb_spec 0 i), (Z.ltb_spec i (Z.of_nat (length l)));
        simpl; try reflexivity; lia. }
    rewrite R in EO. fold x in EO. rewrite EA, EO.
    split; [reflexivity|split].
    + intro T. rewrite T. reflexivity.
    + intro U. rewrite U. reflexivity.
Qed.

End ElementAt.

Lemma elementAt_spec_witness :
  (fst (elementAt [int 5; int 6; int 7] 3) = Throws elementNotExisted /\
   fst (elementAtOrUndefined [int 5; int 6; int 7] 3) = undefined) /\
  (fst (elementAtOrUndefined [int 5; int 6; int 7] 1) = int 6 /\
   fst (elementAt [int 5; int 6; int 7] 1) = Returns (int 6)).
Proof.
  pose proof (Elements_array [int 5; int 6; int 7]) as E.
  destruct (elementAt_spec 3 E) as [Out _].
  destruct (elementAt_spec 1 E) as [_ In].
  split.
  - apply Out. right. simpl. lia.
  - destruct In as [EO [T _]]; [simpl; lia|].
    split; [exact EO|]. apply T. reflexivity.
Defined.

(** C4 as stated fails: index 0 is within [[0]], yet [elementAt([0], 0)]
    throws instead of returning the element [0], which is falsy; and it
    throws on [[undefined]] at index 0 as on an index out of range. *)
Lemma elementAt_counterexample :
  0 <= 0 < Z.of_nat (length [int 0]) /\
  nth (Z.to_nat 0) [int 0] undefined = int 0 /\
  fst (elementAt [int 0] 0) = Throws elementNotExisted /\
  fst (elementAt [int 0] 0) <> Returns (int 0) /\
  fst (elementAt [undefined] 0) = fst (elementAt [undefined] 1).
Proof.
  vm_compute. repeat split; discriminate.
Qed.

(* ================================================================== *)
(** ** first and last                                                  *)
(* ================================================================== *)

Lemma find_app_value (p : value -> bool) (l1 l2 : list value) :
  find p (l1 ++ l2)
  = match find p l1 with Some x => Some x | None => find p l2 end.
Proof.
  induction l1 as [|x l1 IH]; simpl; [reflexivity|].
  destruct (p x); [reflexivity|exact IH].
Qed.

Lemma firstn_snoc_nth (l : list value) (i : nat) (d : value) :
  (i < length l)%nat -> firstn (S i) l = firstn i l ++ [nth i l d].
Proof.
  revert i. induction l as [|x l IH]; intros i Hi; simpl in Hi; [lia|].
  destruct i as [|i]; [reflexivity|].
  cbn [firstn nth app]. f_equal. apply IH. lia.
Qed.

Lemma run_loop_first (p : Predicate) (l : list value) :
  run_loop (fun (_ : unit) item => if p item then Exit item else Continue tt) l tt
  = match find p l with Some x => Exit x | None => Continue tt end.
Proof.
  induction l as [|x l IH]; simpl; [reflexivity|].
  destruct (p x); [reflexivity|exact IH].
Qed.

Lemma run_loop_last (p : Predicate) (l : list value) (last : value) :
  run_loop (R := Empty_set)
    (fun last item => if p item then Continue item else Continue last) l last
  = Continue (match find p (rev l) with Some x => x | None => last end).
Proof.
  revert last. induction l as [|x l IH]; intro last; simpl; [reflexivity|].
  rewrite find_app_value. simpl.
  destruct (p x); rewrite IH; destruct (find p (rev l)); reflexivity.
Qed.

Lemma lastOrUndefinedForArray_from_find (source : list value) (p : Predicate) (n : nat) :
  (n <= length source)%nat ->
  lastOrUndefinedForArray_from source p n
  = match find p (rev (firstn n source)) with Some x => x | None => undefined end.
Proof.
  induction n as [|i IH]; intro Hn; [reflexivity|].
  cbn [lastOrUndefinedForArray_from].
  rewrite (firstn_snoc_nth source undefined) by lia.
  rewrite rev_app_distr. simpl.
  destruct (p (nth i source undefined)); [reflexivity|].
  apply IH. lia.
Qed.

Section FirstLast.
Context {C I : Type} `{Iterator I} `{Iterable C I}.

Lemma firstOrUndefined_Elements (source : C) (l : list value) (p : Predicate) :
  Elements source l ->
  fst (firstOrUndefined source p)
  = match find p l with Some x => x | None => undefined end.
Proof.
  intro E. unfold firstOrUndefined. loop_over E.
  rewrite run_loop_first. destruct (find p l); reflexivity.
Qed.

Lemma first_firstOrUndefined (source : C) (p : Predicate) :
  fst (first source p)
  = let result := fst (firstOrUndefined source p) in
    if strict_eq result undefined then Throws emptySequence else Returns result.
Proof.
  unfold first. destruct (firstOrUndefined source p) as [result s']. reflexivity.
Qed.

Lemma lastOrUndefined_Elements (source : C) (l : list value) (p : Predicate) :
  Elements source l ->
  fst (lastOrUndefined source p)
  = match find p (rev l) with Some x => x | None => undefined end.
Proof.
  intro E. unfold lastOrUndefined.
  destruct (asArray source) as [a|] eqn:Ea.
  - destruct E as [_ Earr]. rewrite (Earr a Ea). simpl.
    unfold lastOrUndefinedForArray.
    rewrite lastOrUndefinedForArray_from_find by lia.
    rewrite firstn_all. reflexivity.
  - loop_over E. rewrite run_loop_last. reflexivity.
Qed.

Lemma last_lastOrUndefined (source : C) (p : Predicate) :
  fst (last source p)
  = let result := fst (lastOrUndefined source p) in
    if strict_eq result undefined then Throws emptySequence else Returns result.
Proof.
  unfold last. destruct (lastOrUndefined source p) as [result s']. reflexivity.
Qed.

(** C5, as amended.  For every finite source and predicate such that no
    element satisfying the predicate is [undefined]: [first] returns the
    first element that satisfies the predicate when there is one and
    throws "empty sequence" exactly when there is none; [firstOrUndefined]
    returns that element, or [undefined] when there is none, and then
    [undefined] is returned only when no element qualifies; the same holds
    of [last] and [lastOrUndefined] with the last such element. *)
Theorem first_last_spec (source : C) (l : list value) (p : Predicate) :
  Elements source l ->
  (forall x, In x l -> p x = true -> x <> undefined) ->
  fst (first source p)
    = match find p l with Some x => Returns x | None => Throws emptySequence end /\
  fst (firstOrUndefined source p)
    = match find p l with Some x => x | None => undefined end /\
  (fst (firstOrUndefined source p) = undefined <-> find p l = None) /\
  fst (last source p)
    = match find p (rev l) with Some x => Returns x | None => Throws emptySequence end /\
  fst (lastOrUndefined source p)
    = match find p (rev l) with Some x => x | None => undefined end /\
  (fst (lastOrUndefined source p) = undefined <-> find p (rev l) = None).
Proof.
  intros E Valid.
  pose proof (firstOrUndefined_Elements p E) as F.
  pose proof (lastOrUndefined_Elements p E) as La.
  rewrite first_firstOrUndefined, last_lastOrUndefined. simpl.
  rewrite F, La.
  assert (V1 : forall x, find p l = Some x -> x <> undefined).
  { intros x Fx. apply find_some in Fx. destruct Fx. apply Valid; assumption. }
  assert (V2 : forall x, find p (rev l) = Some x -> x <> undefined).
  { intros x Fx. apply find_some in Fx. destruct Fx as [Fi Fp].
    apply Valid; [|assumption]. apply in_rev. exact Fi. }
  destruct (find p l) as [x|]; destruct (find p (rev l)) as [y|];
    try rewrite (strict_eq_not_undefined (V1 x eq_refl));
    try rewrite (strict_eq_not_undefined (V2 y eq_refl));
    simpl; repeat split; try reflexivity; try discriminate; intro U;
    try (exfalso; apply (V1 x eq_refl); exact U);
    try (exfalso; apply (V2 y eq_refl); exact U).
Qed.

End FirstLast.

Lemma first_last_spec_witness :
  let A := [int 1; int 2; int 3] in
  let p : Predicate := fun v => strict_eq v (int 2) || strict_eq v (int 3) in
  fst (first A p) = Returns (int 2) /\
  fst (firstOrUndefined A p) = int 2 /\
  (fst (firstOrUndefined A p) = undefined <-> find p A = None) /\
  fst (last A p) = Returns (int 3) /\
  fst (lastOrUndefined A p) = int 3 /\
  (fst (lastOrUndefined A p) = undefined <-> find p (rev A) = None).
Proof.
  intros A p.
  apply (first_last_spec p (Elements_array A)).
  intros x [<-|[<-|[<-|[]]]] _; discriminate.
Defined.

(** C5 as stated fails: in [[undefined]] an element satisfies the default
    predicate, yet [first] throws "empty sequence", and [firstOrUndefined]
    and [lastOrUndefined] answer as they do on the empty array. *)
Lemma first_counterexample :
  find defaultPredicate [undefined] = Some undefined /\
  fst (first [undefined] defaultPredicate) = Throws emptySequence /\
  fst (last [undefined] defaultPredicate) = Throws emptySequence /\
  fst (firstOrUndefined [undefined] defaultPredicate)
    = fst (firstOrUndefined [] defaultPredicate) /\
  fst (lastOrUndefined [undefined] defaultPredicate)
    = fst (lastOrUndefined [] defaultPredicate).
Proof.
  vm_compute. repeat split.
Qed.

(* ================================================================== *)
(** ** single                                                          *)
(* ================================================================== *)

Lemma existsb_filter_nil (p : value -> bool) (l : list value) :
  existsb p l = false <-> filter p l = [].
Proof.
  induction l as [|x l IH]; simpl; [tauto|].
  destruct (p x); simpl; [split; discriminate|exact IH].
Qed.

(** Once a match is held in [result], any further match throws. *)
Lemma run_loop_single_held (p : Predicate) (l : list value) (result : value) :
  result <> undefined ->
  run_loop
    (fun result item =>
       if p item then
         if negb (strict_eq result undefined) then Exit moreThanOneElement
         else Continue item
       else Continue result)
    l result
  = if existsb p l then Exit moreThanOneElement else Continue result.
Proof.
  intro N. induction l as [|x l IH]; simpl; [reflexivity|].
  destruct (p x); simpl.
  - rewrite (strict_eq_not_undefined N). reflexivity.
  - exact IH.
Qed.

Lemma run_loop_single (p : Predicate) (l : list value) :
  (forall x, In x l -> p x = true -> x <> undefined) ->
  run_loop
    (fun result item =>
       if p item then
         if negb (strict_eq result undefined) then Exit moreThanOneElement
         else Continue item
       else Continue result)
    l undefined
  = match filter p l with
    | [] => Continue undefined
    | [x] => Continue x
    | _ :: _ :: _ => Exit moreThanOneElement
    end.
Proof.
  induction l as [|x l IH]; intro Valid; [reflexivity|].
  cbn [run_loop filter]. destruct (p x) eqn:Px.
  - cbn [strict_eq undefined negb].
    rewrite run_loop_single_held by (apply Valid; [left; reflexivity|exact Px]).
    destruct (existsb p l) eqn:Ex.
    + destruct (filter p l) as [|y rest] eqn:Fl; [|reflexivity].
      apply existsb_filter_nil in Fl. congruence.
    + apply existsb_filter_nil in Ex. rewrite Ex. reflexivity.
  - apply IH. intros y Hy. apply Valid. right. exact Hy.
Qed.

Section Single.
Context {C I : Type} `{Iterator I} `{Iterable C I}.

Lemma singleOrUndefined_Elements (source : C) (l : list value) (p : Predicate) :
  Elements source l ->
  (forall x, In x l -> p x = true -> x <> undefined) ->
  fst (singleOrUndefined source p)
  = match filter p l with
    | [] => Returns undefined
    | [x] => Returns x
    | _ :: _ :: _ => Throws moreThanOneElement
    end.
Proof.
  intros E Valid. unfold singleOrUndefined. loop_over E.
  rewrite (run_loop_single p l Valid).
  destruct (filter p l) as [|x [|y rest]]; reflexivity.
Qed.

Lemma single_singleOrUndefined (source : C) (p : Predicate) :
  fst (single source p)
  = match fst (singleOrUndefined source p) with
    | Throws e => Throws e
    | Returns result =>
        if strict_eq result undefined then Throws noElementSatisfies
        else Returns result
    end.
Proof.
  unfold single. destruct (singleOrUndefined source p) as [[result|e] s']; reflexivity.
Qed.

(** C7, as amended.  For every finite source [A] and predicate [p] such
    that no element satisfying [p] is [undefined]: when exactly one element
    satisfies [p], [single] and [singleOrUndefined] return it; when none
    does, [single] throws "sequence contains no element that satisfies
    specified predicate" and [singleOrUndefined] returns [undefined]; when
    more than one does, both throw "sequence contains more than one element
    that satisfies specified predicate". *)
Theorem single_spec (A : C) (l : list value) (p : Predicate) :
  Elements A l ->
  (forall x, In x l -> p x = true -> x <> undefined) ->
  match filter p l with
  | [] =>
      fst (single A p) = Throws noElementSatisfies /\
      fst (singleOrUndefined A p) = Returns undefined
  | [x] =>
      fst (single A p) = Returns x /\
      fst (singleOrUndefined A p) = Returns x
  | _ :: _ :: _ =>
      fst (single A p) = Throws moreThanOneElement /\
      fst (singleOrUndefined A p) = Throws moreThanOneElement
  end.
Proof.
  intros E Valid.
  pose proof (singleOrUndefined_Elements p E Valid) as SU.
  rewrite single_singleOrUndefined, SU.
  destruct (filter p l) as [|x [|y rest]] eqn:Fl; split; try reflexivity.
  assert (Nx : x <> undefined).
  { assert (Hx : In x (filter p l)) by (rewrite Fl; left; reflexivity).
    apply filter_In in Hx. destruct Hx. apply Valid; assumption. }
  rewrite (strict_eq_not_undefined Nx). reflexivity.
Qed.

End Single.

Lemma single_spec_witness :
  (fst (single (@nil value) (fun _ => true)) = Throws noElementSatisfies /\
   fst (singleOrUndefined (@nil value) (fun _ => true)) = Returns undefined) /\
  (fst (single [int 1; int 2] (fun _ => true)) = Throws moreThanOneElement /\
   fst (singleOrUndefined [int 1; int 2] (fun _ => true)) = Throws moreThanOneElement) /\
  (fst (single [int 1; int 2] (fun x => strict_eq x (int 2))) = Returns (int 2) /\
   fst (singleOrUndefined [int 1; int 2] (fun x => strict_eq x (int 2)))
     = Returns (int 2)).
Proof.
  split; [|split].
  - apply (single_spec (fun _ => true) (Elements_array [])).
    intros x [].
  - apply (single_spec (fun _ => true) (Elements_array [int 1; int 2])).
    intros x [<-|[<-|[]]] _; discriminate.
  - apply (single_spec (fun x => strict_eq x (int 2)) (Elements_array [int 1; int 2])).
    intros x [<-|[<-|[]]] _; discriminate.
Defined.

(** C7 as stated fails.  In [[undefined]] exactly one element satisfies the
    predicate, yet [single] throws for want of an element; in
    [[undefined, 5]] two elements satisfy it, yet [single] and
    [singleOrUndefined] return [5] instead of throwing. *)
Lemma single_counterexample :
  filter (fun _ => true) [undefined] = [undefined] /\
  fst (single [undefined] (fun _ => true)) = Throws noElementSatisfies /\
  length (filter (fun _ => true) [undefined; int 5]) = 2%nat /\
  fst (single [undefined; int 5] (fun _ => true)) = Returns (int 5) /\
  fst (singleOrUndefined [undefined; int 5] (fun _ => true)) = Returns (int 5).
Proof.
  vm_compute. repeat split.
Qed.

(* ================================================================== *)
(** ** max, min and minMax                                             *)
(* ================================================================== *)

Lemma run_loop_max (selector : Selector number) (l : list value) (acc : number) :
  run_loop (R := Empty_set)
    (fun max item => Continue (Math_max max (selector item))) l acc
  = Continue (fold_left Math_max (map selector l) acc).
Proof.
  revert acc. induction l as [|x l IH]; intro acc; simpl; [reflexivity|apply IH].
Qed.

Lemma run_loop_min (selector : Selector number) (l : list value) (acc : number) :
  run_loop (R := Empty_set)
    (fun min item => Continue (Math_min min (selector item))) l acc
  = Continue (fold_left Math_min (map selector l) acc).
Proof.
  revert acc. induction l as [|x l IH]; intro acc; simpl; [reflexivity|apply IH].
Qed.

Lemma run_loop_minMax (selector : Selector number) (l : list value) (acc : MinMax) :
  run_loop (R := Empty_set)
    (fun mm item =>
       let v := selector item in
       Continue (mkMinMax (Math_min (min_of mm) v) (Math_max (max_of mm) v)))
    l acc
  = Continue (mkMinMax (fold_left Math_min (map selector l) (min_of acc))
                       (fold_left Math_max (map selector l) (max_of acc))).
Proof.
  revert acc. induction l as [|x l IH]; intro acc; simpl.
  - destruct acc; reflexivity.
  - rewrite IH. reflexivity.
Qed.

(** Values below [Number.MIN_VALUE] never replace it in the fold. *)
Lemma fold_max_below_MIN_VALUE (ys : list number) :
  (forall y, In y ys -> number_lt y MIN_VALUE = true) ->
  fold_left Math_max ys MIN_VALUE = MIN_VALUE.
Proof.
  induction ys as [|y ys IH]; intro Below; simpl; [reflexivity|].
  rewrite Math_max_MIN_VALUE by (apply Below; left; reflexivity).
  apply IH. intros z Hz. apply Below. right. exact Hz.
Qed.

Section MaxMin.
Context {C I : Type} `{Iterator I} `{Iterable C I}.

Lemma max_Elements (source : C) (l : list value) (selector : Selector number) :
  Elements source l -> fst (max source selector) = max_as_fold selector l.
Proof.
  intro E. unfold max. loop_over E. rewrite run_loop_max. reflexivity.
Qed.

Lemma min_Elements (source : C) (l : list value) (selector : Selector number) :
  Elements source l -> fst (min source selector) = min_as_fold selector l.
Proof.
  intro E. unfold min. loop_over E. rewrite run_loop_min. reflexivity.
Qed.

Lemma minMax_Elements (source : C) (l : list value) (selector : Selector number) :
  Elements source l ->
  fst (minMax source selector)
  = mkMinMax (min_as_fold selector l) (max_as_fold selector l).
Proof.
  intro E. unfold minMax. loop_over E. rewrite run_loop_minMax. reflexivity.
Qed.

(** C6.  For every selector, [max] over an empty sequence returns the
    initial value of its running maximum, [Number.MIN_VALUE], and [min]
    over an empty sequence returns [Number.MAX_VALUE]; neither throws (and
    [minMax] returns both). *)
Theorem max_min_of_empty (source : C) (selector : Selector number) :
  Elements source [] ->
  fst (max source selector) = MIN_VALUE /\
  fst (min source selector) = MAX_VALUE /\
  fst (minMax source selector) = mkMinMax MAX_VALUE MIN_VALUE.
Proof.
  intro E.
  rewrite (max_Elements selector E), (min_Elements selector E),
    (minMax_Elements selector E).
  repeat split.
Qed.

(** C10.  For every finite sequence, [max(source, selector)] is the left
    fold of the binary maximum over the projected values from
    [Number.MIN_VALUE], [min(source, selector)] is the fold of the binary
    minimum from [Number.MAX_VALUE], and [minMax] returns the two.  So for
    a non-empty sequence whose projected values are all strictly below
    [Number.MIN_VALUE], the smallest positive number, [max] returns
    [Number.MIN_VALUE], which is none of the projected values. *)
Theorem max_min_are_folds (source : C) (l : list value) (selector : Selector number) :
  Elements source l ->
  fst (max source selector) = max_as_fold selector l /\
  fst (min source selector) = min_as_fold selector l /\
  fst (minMax source selector)
    = mkMinMax (min_as_fold selector l) (max_as_fold selector l) /\
  (l <> [] ->
   (forall x, In x l -> number_lt (selector x) MIN_VALUE = true) ->
   fst (max source selector) = MIN_VALUE /\
   forall x, In x l -> fst (max source selector) <> selector x).
Proof.
  intro E.
  split; [apply max_Elements; exact E|].
  split; [apply min_Elements; exact E|].
  split; [apply minMax_Elements; exact E|].
  intros _ Below.
  assert (M : fst (max source selector) = MIN_VALUE).
  { rewrite (max_Elements selector E). unfold max_as_fold.
    apply fold_max_below_MIN_VALUE.
    intros y Hy. apply in_map_iff in Hy. destruct Hy as [x [<- Hx]].
    apply Below. exact Hx. }
  split; [exact M|].
  intros x Hx Eq. specialize (Below x Hx).
  rewrite <- Eq, M in Below. discriminate.
Qed.

End MaxMin.

Lemma max_min_of_empty_witness :
  fst (max (@nil value) defaultNumberSelector) = MIN_VALUE /\
  fst (min (@nil value) defaultNumberSelector) = MAX_VALUE /\
  fst (minMax (@nil value) defaultNumberSelector) = mkMinMax MAX_VALUE MIN_VALUE.
Proof.
  exact (max_min_of_empty defaultNumberSelector (Elements_array [])).
Defined.

Lemma max_min_are_folds_witness :
  let A := [int (-1); int (-5)] in
  fst (max A defaultNumberSelector) = MIN_VALUE /\
  forall x, In x A -> fst (max A defaultNumberSelector) <> defaultNumberSelector x.
Proof.
  intro A.
  destruct (max_min_are_folds defaultNumberSelector (Elements_array A))
    as [_ [_ [_ Below]]].
  apply Below.
  - discriminate.
  - intros x [<-|[<-|[]]]; reflexivity.
Defined.

(* ================================================================== *)
(** ** distinct and distinctHash                                       *)
(* ================================================================== *)

Lemma run_loop_contains (comparer : EqualityComparer) (v : value) (l : list value) :
  run_loop (fun (_ : unit) item => if comparer item v then Exit true else Continue tt)
    l tt
  = if existsb (fun item => comparer item v) l then Exit true else Continue tt.
Proof.
  induction l as [|x l IH]; simpl; [reflexivity|].
  destruct (comparer x v); [reflexivity|exact IH].
Qed.

Lemma contains_Elements {C I : Type} `{Iterator I} `{Iterable C I}
    (source : C) (l : list value) (v : value) (comparer : EqualityComparer) :
  Elements source l ->
  fst (contains source v comparer) = existsb (fun item => comparer item v) l.
Proof.
  intro E. unfold contains. loop_over E. rewrite run_loop_contains.
  destruct (existsb _ l); reflexivity.
Qed.

(** [distinct] yields the first occurrences, for its comparer. *)
Lemma outputs_distinct (comparer : EqualityComparer) (l seen : list value) :
  outputs (distinct_body comparer) l seen = first_occurrences comparer seen l.
Proof.
  revert seen. induction l as [|x l IH]; intro seen; simpl; [reflexivity|].
  rewrite (contains_Elements x comparer (Elements_array seen)).
  destruct (existsb (fun item => comparer item x) seen); simpl.
  - apply IH.
  - f_equal. apply IH.
Qed.

(** What [first_occurrences] keeps: elements of [l] that nothing seen
    before equals, no two of which are equal, and one for each element of
    [l]. *)
Lemma first_occurrences_unseen (eqb : value -> value -> bool) (l seen : list value)
    (x : value) :
  In x (first_occurrences eqb seen l) ->
  In x l /\ existsb (fun y => eqb y x) seen = false.
Proof.
  revert seen. induction l as [|a l IH]; intros seen Hx; simpl in Hx; [contradiction|].
  destruct (existsb (fun y => eqb y a) seen) eqn:Ea.
  - destruct (IH _ Hx) as [Hl Hs]. split; [right; exact Hl|exact Hs].
  - destruct Hx as [<-|Hx].
    + split; [left; reflexivity|exact Ea].
    + destruct (IH _ Hx) as [Hl Hs]. split; [right; exact Hl|].
      rewrite existsb_app in Hs. apply orb_false_iff in Hs. exact (proj1 Hs).
Qed.

Lemma first_occurrences_distinct (eqb : value -> value -> bool) (l seen : list value) :
  ForallOrdPairs (fun a b => eqb a b = false) (first_occurrences eqb seen l).
Proof.
  revert seen. induction l as [|a l IH]; intro seen; simpl; [constructor|].
  destruct (existsb (fun y => eqb y a) seen); [apply IH|].
  constructor; [|apply IH].
  apply Forall_forall. intros b Hb.
  destruct (first_occurrences_unseen _ _ _ _ Hb) as [_ Hs].
  rewrite existsb_app in Hs. apply orb_false_iff in Hs. destruct Hs as [_ Hs].
  simpl in Hs. rewrite orb_false_r in Hs. exact Hs.
Qed.

Lemma first_occurrences_complete (eqb : value -> value -> bool) (l seen : list value)
    (x : value) :
  In x l -> eqb x x = true ->
  existsb (fun y => eqb y x) (seen ++ first_occurrences eqb seen l) = true.
Proof.
  revert seen. induction l as [|a l IH]; intros seen Hx Rx; [contradiction|].
  simpl. destruct (existsb (fun y => eqb y a) seen) eqn:Ea.
  - destruct Hx as [->|Hx]; [|apply IH; assumption].
    rewrite existsb_app, Ea. reflexivity.
  - replace (seen ++ a :: first_occurrences eqb (seen ++ [a]) l)
      with ((seen ++ [a]) ++ first_occurrences eqb (seen ++ [a]) l)
      by (rewrite <- app_assoc; reflexivity).
    destruct Hx as [->|Hx]; [|apply IH; assumption].
    rewrite !existsb_app. simpl. rewrite Rx, orb_true_r. reflexivity.
Qed.

Section DistinctHash.
Variable universe : list value.
Variable hash : Hash.
Hypothesis hash_compatible :
  forall a b, In a universe -> In b universe ->
    same_key (hash a) (hash b) = strict_eq a b.
Hypothesis no_undefined : forall a, In a universe -> a <> undefined.

Local Abbreviation hash_set_mirrors := (hash_set_mirrors universe hash).

Lemma hash_set_mirrors_add (seen : list value) (h : HashSet) (x : value) :
  In x universe -> hash_set_mirrors seen h ->
  hash_set_mirrors (seen ++ [x]) (hs_set h (hash x) x).
Proof.
  intros Hx M z Hz. rewrite existsb_app. simpl.
  rewrite (hash_compatible x z Hx Hz), orb_false_r.
  destruct (strict_eq x z).
  - rewrite orb_true_r, (strict_eq_not_undefined (no_undefined Hx)). reflexivity.
  - rewrite orb_false_r. apply M. exact Hz.
Qed.

Lemma outputs_distinctHash (l seen : list value) (h : HashSet) :
  incl l universe -> hash_set_mirrors seen h ->
  outputs (distinctHash_body hash) l h = first_occurrences strict_eq seen l.
Proof.
  revert seen h. induction l as [|x l IH]; intros seen h Incl M; simpl; [reflexivity|].
  assert (Hx : In x universe) by (apply Incl; left; reflexivity).
  assert (Incl' : incl l universe) by (intros y Hy; apply Incl; right; exact Hy).
  rewrite <- (M x Hx).
  destruct (existsb (fun y => strict_eq y x) seen); simpl.
  - apply IH; assumption.
  - f_equal. apply IH; [assumption|]. apply hash_set_mirrors_add; assumption.
Qed.

(** With a hash that separates exactly the values that [===] separates,
    [distinctHash] yields what [distinct] yields. *)
Lemma distinct_distinctHash_universe :
  fst (toArray (distinctHash universe hash))
  = fst (toArray (distinct universe defaultEqualityComparer)) /\
  fst (toArray (distinct universe defaultEqualityComparer))
  = first_occurrences strict_eq [] universe.
Proof.
  assert (D : fst (toArray (distinct universe defaultEqualityComparer))
              = first_occurrences strict_eq [] universe).
  { change (first_occurrences strict_eq [] universe)
      with (first_occurrences defaultEqualityComparer [] universe).
    rewrite <- (outputs_distinct defaultEqualityComparer universe []).
    apply toArray_Elements.
    apply (Elements_generator (distinct_body defaultEqualityComparer) []
             (Elements_array universe)). }
  split; [|exact D]. rewrite D.
  rewrite <- (outputs_distinctHash (l := universe) (seen := []) (h := [])).
  - apply toArray_Elements.
    apply (Elements_generator (distinctHash_body hash) [] (Elements_array universe)).
  - apply incl_refl.
  - intros x _. reflexivity.
Qed.

End DistinctHash.

(** C8.  For every array [A] of integers and every hash that gives two
    elements of [A] the same key exactly when they are [===],
    [toArray(distinct(A))] equals [toArray(distinctHash(A, hash))]: both are
    the first occurrences of the values of [A], in the order of [A], so
    that no two elements of the result are [===] and every element of [A]
    is [===] to one of them. *)
Theorem distinct_distinctHash_agree (A : list Z) (hash : Hash) :
  (forall a b, In a (map int A) -> In b (map int A) ->
     same_key (hash a) (hash b) = strict_eq a b) ->
  let result := fst (toArray (distinct (map int A) defaultEqualityComparer)) in
  result = fst (toArray (distinctHash (map int A) hash)) /\
  result = first_occurrences strict_eq [] (map int A) /\
  ForallOrdPairs (fun a b => strict_eq a b = false) result /\
  (forall x, In x (map int A) -> exists y, In y result /\ strict_eq y x = true).
Proof.
  intros Compatible result.
  destruct (@distinct_distinctHash_universe (map int A) hash Compatible)
    as [E1 E2].
  - intros a Ha. apply in_map_iff in Ha. destruct Ha as [z [<- _]]. discriminate.
  - fold result in E1, E2.
    split; [symmetry; exact E1|]. split; [exact E2|]. rewrite E2. split.
    + apply first_occurrences_distinct.
    + intros x Hx.
      assert (Rx : strict_eq x x = true).
      { rewrite <- (Compatible x x Hx Hx). apply same_key_refl. }
      pose proof (first_occurrences_complete strict_eq (map int A) [] x Hx Rx) as Ex.
      simpl in Ex. apply existsb_exists in Ex. exact Ex.
Qed.

Lemma distinct_distinctHash_agree_witness :
  let result :=
    fst (toArray (distinct (map int [1; 2; 1; 3; 2]) defaultEqualityComparer)) in
  result = fst (toArray (distinctHash (map int [1; 2; 1; 3; 2]) defaultHash)) /\
  result = [int 1; int 2; int 3].
Proof.
  destruct (@distinct_distinctHash_agree [1; 2; 1; 3; 2] defaultHash) as [E1 [E2 _]].
  - intros a b [<-|[<-|[<-|[<-|[<-|[]]]]]] [<-|[<-|[<-|[<-|[<-|[]]]]]]; reflexivity.
  - split; [exact E1|exact E2].
Defined.

(* ================================================================== *)
(** ** The wrapper                                                     *)
(* ================================================================== *)

(** The methods that pass on what they are given: each is the free
    function applied to the wrapped sequence and the same arguments, its
    result wrapped again when it is a sequence. *)
Lemma wrapper_methods_forward {C I : Type} `{Iterator I} `{Iterable C I}
    (s : C) (p : Predicate) (q : IndexedPredicate) (f : IndexedSelector value)
    (sel : Selector number) (h : Hash) (i : Z) :
  fst (Wrapper.first (L s) p) = fst (first s p) /\
  fst (Wrapper.firstOrUndefined (L s) p) = fst (firstOrUndefined s p) /\
  fst (Wrapper.last (L s) p) = fst (last s p) /\
  fst (Wrapper.lastOrUndefined (L s) p) = fst (lastOrUndefined s p) /\
  fst (Wrapper.single (L s) p) = fst (single s p) /\
  fst (Wrapper.singleOrUndefined (L s) p) = fst (singleOrUndefined s p) /\
  fst (Wrapper.elementAt (L s) i) = fst (elementAt s i) /\
  fst (Wrapper.elementAtOrUndefined (L s) i) = fst (elementAtOrUndefined s i) /\
  fst (Wrapper.max (L s) sel) = fst (max s sel) /\
  fst (Wrapper.min (L s) sel) = fst (min s sel) /\
  fst (Wrapper.minMax (L s) sel) = fst (minMax s sel) /\
  fst (Wrapper.toArray (L s)) = fst (toArray s) /\
  Wrapper.where_ (L s) q = L (where_ s q) /\
  Wrapper.select (L s) f = L (select s f) /\
  Wrapper.take (L s) i = L (take s i) /\
  Wrapper.skip (L s) i = L (skip s i) /\
  Wrapper.distinctHash (L s) h = L (distinctHash s h).
Proof. repeat split. Qed.

(** C2, on the code.  Whatever predicate [L(s).count] is given and
    whatever comparer [L(s).distinct] is given, they run the free function
    with its default argument, so [L(s).count(p)] is not [count(s, p)] and
    [L(s).distinct(c)] is not [distinct(s, c)]: on [s = [1, 2, 3]], with [p]
    true of [2] only, the method counts 3 elements and the free function
    counts 1; with [c] holding of every pair, the method yields the three
    elements and the free function yields the first one only. *)
Theorem wrapper_count_and_distinct_drop_their_argument :
  (forall (C I : Type) (II : Iterator I) (IC : Iterable C I)
          (s : C) (p : Predicate) (c : EqualityComparer),
     fst (Wrapper.count (L s) p) = fst (count s defaultPredicate) /\
     Wrapper.distinct (L s) c = L (distinct s defaultEqualityComparer)) /\
  (let s := [int 1; int 2; int 3] in
   let p : Predicate := fun v => strict_eq v (int 2) in
   let c : EqualityComparer := fun _ _ => true in
   fst (Wrapper.count (L s) p) = 3 /\
   fst (count s p) = 1 /\
   fst (toArray (iterable (Wrapper.distinct (L s) c))) = [int 1; int 2; int 3] /\
   fst (toArray (distinct s c)) = [int 1]).
Proof.
  split.
  - intros. split; reflexivity.
  - vm_compute. repeat split.
Qed.


(* ================================================================== *)
(** ** all, any, contains and count                                    *)
(* ================================================================== *)

Lemma run_loop_all (p : Predicate) (l : list value) :
  run_loop (fun (_ : unit) item => if negb (p item) then Exit false else Continue tt)
    l tt
  = if forallb p l then Continue tt else Exit false.
Proof.
  induction l as [|x l IH]; simpl; [reflexivity|].
  destruct (p x); simpl; [exact IH|reflexivity].
Qed.

Lemma run_loop_any (p : Predicate) (l : list value) :
  run_loop (fun (_ : unit) item => if p item then Exit true else Continue tt) l tt
  = if existsb p l then Exit true else Continue tt.
Proof.
  induction l as [|x l IH]; simpl; [reflexivity|].
  destruct (p x); simpl; [reflexivity|exact IH].
Qed.

Lemma run_loop_count (p : Predicate) (l : list value) (n : Z) :
  run_loop (R := Empty_set)
    (fun count item => if p item then Continue (count + 1) else Continue count) l n
  = Continue (n + Z.of_nat (length (filter p l))).
Proof.
  revert n. induction l as [|x l IH]; intro n; simpl.
  - f_equal. lia.
  - destruct (p x); rewrite IH; f_equal; simpl length; lia.
Qed.

Lemma existsb_negb_forallb (p : value -> bool) (l : list value) :
  existsb p l = negb (forallb (fun x => negb (p x)) l).
Proof.
  induction l as [|x l IH]; simpl; [reflexivity|].
  rewrite IH. destruct (p x); reflexivity.
Qed.

Lemma filter_indexed_filter (p : Predicate) (l : list value) (i : Z) :
  filter_indexed (fun x _ => p x) l i = filter p l.
Proof.
  revert i. induction l as [|x l IH]; intro i; simpl; [reflexivity|].
  rewrite IH. reflexivity.
Qed.

Section Quantifiers.
Context {C I : Type} `{Iterator I} `{Iterable C I}.

Lemma all_Elements (source : C) (l : list value) (p : Predicate) :
  Elements source l -> fst (all source p) = forallb p l.
Proof.
  intro E. unfold all. loop_over E. rewrite run_loop_all.
  destruct (forallb p l); reflexivity.
Qed.

Lemma any_Elements (source : C) (l : list value) (p : Predicate) :
  Elements source l -> fst (any source p) = existsb p l.
Proof.
  intro E. unfold any. loop_over E. rewrite run_loop_any.
  destruct (existsb p l); reflexivity.
Qed.

Lemma count_Elements (source : C) (l : list value) (p : Predicate) :
  Elements source l -> fst (count source p) = Z.of_nat (length (filter p l)).
Proof.
  intro E. unfold count. loop_over E. rewrite run_loop_count. reflexivity.
Qed.

(** X1.  For every finite source and predicate, [all] tells whether every
    element satisfies the predicate and [any] whether some element does;
    so [all] is [true] and [any] is [false] on a source that yields
    nothing, and [any(source, p)] is the negation of
    [all(source, x => !p(x))]. *)
Theorem all_any_spec (source : C) (l : list value) (p : Predicate) :
  Elements source l ->
  (fst (all source p) = true <-> forall x, In x l -> p x = true) /\
  (fst (any source p) = true <-> exists x, In x l /\ p x = true) /\
  (l = [] -> fst (all source p) = true /\ fst (any source p) = false) /\
  fst (any source p) = negb (fst (all source (fun x => negb (p x)))).
Proof.
  intro E.
  rewrite (all_Elements p E), (any_Elements p E),
    (all_Elements (fun x => negb (p x)) E).
  split; [apply forallb_forall|]. split; [apply existsb_exists|]. split.
  - intros ->. split; reflexivity.
  - apply existsb_negb_forallb.
Qed.

(** X2.  For every finite source and predicate, [count(source, p)] is the
    number of elements that satisfy [p]: the number of elements that
    [where(source, p)] yields; with the default predicate it is the length
    of the sequence. *)
Theorem count_spec (source : C) (l : list value) (p : Predicate) :
  Elements source l ->
  fst (count source p) = Z.of_nat (length (filter p l)) /\
  fst (count source p)
    = Z.of_nat (length (fst (toArray (where_ source (fun x _ => p x))))) /\
  fst (count source defaultPredicate) = Z.of_nat (length l) /\
  0 <= fst (count source p) <= Z.of_nat (length l).
Proof.
  intro E.
  rewrite (toArray_Elements (Elements_where (fun x _ => p x) E)),
    filter_indexed_filter, !(count_Elements _ E).
  split; [reflexivity|]. split; [reflexivity|]. split.
  - f_equal. f_equal. clear. induction l as [|x l IH]; simpl; congruence.
  - pose proof (filter_length_le p l). lia.
Qed.

(** X3.  For every finite source, [contains(source, v, comparer)] tells
    whether the comparer holds of some element and [v]; with the default
    comparer [===] it never finds [NaN], not even in a source that holds
    [NaN]. *)
Theorem contains_spec (source : C) (l : list value) (v : value)
    (comparer : EqualityComparer) :
  Elements source l ->
  (fst (contains source v comparer) = true
   <-> exists x, In x l /\ comparer x v = true) /\
  fst (contains source (VNum NaN) defaultEqualityComparer) = false.
Proof.
  intro E. rewrite !(contains_Elements _ _ E). split.
  - apply existsb_exists.
  - clear. induction l as [|x l IH]; simpl; [reflexivity|].
    rewrite IH. destruct x as [| | |n| |]; try reflexivity.
    destruct n; reflexivity.
Qed.

End Quantifiers.

Lemma all_any_spec_witness :
  let A := [int 1; int 2] in
  let p : Predicate := fun x => strict_eq x (int 2) in
  (fst (all A p) = true <-> forall x, In x A -> p x = true) /\
  (fst (any A p) = true <-> exists x, In x A /\ p x = true) /\
  (A = [] -> fst (all A p) = true /\ fst (any A p) = false) /\
  fst (any A p) = negb (fst (all A (fun x => negb (p x)))).
Proof.
  intros A p. exact (all_any_spec p (Elements_array A)).
Defined.

Lemma count_spec_witness :
  let A := [int 1; int 2; int 2] in
  fst (count A (fun x => strict_eq x (int 2))) = 2.
Proof.
  intro A.
  exact (proj1 (count_spec (fun x => strict_eq x (int 2)) (Elements_array A))).
Defined.

Lemma contains_spec_witness :
  fst (contains [int 1; VNum NaN] (VNum NaN) defaultEqualityComparer) = false.
Proof.
  exact (proj2 (contains_spec (int 1) defaultEqualityComparer
                  (Elements_array [int 1; VNum NaN]))).
Defined.

(* ================================================================== *)
(** ** aggregate                                                       *)
(* ================================================================== *)

Lemma run_loop_fold {A : Type} (f : A -> value -> A) (l : list value) (seed : A) :
  run_loop (R := Empty_set) (fun seed item => Continue (f seed item)) l seed
  = Continue (fold_left f l seed).
Proof.
  revert seed. induction l as [|x l IH]; intro seed; simpl; [reflexivity|apply IH].
Qed.

Section Aggregate.
Context {C I : Type} `{Iterator I} `{Iterable C I}.

Lemma aggregateWithSeed_Elements {A : Type} (source : C) (l : list value)
    (seed : A) (f : A -> value -> A) :
  Elements source l -> fst (aggregateWithSeed source seed f) = fold_left f l seed.
Proof.
  intro E. unfold aggregateWithSeed. loop_over E. rewrite run_loop_fold. reflexivity.
Qed.

Lemma aggregate_Elements (source : C) (l : list value) (f : value -> value -> value) :
  Elements source l ->
  fst (aggregate source f)
  = match l with
    | [] => Throws emptySequence
    | x :: l' => Returns (fold_left f l' x)
    end.
Proof.
  intros [[it' P] _]. unfold aggregate.
  inversion P as [a b Hn|a v it1 l' c Hn Hp P']; subst; rewrite Hn.
  - reflexivity.
  - destruct (for_of_loop_produces (R := Empty_set)
                (fun seed current => Continue (f seed current)) P'
                (fuel := S (pending it1)) v) as [it_end [E1 _]].
    + pose proof (produces_length P'). lia.
    + rewrite E1, run_loop_fold. reflexivity.
Qed.

(** X4.  For every finite source, [aggregate(source, func)] throws "empty
    sequence" exactly when the source yields nothing, and otherwise folds
    [func] from the left over the elements after the first, starting from
    the first; [aggregateWithSeed(source, seed, func)] folds over all the
    elements from [seed], and so returns [seed] on a source that yields
    nothing. *)
Theorem aggregate_spec (source : C) (l : list value) (f : value -> value -> value)
    (seed : value) :
  Elements source l ->
  (l = [] <-> fst (aggregate source f) = Throws emptySequence) /\
  (forall x l', l = x :: l' -> fst (aggregate source f) = Returns (fold_left f l' x)) /\
  fst (aggregateWithSeed source seed f) = fold_left f l seed /\
  (l = [] -> fst (aggregateWithSeed source seed f) = seed).
Proof.
  intro E. rewrite (aggregate_Elements f E), (aggregateWithSeed_Elements seed f E).
  split; [|split; [|split]].
  - destruct l; split; intro X; try reflexivity; discriminate.
  - intros x l' ->. reflexivity.
  - reflexivity.
  - intros ->. reflexivity.
Qed.

End Aggregate.

Lemma aggregate_spec_witness :
  let keep_second : value -> value -> value := fun _ b => b in
  fst (aggregate [int 1; int 2; int 3] keep_second) = Returns (int 3) /\
  fst (aggregateWithSeed [int 1; int 2; int 3] (int 0) keep_second) = int 3.
Proof.
  intro f.
  destruct (aggregate_spec f (int 0) (Elements_array [int 1; int 2; int 3]))
    as [_ [Fold [Seed _]]].
  split; [exact (Fold _ _ eq_refl)|exact Seed].
Defined.

(* ================================================================== *)
(** ** select, where, take and skip together                           *)
(* ================================================================== *)

Lemma outputs_select_map (f : IndexedSelector value) (l : list value) (i : Z) (c : nat) :
  outputs (select_body f) l (mkCounter i c) = map_indexed f l i.
Proof.
  revert i c. induction l as [|x l IH]; intros i c; simpl; [reflexivity|].
  f_equal. apply IH.
Qed.

Lemma map_indexed_length (f : value -> Z -> value) (l : list value) (i : Z) :
  length (map_indexed f l i) = length l.
Proof.
  revert i. induction l as [|x l IH]; intro i; simpl; [reflexivity|].
  f_equal. apply IH.
Qed.

Lemma map_indexed_map (g : value -> value) (l : list value) (i : Z) :
  map_indexed (fun x _ => g x) l i = map g l.
Proof.
  revert i. induction l as [|x l IH]; intro i; simpl; [reflexivity|].
  f_equal. apply IH.
Qed.

Lemma map_indexed_nth (f : value -> Z -> value) (l : list value) (i : Z) (k : nat) :
  (k < length l)%nat ->
  nth k (map_indexed f l i) undefined = f (nth k l undefined) (i + Z.of_nat k).
Proof.
  revert i k. induction l as [|x l IH]; intros i k Hk; simpl in Hk; [lia|].
  destruct k as [|k]; simpl.
  - f_equal. lia.
  - rewrite IH by lia. f_equal. lia.
Qed.

Lemma map_indexed_fusion (f g : value -> Z -> value) (l : list value) (i : Z) :
  map_indexed g (map_indexed f l i) i = map_indexed (fun x k => g (f x k) k) l i.
Proof.
  revert i. induction l as [|x l IH]; intro i; simpl; [reflexivity|].
  f_equal. apply IH.
Qed.

Lemma filter_filter (p q : value -> bool) (l : list value) :
  filter q (filter p l) = filter (fun x => p x && q x) l.
Proof.
  induction l as [|x l IH]; simpl; [reflexivity|].
  destruct (p x); simpl; [destruct (q x); simpl; congruence|exact IH].
Qed.

Lemma Elements_select {C I : Type} `{Iterator I} `{Iterable C I}
    (source : C) (f : IndexedSelector value) (l : list value) :
  Elements source l -> Elements (select source f) (map_indexed f l 0).
Proof.
  intro E. rewrite <- (outputs_select_map f l 0 0).
  apply (Elements_generator (select_body f) (mkCounter 0 0) E).
Qed.

Section Pipelines.
Context {C I : Type} `{Iterator I} `{Iterable C I}.

(** X5.  For every finite source, [select(source, selector)] yields the
    selector's result for each element and its zero-based index, in the
    order of the source: as many values as the source has elements, the
    [k]th being [selector(source[k], k)]. *)
Theorem select_spec (source : C) (l : list value) (f : IndexedSelector value) :
  Elements source l ->
  let result := fst (toArray (select source f)) in
  result = map_indexed f l 0 /\
  length result = length l /\
  forall k, (k < length l)%nat ->
    nth k result undefined = f (nth k l undefined) (Z.of_nat k).
Proof.
  intros E result.
  assert (R : result = map_indexed f l 0).
  { apply toArray_Elements. apply Elements_select. exact E. }
  split; [exact R|]. rewrite R. split.
  - apply map_indexed_length.
  - intros k Hk. rewrite map_indexed_nth by exact Hk. reflexivity.
Qed.

(** X6.  A chain composes as its stages are written: for every finite
    source, predicate [p] and selector [f] of the element alone,
    [select(where(source, p), f)] yields [f] of the elements that satisfy
    [p], in order, and the fluent chain [L(source).where(p).select(f)
    .toArray()] returns the same array. *)
Theorem where_select_chain (source : C) (l : list value)
    (p : Predicate) (f : value -> value) :
  Elements source l ->
  fst (toArray (select (where_ source (fun x _ => p x)) (fun x _ => f x)))
    = map f (filter p l) /\
  fst (Wrapper.toArray
         (Wrapper.select (Wrapper.where_ (L source) (fun x _ => p x))
            (fun x _ => f x)))
    = map f (filter p l).
Proof.
  intro E.
  assert (R : fst (toArray (select (where_ source (fun x _ => p x)) (fun x _ => f x)))
              = map f (filter p l)).
  { rewrite (toArray_Elements
               (Elements_select (fun x _ => f x) (Elements_where (fun x _ => p x) E))).
    rewrite map_indexed_map, filter_indexed_filter. reflexivity. }
  split; exact R.
Qed.

(** X7.  Two stages of a kind fuse into one: for every finite source,
    [select(select(source, f), g)] yields what [select(source, (x, i) =>
    g(f(x, i), i))] yields, and for predicates of the element alone
    [where(where(source, p), q)] yields what [where(source, x => p(x) &&
    q(x))] yields. *)
Theorem select_where_fusion (source : C) (l : list value)
    (f g : IndexedSelector value) (p q : Predicate) :
  Elements source l ->
  fst (toArray (select (select source f) g))
    = fst (toArray (select source (fun x i => g (f x i) i))) /\
  fst (toArray (where_ (where_ source (fun x _ => p x)) (fun x _ => q x)))
    = fst (toArray (where_ source (fun x _ => p x && q x))).
Proof.
  intro E. split.
  - rewrite (toArray_Elements (Elements_select g (Elements_select f E))).
    rewrite (toArray_Elements (Elements_select (fun x i => g (f x i) i) E)).
    apply map_indexed_fusion.
  - rewrite (toArray_Elements
               (Elements_where (fun x _ => q x) (Elements_where (fun x _ => p x) E))).
    rewrite (toArray_Elements (Elements_where (fun x _ => p x && q x) E)).
    rewrite !filter_indexed_filter. apply filter_filter.
Qed.

(** X8.  Paging: for every finite source and all integers [a] and [n],
    [take(skip(source, a), n)] yields the [n] elements that follow the
    first [a] (fewer when the source ends first); a count of zero or less
    makes [take] yield nothing and [skip] yield every element; and [take]
    yields [min n |source|] elements when [n >= 0]. *)
Theorem skip_take_page (source : C) (l : list value) (a n : Z) :
  Elements source l ->
  fst (toArray (take (skip source a) n))
    = firstn (Z.to_nat n) (skipn (Z.to_nat a) l) /\
  (n <= 0 -> fst (toArray (take source n)) = [] /\ fst (toArray (skip source n)) = l) /\
  (0 <= n ->
   Z.of_nat (length (fst (toArray (take source n)))) = Z.min n (Z.of_nat (length l))).
Proof.
  intro E.
  rewrite (toArray_Elements (Elements_take n (Elements_skip a E))).
  rewrite (toArray_Elements (Elements_take n E)).
  rewrite (toArray_Elements (Elements_skip n E)).
  split; [reflexivity|]. split.
  - intro Le. replace (Z.to_nat n) with O by lia. split; reflexivity.
  - intro Ge. rewrite length_firstn. lia.
Qed.

End Pipelines.

Lemma select_spec_witness :
  fst (toArray (select [int 5; int 6] (fun _ i => int i))) = [int 0; int 1].
Proof.
  exact (proj1 (select_spec (fun _ i => int i) (Elements_array [int 5; int 6]))).
Defined.

Lemma where_select_chain_witness :
  fst (Wrapper.toArray
         (Wrapper.select
            (Wrapper.where_ (L [int 1; int 2; int 1])
               (fun x _ => strict_eq x (int 1)))
            (fun x _ => VBool (truthy x))))
  = [VBool true; VBool true].
Proof.
  exact (proj2 (where_select_chain (fun x => strict_eq x (int 1))
                  (fun x => VBool (truthy x))
                  (Elements_array [int 1; int 2; int 1]))).
Defined.

Lemma select_where_fusion_witness :
  fst (toArray (where_ (where_ [int 1; int 2; int 3] (fun x _ => truthy x))
                  (fun x _ => strict_eq x (int 2))))
  = fst (toArray (where_ [int 1; int 2; int 3]
                    (fun x _ => truthy x && strict_eq x (int 2)))).
Proof.
  exact (proj2 (select_where_fusion (fun x _ => x) (fun x _ => x)
                  truthy (fun x => strict_eq x (int 2))
                  (Elements_array [int 1; int 2; int 3]))).
Defined.

Lemma skip_take_page_witness :
  fst (toArray (take (skip [int 1; int 2; int 3; int 4] 1) 2)) = [int 2; int 3].
Proof.
  exact (proj1 (skip_take_page 1 2 (Elements_array [int 1; int 2; int 3; int 4]))).
Defined.

(* ================================================================== *)
(** ** takeWhile and skipWhile                                         *)
(* ================================================================== *)

Lemma outputs_takeWhile (p : IndexedPredicate) (l : list value) (i : Z) :
  outputs (takeWhile_body p) l i = prefix_while p l i.
Proof.
  revert i. induction l as [|x l IH]; intro i; simpl; [reflexivity|].
  destruct (p x i); simpl; [f_equal; apply IH|reflexivity].
Qed.

Lemma outputs_skipWhile_rest (p : IndexedPredicate) (l : list value) (i : Z) :
  outputs (skipWhile_body p) l (i, false) = l.
Proof.
  induction l as [|x l IH]; simpl; [reflexivity|]. f_equal. exact IH.
Qed.

Lemma outputs_skipWhile (p : IndexedPredicate) (l : list value) (i : Z) :
  outputs (skipWhile_body p) l (i, true) = suffix_while p l i.
Proof.
  revert i. induction l as [|x l IH]; intro i; simpl; [reflexivity|].
  destruct (p x i); simpl; [apply IH|].
  f_equal. apply outputs_skipWhile_rest.
Qed.

Lemma pulls_takeWhile (p : IndexedPredicate) (l : list value) (i : Z) :
  pulls (takeWhile_body p) l i
  = Nat.min (S (length (prefix_while p l i))) (length l).
Proof.
  revert i. induction l as [|x l IH]; intro i; simpl; [reflexivity|].
  f_equal. destruct (p x i); simpl; [apply IH|reflexivity].
Qed.

Lemma pulls_skip (n : Z) (l : list value) (i : Z) :
  pulls (skip_body n) l i = length l.
Proof.
  revert i. induction l as [|x l IH]; intro i; simpl; [reflexivity|].
  f_equal. destruct (i >=? n); apply IH.
Qed.

Lemma prefix_suffix_while (p : value -> Z -> bool) (l : list value) (i : Z) :
  prefix_while p l i ++ suffix_while p l i = l.
Proof.
  revert i. induction l as [|x l IH]; intro i; simpl; [reflexivity|].
  destruct (p x i); simpl; [f_equal; apply IH|reflexivity].
Qed.

Lemma prefix_while_holds (p : value -> Z -> bool) (l : list value) (i : Z) (k : nat) :
  (k < length (prefix_while p l i))%nat ->
  p (nth k l undefined) (i + Z.of_nat k) = true.
Proof.
  revert i k. induction l as [|x l IH]; intros i k Hk; simpl in Hk; [lia|].
  destruct (p x i) eqn:Px; simpl in Hk; [|lia].
  destruct k as [|k]; simpl.
  - rewrite Z.add_0_r. exact Px.
  - replace (i + Z.pos (Pos.of_succ_nat k)) with (i + 1 + Z.of_nat k) by lia.
    apply IH. lia.
Qed.

Lemma suffix_while_head (p : value -> Z -> bool) (l : list value) (i : Z)
    (x : value) (rest : list value) :
  suffix_while p l i = x :: rest ->
  p x (i + Z.of_nat (length (prefix_while p l i))) = false.
Proof.
  revert i. induction l as [|y l IH]; intros i E; simpl in E; [discriminate|].
  simpl. destruct (p y i) eqn:Py.
  - simpl length.
    replace (i + Z.of_nat (S (length (prefix_while p l (i + 1)))))
      with (i + 1 + Z.of_nat (length (prefix_while p l (i + 1)))) by lia.
    apply IH. exact E.
  - injection E as -> _. simpl. rewrite Z.add_0_r. exact Py.
Qed.

Section While.
Context {C I : Type} `{Iterator I} `{Iterable C I}.

Lemma Elements_takeWhile (source : C) (p : IndexedPredicate) (l : list value) :
  Elements source l -> Elements (takeWhile source p) (prefix_while p l 0).
Proof.
  intro E. rewrite <- outputs_takeWhile.
  apply (Elements_generator (takeWhile_body p) 0 E).
Qed.

Lemma Elements_skipWhile (source : C) (p : IndexedPredicate) (l : list value) :
  Elements source l -> Elements (skipWhile source p) (suffix_while p l 0).
Proof.
  intro E. rewrite <- outputs_skipWhile.
  apply (Elements_generator (skipWhile_body p) (0, true) E).
Qed.

(** X9.  For every finite source and predicate of element and index,
    [takeWhile] yields the longest prefix whose elements satisfy the
    predicate at their index and [skipWhile] yields the rest, so that the
    two results, one after the other, are the source; the first element
    that [skipWhile] yields fails the predicate, and later elements are
    yielded without being tested. *)
Theorem takeWhile_skipWhile_split (source : C) (l : list value) (p : IndexedPredicate) :
  Elements source l ->
  let taken := fst (toArray (takeWhile source p)) in
  let rest := fst (toArray (skipWhile source p)) in
  taken ++ rest = l /\
  (forall k, (k < length taken)%nat -> p (nth k l undefined) (Z.of_nat k) = true) /\
  (forall x rest', rest = x :: rest' -> p x (Z.of_nat (length taken)) = false).
Proof.
  intros E taken rest.
  assert (T : taken = prefix_while p l 0).
  { apply toArray_Elements. apply Elements_takeWhile. exact E. }
  assert (R : rest = suffix_while p l 0).
  { apply toArray_Elements. apply Elements_skipWhile. exact E. }
  rewrite T, R. split; [apply prefix_suffix_while|]. split.
  - intros k Hk. exact (@prefix_while_holds p l 0 k Hk).
  - intros x rest' Er. exact (@suffix_while_head p l 0 x rest' Er).
Qed.

(** X10.  How far the slicing stages read their source: for every finite
    source, a full traversal of [skip(source, n)] pulls every element of
    the source, whatever [n], and a full traversal of [takeWhile(source,
    p)] pulls the elements it yields and one more, the first that fails
    [p], when there is one. *)
Theorem skip_takeWhile_pulls (source : C) (l : list value) (n : Z)
    (p : IndexedPredicate) :
  Elements source l ->
  pulled (snd (toArray (skip source n))) = length l /\
  pulled (snd (toArray (takeWhile source p)))
    = Nat.min (S (length (fst (toArray (takeWhile source p))))) (length l).
Proof.
  intro E. split.
  - destruct (generator_produces (skip_body n) 0 E) as [g_end [P [_ Ep]]].
    unfold skip. rewrite (toArray_generator P). simpl.
    rewrite Ep. apply pulls_skip.
  - rewrite (toArray_Elements (Elements_takeWhile p E)).
    destruct (generator_produces (takeWhile_body p) 0 E) as [g_end [P [_ Ep]]].
    unfold takeWhile. rewrite (toArray_generator P). simpl.
    rewrite Ep. apply pulls_takeWhile.
Qed.

End While.

Lemma takeWhile_skipWhile_split_witness :
  let A := [int 1; int 1; int 2; int 1] in
  let p : IndexedPredicate := fun x _ => strict_eq x (int 1) in
  fst (toArray (takeWhile A p)) ++ fst (toArray (skipWhile A p)) = A.
Proof.
  intros A p. exact (proj1 (takeWhile_skipWhile_split p (Elements_array A))).
Defined.

Lemma skip_takeWhile_pulls_witness :
  let A := [int 1; int 1; int 2; int 1] in
  pulled (snd (toArray (skip A 3))) = 4%nat /\
  pulled (snd (toArray (takeWhile A (fun x _ => strict_eq x (int 1))))) = 3%nat.
Proof.
  intro A.
  exact (skip_takeWhile_pulls 3 (fun x _ => strict_eq x (int 1)) (Elements_array A)).
Defined.

(* ================================================================== *)
(** ** concat and union                                                *)
(* ================================================================== *)

Section GeneratorLocals.
Context {C I L : Type} `{Iterator I} `{Iterable C I}.

(** The locals a generator's loop ends with are [final_locals]. *)
Lemma gen_loop_locals (it it_end : I) (l : list value) :
  produces it l it_end ->
  forall (fuel : nat) (g : Generator C I L) (s : L), (length l < fuel)%nat ->
  exists g_end,
    locals g_end = final_locals (code g) l s /\
    loop_answer (gen_loop fuel g it s) (outputs (code g) l s) g_end (pending it).
Proof.
  induction 1 as [it it' Hn|it item it1 l it' Hn Hp P IH]; intros fuel g s Hf;
    (destruct fuel as [|fuel]; [simpl in Hf; lia|]); simpl; rewrite Hn.
  - exists (finish g it' s). split; reflexivity.
  - destruct (on_item (code g) s item) as [v s'|s'|s'] eqn:Eo.
    + set (g1 := suspend (pull g) it1 s').
      destruct (IH (S (pending it1)) g1 (resume (code g) s')) as [g_end [El La]].
      { pose proof (produces_length P). lia. }
      exists g_end. split; [exact El|].
      simpl. exists g1. split; [reflexivity|]. split; [simpl; exact Hp|].
      apply loop_answer_produces. exact La.
    + destruct (IH fuel (pull g) s') as [g_end [El La]].
      { simpl in Hf. lia. }
      exists g_end. split; [exact El|].
      eapply loop_answer_bound; [|exact La]. lia.
    + exists (finish (pull g) (return_ it1) s'). split; reflexivity.
Qed.

Lemma generator_produces_locals (source : C) (b : LoopBody L) (init : L)
    (l : list value) :
  Elements source l ->
  exists g_end,
    produces (generator source b init) (outputs b l init) g_end /\
    locals g_end = final_locals b l init.
Proof.
  intros [[it' P] _].
  destruct (gen_loop_locals P (fuel := S (pending (iterator source)))
              (generator source b init) init) as [g_end [El La]].
  { pose proof (produces_length P). lia. }
  exists g_end. split; [|exact El].
  apply loop_answer_produces. exact La.
Qed.

End GeneratorLocals.

Section TwoLoopsFacts.
Context {C1 I1 C2 I2 L : Type}.
Context `{Iterator I1} `{Iterable C1 I1} `{Iterator I2} `{Iterable C2 I2}.

Lemma InSecond_produces (g2 g2_end : Generator C2 I2 L) (l : list value) :
  produces g2 l g2_end ->
  produces (InSecond (C1 := C1) (I1 := I1) g2) l (InSecond g2_end).
Proof.
  induction 1 as [g g' Hn|g v g1 l g' Hn Hp _ IH].
  - apply produces_done. simpl. simpl in Hn. rewrite Hn. reflexivity.
  - apply produces_item with (it1 := InSecond g1).
    + simpl. simpl in Hn. rewrite Hn. reflexivity.
    + exact Hp.
    + exact IH.
Qed.

(** The first loop's values, then the second loop's, entered with the
    locals that the first loop left. *)
Lemma InFirst_produces (g1 g1_end : Generator C1 I1 L) (l1 l2 : list value)
    (source2 : C2) (body2 : LoopBody L) (g2_end : Generator C2 I2 L) :
  produces g1 l1 g1_end ->
  produces (generator source2 body2 (locals g1_end)) l2 g2_end ->
  produces (InFirst g1 source2 body2) (l1 ++ l2) (InSecond g2_end).
Proof.
  intros P1 P2. induction P1 as [g g' Hn|g v g1 l g' Hn Hp _ IH].
  - simpl app. simpl in Hn.
    inversion P2 as [a b Hn2|a w g2 l2' c Hn2 Hp2 P2']; subst.
    + apply produces_done. simpl. rewrite Hn. simpl in Hn2. rewrite Hn2. reflexivity.
    + apply produces_item with (it1 := InSecond g2).
      * simpl. rewrite Hn. simpl in Hn2. rewrite Hn2. reflexivity.
      * change (pending g2 < pending (iterator source2))%nat in Hp2.
        change (pending g2 < pending g + pending (iterator source2))%nat. lia.
      * apply InSecond_produces. exact P2'.
  - simpl app. apply produces_item with (it1 := InFirst g1 source2 body2).
    + simpl. simpl in Hn. rewrite Hn. reflexivity.
    + simpl. simpl in Hp. lia.
    + apply IH. exact P2.
Qed.

Lemma Elements_two_loops (first : C1) (second : C2) (body1 body2 : LoopBody L)
    (init : L) (l1 l2 : list value) :
  Elements first l1 -> Elements second l2 ->
  Elements (two_loops first second body1 body2 init)
    (outputs body1 l1 init ++ outputs body2 l2 (final_locals body1 l1 init)).
Proof.
  intros E1 E2.
  destruct (generator_produces_locals body1 init E1) as [g1_end [P1 El]].
  destruct (generator_produces body2 (locals g1_end) E2) as [g2_end [P2 _]].
  rewrite El in P2 at 2.
  split.
  - exists (InSecond g2_end). unfold two_loops.
    exact (InFirst_produces P1 P2).
  - intros a Ea. discriminate.
Qed.

End TwoLoopsFacts.

Lemma outputs_pass (l : list value) : outputs assertType_body l tt = l.
Proof. induction l as [|x l IH]; simpl; [reflexivity|]. f_equal. exact IH. Qed.

Lemma final_locals_pass (l : list value) : final_locals assertType_body l tt = tt.
Proof. induction l as [|x l IH]; simpl; [reflexivity|exact IH]. Qed.

Lemma outputs_union (comparer : EqualityComparer) (l items : list value) :
  outputs (union_body comparer) l items = first_occurrences comparer items l.
Proof.
  revert items. induction l as [|x l IH]; intro items; simpl; [reflexivity|].
  rewrite (contains_Elements x comparer (Elements_array items)).
  destruct (existsb (fun item => comparer item x) items); simpl.
  - apply IH.
  - f_equal. apply IH.
Qed.

Lemma final_locals_union (comparer : EqualityComparer) (l items : list value) :
  final_locals (union_body comparer) l items
  = items ++ first_occurrences comparer items l.
Proof.
  revert items. induction l as [|x l IH]; intro items; simpl.
  - rewrite app_nil_r. reflexivity.
  - rewrite (contains_Elements x comparer (Elements_array items)).
    destruct (existsb (fun item => comparer item x) items); simpl.
    + apply IH.
    + rewrite IH, <- app_assoc. reflexivity.
Qed.

Lemma first_occurrences_app (eqb : value -> value -> bool) (seen l1 l2 : list value) :
  first_occurrences eqb seen (l1 ++ l2)
  = first_occurrences eqb seen l1
    ++ first_occurrences eqb (seen ++ first_occurrences eqb seen l1) l2.
Proof.
  revert seen. induction l1 as [|x l1 IH]; intro seen; simpl.
  - rewrite app_nil_r. reflexivity.
  - destruct (existsb (fun y => eqb y x) seen); simpl.
    + apply IH.
    + rewrite IH, <- app_assoc. reflexivity.
Qed.

Lemma Elements_assertType {C I : Type} `{Iterator I} `{Iterable C I}
    (source : C) (l : list value) :
  Elements source l -> Elements (assertType source) l.
Proof.
  intro E. rewrite <- (outputs_pass l) at 1.
  apply (Elements_generator assertType_body tt E).
Qed.

Lemma Elements_distinct {C I : Type} `{Iterator I} `{Iterable C I}
    (source : C) (comparer : EqualityComparer) (l : list value) :
  Elements source l ->
  Elements (distinct source comparer) (first_occurrences comparer [] l).
Proof.
  intro E. rewrite <- outputs_distinct.
  apply (Elements_generator (distinct_body comparer) [] E).
Qed.

Section ConcatUnion.
Context {C1 I1 C2 I2 : Type}.
Context `{Iterator I1} `{Iterable C1 I1} `{Iterator I2} `{Iterable C2 I2}.

Lemma Elements_concat (first : C1) (second : C2) (l1 l2 : list value) :
  Elements first l1 -> Elements second l2 -> Elements (concat first second) (l1 ++ l2).
Proof.
  intros E1 E2.
  pose proof (Elements_two_loops assertType_body assertType_body tt E1 E2) as E.
  rewrite final_locals_pass, !outputs_pass in E. exact E.
Qed.

Lemma Elements_union (first : C1) (second : C2) (comparer : EqualityComparer)
    (l1 l2 : list value) :
  Elements first l1 -> Elements second l2 ->
  Elements (union first second comparer) (first_occurrences comparer [] (l1 ++ l2)).
Proof.
  intros E1 E2.
  pose proof (Elements_two_loops (union_body comparer) (union_body comparer) [] E1 E2)
    as E.
  rewrite final_locals_union, !outputs_union in E.
  rewrite first_occurrences_app. exact E.
Qed.

(** X11.  For all finite sources, [concat(first, second)] yields the
    elements of [first] and then those of [second]; it is [assertType], the
    identity stage, when [second] yields nothing, and it asks [second] for
    nothing before [first] is exhausted: built and not traversed, it has
    started neither loop. *)
Theorem concat_spec (first : C1) (second : C2) (l1 l2 : list value) :
  Elements first l1 -> Elements second l2 ->
  fst (toArray (concat first second)) = l1 ++ l2 /\
  fst (toArray (concat first second))
    = fst (toArray first) ++ fst (toArray second) /\
  (l2 = [] -> fst (toArray (concat first second)) = fst (toArray (assertType first))) /\
  concat first second
    = InFirst (mkGenerator suspendedStart assertType_body (Captured first) tt O)
        second assertType_body.
Proof.
  intros E1 E2.
  rewrite (toArray_Elements (Elements_concat E1 E2)).
  rewrite (toArray_Elements E1), (toArray_Elements E2).
  rewrite (toArray_Elements (Elements_assertType E1)).
  split; [reflexivity|]. split; [reflexivity|]. split.
  - intros ->. apply app_nil_r.
  - reflexivity.
Qed.

(** X12.  For all finite sources and every comparer, [union(first, second,
    comparer)] yields what [distinct(concat(first, second), comparer)]
    yields: the first occurrences among the elements of [first] followed
    by those of [second], no two of which the comparer equates. *)
Theorem union_is_distinct_concat (first : C1) (second : C2)
    (comparer : EqualityComparer) (l1 l2 : list value) :
  Elements first l1 -> Elements second l2 ->
  let result := fst (toArray (union first second comparer)) in
  result = fst (toArray (distinct (concat first second) comparer)) /\
  result = first_occurrences comparer [] (l1 ++ l2) /\
  ForallOrdPairs (fun a b => comparer a b = false) result /\
  (forall x, In x result -> In x l1 \/ In x l2).
Proof.
  intros E1 E2 result.
  assert (R : result = first_occurrences comparer [] (l1 ++ l2)).
  { apply toArray_Elements. apply Elements_union; assumption. }
  rewrite (toArray_Elements (Elements_distinct comparer (Elements_concat E1 E2))).
  split; [exact R|]. split; [exact R|]. rewrite R. split.
  - apply first_occurrences_distinct.
  - intros x Hx. apply first_occurrences_unseen in Hx.
    apply in_app_or. exact (proj1 Hx).
Qed.

End ConcatUnion.

Lemma concat_spec_witness :
  fst (toArray (concat [int 1; int 2] [int 3])) = [int 1; int 2; int 3].
Proof.
  exact (proj1 (concat_spec (Elements_array [int 1; int 2]) (Elements_array [int 3]))).
Defined.

Lemma union_is_distinct_concat_witness :
  fst (toArray (union [int 1; int 2; int 1] [int 2; int 3] defaultEqualityComparer))
  = [int 1; int 2; int 3].
Proof.
  destruct (union_is_distinct_concat defaultEqualityComparer
              (Elements_array [int 1; int 2; int 1]) (Elements_array [int 2; int 3]))
    as [_ [R _]].
  exact R.
Defined.

(* ================================================================== *)
(** ** except and intersect                                            *)
(* ================================================================== *)

(** Looking into an array leaves it as it is. *)
Lemma contains_array (a : list value) (v : value) (comparer : EqualityComparer) :
  contains a v comparer = (existsb (fun item => comparer item v) a, a).
Proof.
  pose proof (contains_Elements v comparer (Elements_array a)) as F.
  unfold contains in *. unfold for_of in *. simpl writeback in *.
  destruct (for_of_loop _ _ _ _) as [r it']. simpl in *. rewrite F. reflexivity.
Qed.

Lemma outputs_except_array (comparer : EqualityComparer) (l second : list value) :
  outputs (except_body comparer) l second
  = filter (fun x => negb (existsb (fun y => comparer y x) second)) l.
Proof.
  induction l as [|x l IH]; simpl; [reflexivity|].
  rewrite contains_array.
  destruct (existsb (fun y => comparer y x) second); simpl; [|f_equal]; exact IH.
Qed.

Lemma outputs_intersect_array (comparer : EqualityComparer) (l second : list value) :
  outputs (intersect_body comparer) l second
  = filter (fun x => existsb (fun y => comparer y x) second) l.
Proof.
  induction l as [|x l IH]; simpl; [reflexivity|].
  rewrite contains_array.
  destruct (existsb (fun y => comparer y x) second); simpl; [f_equal|]; exact IH.
Qed.

Lemma filter_negb_length (p : value -> bool) (l : list value) :
  (length (filter p l) + length (filter (fun x => negb (p x)) l) = length l)%nat.
Proof.
  induction l as [|x l IH]; simpl; [reflexivity|].
  destruct (p x); simpl; lia.
Qed.

Section ExceptIntersectArray.
Context {C I : Type} `{Iterator I} `{Iterable C I}.

(** X13.  For every finite [first], every array [second] and every
    comparer, [intersect(first, second, comparer)] yields the elements of
    [first] that the comparer equates with some element of [second], and
    [except] yields the others, both in the order of [first] and with the
    repetitions of [first]: each element of [first] is yielded by exactly
    one of the two. *)
Theorem except_intersect_split (first : C) (second l : list value)
    (comparer : EqualityComparer) :
  Elements first l ->
  let found := fun x => existsb (fun y => comparer y x) second in
  fst (toArray (intersect first second comparer)) = filter found l /\
  fst (toArray (except first second comparer)) = filter (fun x => negb (found x)) l /\
  (length (fst (toArray (intersect first second comparer)))
   + length (fst (toArray (except first second comparer))) = length l)%nat.
Proof.
  intros E found.
  assert (In_ : fst (toArray (intersect first second comparer)) = filter found l).
  { unfold found. rewrite <- (outputs_intersect_array comparer l second).
    apply toArray_Elements.
    apply (Elements_generator (intersect_body comparer) second E). }
  assert (Ex : fst (toArray (except first second comparer))
               = filter (fun x => negb (found x)) l).
  { unfold found. rewrite <- (outputs_except_array comparer l second).
    apply toArray_Elements.
    apply (Elements_generator (except_body comparer) second E). }
  rewrite In_, Ex. split; [reflexivity|]. split; [reflexivity|].
  apply filter_negb_length.
Qed.

End ExceptIntersectArray.

Lemma except_intersect_split_witness :
  fst (toArray (intersect [int 1; int 2; int 1; int 3] [int 1; int 3]
                  defaultEqualityComparer)) = [int 1; int 1; int 3] /\
  fst (toArray (except [int 1; int 2; int 1; int 3] [int 1; int 3]
                  defaultEqualityComparer)) = [int 2].
Proof.
  destruct (except_intersect_split [int 1; int 3] defaultEqualityComparer
              (Elements_array [int 1; int 2; int 1; int 3])) as [In_ [Ex _]].
  split; [exact In_|exact Ex].
Defined.

(** *** A generator as the second sequence *)

Section ExceptIntersectGenerator.
Context {C2 I2 L : Type} `{Iterator I2} `{Iterable C2 I2}.

(** The first look into a generator uses it up. *)
Lemma contains_generator (source2 : C2) (b : LoopBody L) (init : L) (l2 : list value)
    (v : value) (comparer : EqualityComparer) :
  Elements source2 l2 ->
  exists g',
    contains (generator source2 b init) v comparer
    = (existsb (fun item => comparer item v) (outputs b l2 init), g') /\
    gstate g' = completed.
Proof.
  intro E.
  pose proof (contains_Elements v comparer (Elements_generator b init E)) as F.
  destruct (generator_produces b init E) as [g_end [P [Ec _]]].
  assert (Fin : gstate (snd (contains (generator source2 b init) v comparer))
                = completed).
  { unfold contains, for_of.
    set (g := generator source2 b init) in *.
    set (body := fun (_ : unit) item =>
                   if comparer item v then Exit true else Continue tt).
    change (iterator g) with g.
    pose proof (for_of_loop_completes body P Ec (fuel := S (pending g)) tt) as X.
    destruct (for_of_loop body (S (pending g)) g tt) as [r g'] eqn:Er.
    simpl in *. apply X. pose proof (produces_length P). simpl in *. lia. }
  destruct (contains (generator source2 b init) v comparer) as [found g'].
  simpl in *. exists g'. split; [rewrite F; reflexivity|exact Fin].
Qed.

Lemma contains_completed (g : Generator C2 I2 L) (v : value)
    (comparer : EqualityComparer) :
  gstate g = completed -> contains g v comparer = (false, g).
Proof.
  intro Ec. unfold contains, for_of. simpl iterator. cbn [for_of_loop].
  rewrite (completed_next g Ec). reflexivity.
Qed.

Lemma outputs_except_completed (comparer : EqualityComparer) (l : list value)
    (g : Generator C2 I2 L) :
  gstate g = completed -> outputs (except_body comparer) l g = l.
Proof.
  intro Ec. induction l as [|x l IH]; simpl; [reflexivity|].
  rewrite (@contains_completed g x comparer Ec). simpl. f_equal. exact IH.
Qed.

Lemma outputs_intersect_completed (comparer : EqualityComparer) (l : list value)
    (g : Generator C2 I2 L) :
  gstate g = completed -> outputs (intersect_body comparer) l g = [].
Proof.
  intro Ec. induction l as [|x l IH]; simpl; [reflexivity|].
  rewrite (@contains_completed g x comparer Ec). simpl. exact IH.
Qed.

End ExceptIntersectGenerator.

(** X14.  When [second] is itself a stage of the library (a generator
    object) over a finite source, only the first element of [first] is
    compared with it: that look uses the generator up, so [except] yields
    every later element of [first] and [intersect] yields none of them. *)
Theorem except_intersect_use_up_second {C I C2 I2 L : Type}
    `{Iterator I} `{Iterable C I} `{Iterator I2} `{Iterable C2 I2}
    (first : C) (x : value) (rest : list value)
    (source2 : C2) (b : LoopBody L) (init : L) (l2 : list value)
    (comparer : EqualityComparer) :
  Elements first (x :: rest) -> Elements source2 l2 ->
  let second := generator source2 b init in
  let found := existsb (fun y => comparer y x) (outputs b l2 init) in
  fst (toArray (except first second comparer))
    = (if found then [] else [x]) ++ rest /\
  fst (toArray (intersect first second comparer))
    = (if found then [x] else []).
Proof.
  intros E1 E2 second found.
  change (except first second comparer)
    with (generator first (except_body comparer) second).
  change (intersect first second comparer)
    with (generator first (intersect_body comparer) second).
  rewrite (toArray_Elements (Elements_generator (except_body comparer) second E1)).
  rewrite (toArray_Elements (Elements_generator (intersect_body comparer) second E1)).
  cbn [outputs except_body intersect_body on_item resume].
  destruct (contains_generator b init x comparer E2) as [g' [Eq Ec]].
  fold second in Eq. rewrite Eq. subst found.
  destruct (existsb _ _); cbn [negb app];
    rewrite ?(@outputs_except_completed _ _ _ _ _ comparer rest g' Ec),
      ?(@outputs_intersect_completed _ _ _ _ _ comparer rest g' Ec);
    split; reflexivity.
Qed.

Lemma except_intersect_use_up_second_witness :
  let second := where_ [int 9] (fun _ _ => true) in
  fst (toArray (except [int 1; int 9; int 9] second defaultEqualityComparer))
    = [int 1; int 9; int 9] /\
  fst (toArray (intersect [int 1; int 9; int 9] second defaultEqualityComparer)) = [].
Proof.
  exact (except_intersect_use_up_second (where_body (fun _ _ => true)) (mkCounter 0 0)
           defaultEqualityComparer (Elements_array [int 1; int 9; int 9])
           (Elements_array [int 9])).
Defined.

(* ================================================================== *)
(** ** sequenceEqual, zip, reverse and defaultIfEmpty                  *)
(* ================================================================== *)

Lemma number_eq_refl (n : number) : isNaN n = false -> number_eq n n = true.
Proof.
  destruct n as [s|s| |s m e]; try discriminate; intros _;
    unfold number_eq, SFeqb, SFcompare.
  - reflexivity.
  - destruct s; reflexivity.
  - rewrite Z.compare_refl, Pos.compare_cont_refl. destruct s; reflexivity.
Qed.

(** [x === x] fails for [NaN] alone. *)
Lemma strict_eq_refl (x : value) : strict_eq x x = true <-> x <> VNum NaN.
Proof.
  destruct x as [| |b|n|s|r]; simpl.
  - split; [discriminate|reflexivity].
  - split; [discriminate|reflexivity].
  - rewrite Bool.eqb_reflx. split; [discriminate|reflexivity].
  - destruct n as [s0|s0| |s0 m e].
    + split; [discriminate|reflexivity].
    + split; [discriminate|intros _; destruct s0; reflexivity].
    + split; [discriminate|intro X; exfalso; apply X; reflexivity].
    + split; [discriminate|intros _; apply number_eq_refl; reflexivity].
  - rewrite String.eqb_refl. split; [discriminate|reflexivity].
  - rewrite Nat.eqb_refl. split; [discriminate|reflexivity].
Qed.

Lemma same_elements_Forall2 (eqb : value -> value -> bool) (l1 l2 : list value) :
  same_elements eqb l1 l2 = true <-> Forall2 (fun a b => eqb a b = true) l1 l2.
Proof.
  revert l2. induction l1 as [|x l1 IH]; intros [|y l2]; simpl.
  - split; [constructor|reflexivity].
  - split; [discriminate|intro F; inversion F].
  - split; [discriminate|intro F; inversion F].
  - rewrite andb_true_iff, IH. split.
    + intros [E F]. constructor; assumption.
    + intro F. inversion F; subst. split; assumption.
Qed.

Lemma same_elements_refl (l : list value) :
  same_elements strict_eq l l = true <-> ~ In (VNum NaN) l.
Proof.
  induction l as [|x l IH]; simpl.
  - split; [intros _ []|reflexivity].
  - rewrite andb_true_iff, IH, strict_eq_refl. split.
    + intros [N1 N2] [E|E]; [apply N1; exact E|apply N2; exact E].
    + intro N. split; [intro E; apply N; left; exact E|intro E; apply N; right; exact E].
Qed.

Section SequenceEqualFacts.
Context {C1 I1 C2 I2 : Type}.
Context `{Iterator I1} `{Iterable C1 I1} `{Iterator I2} `{Iterable C2 I2}.

Lemma sequenceEqual_loop_produces (comparer : EqualityComparer)
    (it1 e1 : I1) (l1 : list value) :
  produces it1 l1 e1 ->
  forall (it2 e2 : I2) (l2 : list value) (fuel : nat),
    produces it2 l2 e2 -> (length l1 < fuel)%nat ->
    fst (sequenceEqual_loop comparer fuel it1 it2) = same_elements comparer l1 l2.
Proof.
  induction 1 as [it it' Hn|it v it1' l it' Hn Hp P IH];
    intros it2 e2 l2 fuel P2 Hf;
    (destruct fuel as [|fuel]; [simpl in Hf; lia|]);
    cbn [sequenceEqual_loop]; rewrite Hn;
    inversion P2 as [a b Hn2|a w b l' c Hn2 Hp2 P2']; subst; rewrite Hn2;
    try reflexivity.
  cbn [same_elements]. destruct (comparer v w); cbn [negb andb].
  - apply (IH _ _ _ _ P2'). simpl in Hf. lia.
  - reflexivity.
Qed.

Lemma sequenceEqual_Elements (comparer : EqualityComparer)
    (first : C1) (second : C2) (l1 l2 : list value) :
  Elements first l1 -> Elements second l2 ->
  fst (sequenceEqual comparer first second) = same_elements comparer l1 l2.
Proof.
  intros [[e1 P1] _] [[e2 P2] _]. unfold sequenceEqual.
  pose proof (sequenceEqual_loop_produces comparer P1 P2
                (fuel := S (pending (iterator first)))) as X.
  destruct (sequenceEqual_loop comparer _ _ _) as [r [it1 it2]].
  simpl in *. apply X. pose proof (produces_length P1). lia.
Qed.

(** X15.  For all finite sequences and every comparer,
    [sequenceEqual(first, second, comparer)] is [true] exactly when the two
    have the same number of elements and the comparer holds of the elements
    at every position; with the default comparer [===], two sequences with
    the same elements are equal exactly when none of the elements is
    [NaN]. *)
Theorem sequenceEqual_spec (comparer : EqualityComparer)
    (first : C1) (second : C2) (l1 l2 : list value) :
  Elements first l1 -> Elements second l2 ->
  (fst (sequenceEqual comparer first second) = true
   <-> Forall2 (fun a b => comparer a b = true) l1 l2) /\
  (length l1 <> length l2 -> fst (sequenceEqual comparer first second) = false) /\
  (l1 = l2 ->
   (fst (sequenceEqual defaultEqualityComparer first second) = true
    <-> ~ In (VNum NaN) l1)).
Proof.
  intros E1 E2.
  rewrite (sequenceEqual_Elements comparer E1 E2),
    (sequenceEqual_Elements defaultEqualityComparer E1 E2).
  split; [apply same_elements_Forall2|]. split.
  - intro Ne. destruct (same_elements comparer l1 l2) eqn:S; [|reflexivity].
    apply same_elements_Forall2 in S. apply Forall2_length in S. contradiction.
  - intros <-. apply same_elements_refl.
Qed.

End SequenceEqualFacts.

Lemma sequenceEqual_spec_witness :
  fst (sequenceEqual defaultEqualityComparer [int 1; int 2] [int 1; int 2; int 3])
    = false /\
  (fst (sequenceEqual defaultEqualityComparer [VNum NaN] [VNum NaN]) = true
   <-> ~ In (VNum NaN) [VNum NaN]).
Proof.
  destruct (sequenceEqual_spec defaultEqualityComparer
              (Elements_array [int 1; int 2]) (Elements_array [int 1; int 2; int 3]))
    as [_ [Ne _]].
  destruct (sequenceEqual_spec defaultEqualityComparer
              (Elements_array [VNum NaN]) (Elements_array [VNum NaN]))
    as [_ [_ Re]].
  split; [apply Ne; simpl; lia|apply Re; reflexivity].
Defined.

(** *** zip *)

Lemma zip_with_length (f : value -> value -> value) (l1 l2 : list value) :
  length (zip_with f l1 l2) = Nat.min (length l1) (length l2).
Proof.
  revert l2. induction l1 as [|x l1 IH]; intros [|y l2]; simpl; try reflexivity.
  rewrite IH. reflexivity.
Qed.

Lemma zip_with_nth (f : value -> value -> value) (l1 l2 : list value) (k : nat) :
  (k < length l1)%nat -> (k < length l2)%nat ->
  nth k (zip_with f l1 l2) undefined = f (nth k l1 undefined) (nth k l2 undefined).
Proof.
  revert l2 k. induction l1 as [|x l1 IH]; intros [|y l2] [|k] H1 H2;
    simpl in *; try lia; try reflexivity.
  apply IH; lia.
Qed.

Lemma array_nexts (a : list value) (n i : nat) :
  nexts n (mkArrayIterator a i)
  = mkArrayIterator a (if Nat.leb (length a) i then i else Nat.min (n + i) (length a)).
Proof.
  revert i. induction n as [|n IH]; intro i.
  - simpl. destruct (Nat.leb (length a) i) eqn:E; [reflexivity|].
    apply Nat.leb_gt in E. f_equal. lia.
  - cbn [nexts]. simpl next. unfold array_next. cbn [iterated nextIndex].
    destruct (nth_error a i) as [v|] eqn:Ev.
    + assert (Hi : (i < length a)%nat) by (apply nth_error_Some; congruence).
      cbn [snd]. rewrite IH.
      destruct (Nat.leb (length a) i) eqn:E1; [apply Nat.leb_le in E1; lia|].
      destruct (Nat.leb (length a) (S i)) eqn:E2; f_equal.
      * apply Nat.leb_le in E2. lia.
      * apply Nat.leb_gt in E2. lia.
    + apply nth_error_None in Ev. cbn [snd]. rewrite IH.
      destruct (Nat.leb (length a) i) eqn:E1; [reflexivity|].
      apply Nat.leb_gt in E1. lia.
Qed.

Section ZipFacts.
Context {C1 I1 C2 I2 : Type}.
Context `{Iterator I1} `{Iterable C1 I1} `{Iterator I2} `{Iterable C2 I2}.

(** A paused [zip] whose iterators still deliver [l1] and [l2]: every
    round calls [next] on both. *)
Lemma zip_produces (f : value -> value -> value) (it1 e1 : I1) (l1 : list value) :
  produces it1 l1 e1 ->
  forall (it2 e2 : I2) (l2 : list value),
    produces it2 l2 e2 ->
    let n := S (Nat.min (length l1) (length l2)) in
    produces (ZipPaused (C1 := C1) (C2 := C2) it1 it2 f) (zip_with f l1 l2)
      (ZipCompleted (Some (nexts n it1, nexts n it2))).
Proof.
  induction 1 as [it it' Hn|it v it1' l it' Hn Hp P IH]; intros it2 e2 l2 P2 n;
    inversion P2 as [a b Hn2|a w b l' c Hn2 Hp2 P2']; subst; subst n;
    cbn [zip_with length Nat.min nexts]; rewrite ?Hn, ?Hn2; cbn [snd].
  - apply produces_done. simpl. unfold zip_round. rewrite Hn, Hn2. reflexivity.
  - apply produces_done. simpl. unfold zip_round. rewrite Hn, Hn2. reflexivity.
  - apply produces_done. simpl. unfold zip_round. rewrite Hn, Hn2. reflexivity.
  - apply produces_item with (it1 := ZipPaused it1' b f).
    + simpl. unfold zip_round. rewrite Hn, Hn2. reflexivity.
    + simpl. exact Hp.
    + apply (IH _ _ _ P2').
Qed.

Lemma zip_start_produces (f : value -> value -> value) (first : C1) (second : C2)
    (l : list value) (g_end : ZipGenerator C1 I1 C2 I2) :
  produces (ZipPaused (C1 := C1) (C2 := C2) (iterator first) (iterator second) f) l g_end ->
  produces (zip first second f) l g_end.
Proof.
  intro P. inversion P as [a b Hn|a w b l' c Hn Hp P']; subst.
  - apply produces_done. exact Hn.
  - eapply produces_item; [exact Hn|exact Hp|exact P'].
Qed.

Lemma Elements_zip (f : value -> value -> value) (first : C1) (second : C2)
    (l1 l2 : list value) :
  Elements first l1 -> Elements second l2 ->
  Elements (zip first second f) (zip_with f l1 l2).
Proof.
  intros [[e1 P1] _] [[e2 P2] _]. split; [|intros a Ea; discriminate].
  eexists. apply zip_start_produces. apply (zip_produces f P1 P2).
Qed.

(** X16.  For all finite sequences, [zip(first, second, resultSelector)]
    yields [resultSelector(first[k], second[k])] for every position [k]
    that both sequences have, in order: as many values as the shorter
    sequence has elements. *)
Theorem zip_spec (f : value -> value -> value) (first : C1) (second : C2)
    (l1 l2 : list value) :
  Elements first l1 -> Elements second l2 ->
  let result := fst (toArray (zip first second f)) in
  result = zip_with f l1 l2 /\
  length result = Nat.min (length l1) (length l2) /\
  forall k, (k < length l1)%nat -> (k < length l2)%nat ->
    nth k result undefined = f (nth k l1 undefined) (nth k l2 undefined).
Proof.
  intros E1 E2 result.
  assert (R : result = zip_with f l1 l2).
  { apply toArray_Elements. apply Elements_zip; assumption. }
  rewrite R. split; [reflexivity|]. split.
  - apply zip_with_length.
  - intros k Hk1 Hk2. apply zip_with_nth; assumption.
Qed.

End ZipFacts.

(** X17.  A full traversal of [zip] calls [next()] on each of the two
    iterators once more than it yields values, and closes neither: it is
    left holding the two iterators after [min(|first|, |second|) + 1] calls
    each.  So when [second] is the shorter one, [first] has been asked for
    one element that appears in no pair: over an array [first], the array's
    iterator is left one position past the length of [second]. *)
Theorem zip_reads_ahead {C1 I1 C2 I2 : Type}
    `{Iterator I1} `{Iterable C1 I1} `{Iterator I2} `{Iterable C2 I2}
    (f : value -> value -> value) (first : C1) (second : C2)
    (l1 l2 : list value) (a : list value) :
  Elements first l1 -> Elements second l2 ->
  let n := S (Nat.min (length l1) (length l2)) in
  snd (toArray (zip first second f))
    = ZipCompleted (Some (nexts n (iterator first), nexts n (iterator second))) /\
  ((length l2 < length a)%nat ->
   exists it2,
     snd (toArray (zip a second f))
       = ZipCompleted (Some (mkArrayIterator a (S (length l2)), it2))).
Proof.
  intros [[e1 P1] _] [[e2 P2] _] n. split.
  - pose proof (zip_start_produces first second (zip_produces f P1 P2)) as P.
    change (zip first second f) with (iterator (zip first second f)) in P.
    rewrite (toArray_exhausts _ P). reflexivity.
  - intro Lt. destruct (Elements_array a) as [[ea Pa] _].
    pose proof (zip_start_produces a second (zip_produces f Pa P2)) as P.
    change (zip a second f) with (iterator (zip a second f)) in P.
    rewrite (toArray_exhausts _ P). cbn [snd writeback ZipGenerator_Iterable].
    eexists. f_equal. f_equal. f_equal.
    cbn [iterator Array_Iterable]. rewrite array_nexts.
    destruct (Nat.leb (length a) 0) eqn:E; [apply Nat.leb_le in E; lia|].
    f_equal. lia.
Qed.

Lemma zip_spec_witness :
  fst (toArray (zip [int 1; int 2; int 3] [int 10; int 20] (fun a b => b)))
    = [int 10; int 20].
Proof.
  exact (proj1 (zip_spec (fun a b => b) (Elements_array [int 1; int 2; int 3])
                  (Elements_array [int 10; int 20]))).
Defined.

Lemma zip_reads_ahead_witness :
  exists it2,
    snd (toArray (zip [int 1; int 2; int 3] [int 10] (fun a b => b)))
      = ZipCompleted (Some (mkArrayIterator [int 1; int 2; int 3] 2, it2)).
Proof.
  refine (proj2 (zip_reads_ahead (fun a b => b) [int 1; int 2; int 3]
                   (Elements_array [int 7]) (Elements_array [int 10])) _).
  simpl. lia.
Defined.

(** *** reverse *)

Section ReverseFacts.
Context {C I : Type} `{Iterator I} `{Iterable C I}.

Lemma reverseArray_produces (array : list value) (i : nat) :
  (i <= length array)%nat ->
  produces (ReversePaused (C := C) (I := I) array i) (rev (firstn i array))
    ReverseCompleted.
Proof.
  induction i as [|i IH]; intro Hi.
  - apply produces_done. reflexivity.
  - rewrite (firstn_snoc_nth array (i := i) undefined) by lia.
    rewrite rev_app_distr. cbn [rev app].
    apply produces_item with (it1 := ReversePaused array i).
    + reflexivity.
    + simpl. lia.
    + apply IH. lia.
Qed.

Lemma reverse_array_of (source : C) (l : list value) :
  Elements source l ->
  match asArray source with Some a => a | None => fst (toArray source) end = l.
Proof.
  intro E. destruct (asArray source) as [a|] eqn:Ea.
  - exact (proj2 E a Ea).
  - apply toArray_Elements. exact E.
Qed.

Lemma Elements_reverse (source : C) (l : list value) :
  Elements source l -> Elements (reverse source) (rev l).
Proof.
  intro E. split; [|intros a Ea; discriminate].
  exists ReverseCompleted.
  pose proof (reverseArray_produces l (i := length l) (Nat.le_refl _)) as P.
  rewrite firstn_all in P.
  assert (B : (length l <= pending (iterator source))%nat).
  { destruct E as [[it' P'] _]. exact (produces_length P'). }
  inversion P as [a b Hn Hl|a w b l' c Hn Hp P' Hl]; subst.
  - apply produces_done. simpl. rewrite (reverse_array_of E).
    destruct (length l); [reflexivity|discriminate].
  - eapply produces_item with (it1 := b); [| |exact P'].
    + simpl. rewrite (reverse_array_of E). exact Hn.
    + simpl in *. destruct (length l) as [|k]; [discriminate|].
      inversion Hn; subst. simpl. lia.
Qed.

End ReverseFacts.

(** X18.  For every finite source, an array or not, [reverse(source)]
    yields the elements of the source from the last to the first, and
    reversing twice gives the sequence back. *)
Theorem reverse_spec {C I : Type} `{Iterator I} `{Iterable C I}
    (source : C) (l : list value) :
  Elements source l ->
  fst (toArray (reverse source)) = rev l /\
  fst (toArray (reverse (reverse source))) = l /\
  (forall k, (k < length l)%nat ->
     nth k (fst (toArray (reverse source))) undefined
     = nth (length l - S k) l undefined).
Proof.
  intro E.
  rewrite (toArray_Elements (Elements_reverse E)).
  rewrite (toArray_Elements (Elements_reverse (Elements_reverse E))).
  split; [reflexivity|]. split; [apply rev_involutive|].
  intros k Hk. apply rev_nth. exact Hk.
Qed.

Lemma reverse_spec_witness :
  fst (toArray (reverse (where_ [int 1; int 2; int 3] (fun _ _ => true))))
    = [int 3; int 2; int 1].
Proof.
  exact (proj1 (reverse_spec
                  (Elements_where (fun _ _ => true)
                     (Elements_array [int 1; int 2; int 3])))).
Defined.

(** *** defaultIfEmpty and undefinedIfEmpty *)

Section DefaultFacts.
Context {C I : Type} `{Iterator I} `{Iterable C I}.

Lemma default_paused_produces (it it' : I) (l : list value) :
  produces it l it' ->
  produces (DefaultPaused (C := C) it) l (DefaultCompleted (Some it')).
Proof.
  induction 1 as [it it' Hn|it v it1 l it' Hn Hp _ IH].
  - apply produces_done. simpl. rewrite Hn. reflexivity.
  - apply produces_item with (it1 := DefaultPaused it1).
    + simpl. rewrite Hn. reflexivity.
    + simpl. exact Hp.
    + exact IH.
Qed.

(** A sequence that is not empty passes through. *)
Lemma Elements_defaultIfEmpty (source : C) (d x : value) (l : list value) :
  Elements source (x :: l) -> Elements (defaultIfEmpty source d) (x :: l).
Proof.
  intros [[it' P] _]. split; [|intros a Ea; discriminate].
  inversion P as [|a w b l' c Hn Hp P']; subst.
  exists (DefaultCompleted (Some it')).
  apply produces_item with (it1 := DefaultPaused b).
  - simpl. rewrite Hn. reflexivity.
  - simpl in *. lia.
  - apply default_paused_produces. exact P'.
Qed.

(** X19.  For every finite source, [defaultIfEmpty(source, d)] yields the
    elements of a source that has some, unchanged and without [d]; over a
    source that yields nothing, and whose exhausted iterator answers
    [done] again when asked again, it yields [d] alone.  [undefinedIfEmpty]
    is [defaultIfEmpty] with [undefined].  *)
Theorem defaultIfEmpty_spec (source : C) (d : value) (l : list value) :
  Elements source l ->
  (l <> [] ->
   fst (toArray (defaultIfEmpty source d)) = l /\
   fst (toArray (undefinedIfEmpty source)) = l) /\
  (l = [] ->
   (forall it', next (iterator source) = (Finished, it') -> fst (next it') = Finished) ->
   fst (toArray (defaultIfEmpty source d)) = [d] /\
   fst (toArray (undefinedIfEmpty source)) = [undefined]).
Proof.
  intro E. split.
  - intro Ne. destruct l as [|x l]; [contradiction|].
    split; apply toArray_Elements; apply Elements_defaultIfEmpty; exact E.
  - intros -> Again. destruct E as [[it' P] _].
    inversion P as [a b Hn|]; subst.
    specialize (Again _ Hn).
    assert (T : forall v, fst (toArray (defaultIfEmpty source v)) = [v]).
    { intro v. unfold toArray, for_of.
      cbn [iterator writeback DefaultGenerator_Iterable pending
           DefaultGenerator_Iterator default_pending defaultIfEmpty].
      cbn [for_of_loop next DefaultGenerator_Iterator default_next].
      unfold defaultIfEmpty. cbn [default_next]. rewrite Hn. cbn [default_next].
      destruct (next it') as [r it''] eqn:En. simpl in Again. subst r.
      reflexivity. }
    split; [apply T|apply (T undefined)].
Qed.

End DefaultFacts.

Lemma defaultIfEmpty_spec_witness :
  fst (toArray (defaultIfEmpty [int 1; int 2] (int 0))) = [int 1; int 2] /\
  fst (toArray (defaultIfEmpty (where_ [int 1] (fun _ _ => false)) (int 0))) = [int 0].
Proof.
  split.
  - refine (proj1 (proj1 (defaultIfEmpty_spec (int 0)
                     (Elements_array [int 1; int 2])) _)).
    discriminate.
  - refine (proj1 (proj2 (defaultIfEmpty_spec (int 0)
                     (Elements_where (fun _ _ => false) (Elements_array [int 1])))
                     eq_refl _)).
    intros it' E. vm_compute in E. inversion E. reflexivity.
Defined.

(* ================================================================== *)
(** ** The hash variants                                               *)
(* ================================================================== *)

Lemma outputs_unionHash_distinctHash (hash : Hash) (l : list value) (h : HashSet) :
  outputs (unionHash_body hash) l h = outputs (distinctHash_body hash) l h.
Proof.
  revert h. induction l as [|x l IH]; intro h; simpl; [reflexivity|].
  destruct (strict_eq (hs_get h (hash x)) undefined); simpl.
  - f_equal. apply IH.
  - apply IH.
Qed.

Lemma outputs_distinctHash_app (hash : Hash) (l1 l2 : list value) (h : HashSet) :
  outputs (distinctHash_body hash) (l1 ++ l2) h
  = outputs (unionHash_body hash) l1 h
    ++ outputs (unionHash_body hash) l2 (final_locals (unionHash_body hash) l1 h).
Proof.
  revert h. induction l1 as [|x l1 IH]; intro h; simpl.
  - symmetry. apply outputs_unionHash_distinctHash.
  - destruct (strict_eq (hs_get h (hash x)) undefined); simpl.
    + f_equal. apply IH.
    + apply IH.
Qed.

Lemma Elements_distinctHash {C I : Type} `{Iterator I} `{Iterable C I}
    (source : C) (hash : Hash) (l : list value) :
  Elements source l ->
  Elements (distinctHash source hash) (outputs (distinctHash_body hash) l []).
Proof. intro E. apply (Elements_generator (distinctHash_body hash) [] E). Qed.

Section UnionHash.
Context {C1 I1 C2 I2 : Type}.
Context `{Iterator I1} `{Iterable C1 I1} `{Iterator I2} `{Iterable C2 I2}.

Lemma Elements_unionHash (first : C1) (second : C2) (hash : Hash)
    (l1 l2 : list value) :
  Elements first l1 -> Elements second l2 ->
  Elements (unionHash first second hash)
    (outputs (distinctHash_body hash) (l1 ++ l2) []).
Proof.
  intros E1 E2. rewrite outputs_distinctHash_app.
  apply (Elements_two_loops (unionHash_body hash) (unionHash_body hash) [] E1 E2).
Qed.

End UnionHash.

(** X20.  For all finite sources and every hash, [unionHash(first, second,
    hash)] yields what [distinctHash(concat(first, second), hash)] yields;
    and when the hash gives two elements the same key exactly when they
    are [===], and no element is [undefined], it yields what [union(first,
    second)] yields with the default comparer. *)
Theorem unionHash_spec {C1 I1 C2 I2 : Type}
    `{Iterator I1} `{Iterable C1 I1} `{Iterator I2} `{Iterable C2 I2}
    (first : C1) (second : C2) (hash : Hash) (l1 l2 : list value) :
  Elements first l1 -> Elements second l2 ->
  fst (toArray (unionHash first second hash))
    = fst (toArray (distinctHash (concat first second) hash)) /\
  ((forall a b, In a (l1 ++ l2) -> In b (l1 ++ l2) ->
      same_key (hash a) (hash b) = strict_eq a b) ->
   (forall a, In a (l1 ++ l2) -> a <> undefined) ->
   fst (toArray (unionHash first second hash))
     = fst (toArray (union first second defaultEqualityComparer))).
Proof.
  intros E1 E2.
  rewrite (toArray_Elements (Elements_unionHash hash E1 E2)).
  rewrite (toArray_Elements (Elements_distinctHash hash (Elements_concat E1 E2))).
  split; [reflexivity|]. intros Compatible Defined_.
  rewrite (toArray_Elements (Elements_union defaultEqualityComparer E1 E2)).
  apply (@outputs_distinctHash (l1 ++ l2) hash Compatible Defined_ (l1 ++ l2) [] []).
  - apply incl_refl.
  - intros x _. reflexivity.
Qed.

Lemma unionHash_spec_witness :
  fst (toArray (unionHash [int 1; int 2; int 1] [int 2; int 3] defaultHash))
    = fst (toArray (union [int 1; int 2; int 1] [int 2; int 3]
                      defaultEqualityComparer)).
Proof.
  refine (proj2 (unionHash_spec defaultHash (Elements_array [int 1; int 2; int 1])
                   (Elements_array [int 2; int 3])) _ _).
  - intros a b [<-|[<-|[<-|[<-|[<-|[]]]]]] [<-|[<-|[<-|[<-|[<-|[]]]]]]; reflexivity.
  - intros a [<-|[<-|[<-|[<-|[<-|[]]]]]]; discriminate.
Defined.

(** *** makeHashSet, exceptHash and intersectHash *)

Lemma run_loop_makeHashSet (hash : Hash) (l : list value) (h : HashSet) :
  run_loop (R := Empty_set)
    (fun hashSet item => Continue (hs_set hashSet (hash item) item)) l h
  = Continue (fold_left (fun hashSet item => hs_set hashSet (hash item) item) l h).
Proof.
  revert h. induction l as [|x l IH]; intro h; simpl; [reflexivity|apply IH].
Qed.

Lemma makeHashSet_Elements {C I : Type} `{Iterator I} `{Iterable C I}
    (source : C) (hash : Hash) (l : list value) :
  Elements source l ->
  fst (makeHashSet source hash)
  = fold_left (fun hashSet item => hs_set hashSet (hash item) item) l [].
Proof.
  intro E. unfold makeHashSet. loop_over E. rewrite run_loop_makeHashSet.
  reflexivity.
Qed.

(** A key is in the hash set of [l] exactly when it is the key of an
    element of [l], provided no element is [undefined]. *)
Lemma hs_get_fold (hash : Hash) (l : list value) (h : HashSet) (key : number) :
  (forall y, In y l -> y <> undefined) ->
  negb (strict_eq
          (hs_get (fold_left (fun hashSet item => hs_set hashSet (hash item) item) l h)
             key) undefined)
  = existsb (fun y => same_key (hash y) key) l
    || negb (strict_eq (hs_get h key) undefined).
Proof.
  revert h. induction l as [|y l IH]; intros h Defined_; simpl; [reflexivity|].
  rewrite IH by (intros z Hz; apply Defined_; right; exact Hz).
  simpl. destruct (same_key (hash y) key); simpl.
  - rewrite (strict_eq_not_undefined (Defined_ y (or_introl eq_refl))).
    simpl. apply orb_true_r.
  - reflexivity.
Qed.

Lemma outputs_exceptHash (hash : Hash) (l : list value) (h : HashSet) :
  outputs (exceptHash_body hash) l h
  = filter (fun x => strict_eq (hs_get h (hash x)) undefined) l.
Proof.
  induction l as [|x l IH]; simpl; [reflexivity|].
  destruct (strict_eq (hs_get h (hash x)) undefined); simpl; [f_equal|]; exact IH.
Qed.

Lemma outputs_intersectHash (hash : Hash) (l : list value) (h : HashSet) :
  outputs (intersectHash_body hash) l h
  = filter (fun x => negb (strict_eq (hs_get h (hash x)) undefined)) l.
Proof.
  induction l as [|x l IH]; simpl; [reflexivity|].
  destruct (strict_eq (hs_get h (hash x)) undefined); simpl; [|f_equal]; exact IH.
Qed.

Section HashFilterFacts.
Context {C I C2 I2 : Type}.
Context `{Iterator I} `{Iterable C I} `{Iterator I2} `{Iterable C2 I2}.

Lemma HashFilterLoop_produces (g g_end : Generator C I HashSet) (second : C2)
    (l : list value) :
  produces g l g_end ->
  produces (HashFilterLoop (I2 := I2) g second) l (HashFilterLoop g_end second).
Proof.
  induction 1 as [g g' Hn|g v g1 l g' Hn Hp _ IH].
  - apply produces_done. simpl. simpl in Hn. rewrite Hn. reflexivity.
  - apply produces_item with (it1 := HashFilterLoop g1 second).
    + simpl. simpl in Hn. rewrite Hn. reflexivity.
    + exact Hp.
    + exact IH.
Qed.

(** The hash set of [second] is built once, when the traversal starts, and
    the loop over [first] then runs with it. *)
Lemma Elements_HashFilter (first : C) (second : C2) (hash : Hash)
    (body : LoopBody HashSet) (l1 : list value) :
  Elements first l1 ->
  Elements (HashFilterStart (I := I) (I2 := I2) first second hash body)
    (outputs body l1 (fst (makeHashSet second hash))).
Proof.
  intro E1. split; [|intros a Ea; discriminate].
  destruct (generator_produces body (fst (makeHashSet second hash)) E1)
    as [g_end [P _]].
  exists (HashFilterLoop g_end (snd (makeHashSet second hash))).
  cbn [iterator HashFilter_Iterable].
  inversion P as [a b Hn|a w g1 l' c Hn Hp P']; subst.
  - apply produces_done. simpl. destruct (makeHashSet second hash) as [h second'].
    simpl in *. rewrite Hn. reflexivity.
  - apply produces_item with (it1 := HashFilterLoop g1 (snd (makeHashSet second hash))).
    + simpl. destruct (makeHashSet second hash) as [h second'].
      simpl in *. rewrite Hn. reflexivity.
    + exact Hp.
    + apply HashFilterLoop_produces. exact P'.
Qed.

End HashFilterFacts.

(** X21.  For all finite sources, whatever kind of iterable [second] is,
    and every hash, when no element of [second] is [undefined]:
    [intersectHash(first, second, hash)] yields the elements of [first]
    whose key is the key of some element of [second], and [exceptHash]
    yields the others, in the order of [first] and with its repetitions.
    When the hash gives two elements the same key exactly when they are
    [===], these are what [intersect] and [except] yield, with the default
    comparer, for [first] and the array of the elements of [second]. *)
Theorem exceptHash_intersectHash_spec {C I C2 I2 : Type}
    `{Iterator I} `{Iterable C I} `{Iterator I2} `{Iterable C2 I2}
    (first : C) (second : C2) (hash : Hash) (l1 l2 : list value) :
  Elements first l1 -> Elements second l2 ->
  (forall y, In y l2 -> y <> undefined) ->
  let found := fun x => existsb (fun y => same_key (hash y) (hash x)) l2 in
  fst (toArray (intersectHash first second hash)) = filter found l1 /\
  fst (toArray (exceptHash first second hash)) = filter (fun x => negb (found x)) l1 /\
  ((forall a b, In a (l1 ++ l2) -> In b (l1 ++ l2) ->
      same_key (hash a) (hash b) = strict_eq a b) ->
   fst (toArray (intersectHash first second hash))
     = fst (toArray (intersect first l2 defaultEqualityComparer)) /\
   fst (toArray (exceptHash first second hash))
     = fst (toArray (except first l2 defaultEqualityComparer))).
Proof.
  intros E1 E2 Defined_ found.
  assert (K : forall x,
             negb (strict_eq (hs_get (fst (makeHashSet second hash)) (hash x)) undefined)
             = found x).
  { intro x. rewrite (makeHashSet_Elements hash E2), hs_get_fold by exact Defined_.
    simpl. apply orb_false_r. }
  assert (In_ : fst (toArray (intersectHash first second hash)) = filter found l1).
  { unfold intersectHash.
    rewrite (toArray_Elements
               (Elements_HashFilter second hash (intersectHash_body hash) E1)).
    rewrite outputs_intersectHash. apply filter_ext. exact K. }
  assert (Ex : fst (toArray (exceptHash first second hash))
               = filter (fun x => negb (found x)) l1).
  { unfold exceptHash.
    rewrite (toArray_Elements
               (Elements_HashFilter second hash (exceptHash_body hash) E1)).
    rewrite outputs_exceptHash. apply filter_ext. intro x.
    rewrite <- K, negb_involutive. reflexivity. }
  split; [exact In_|]. split; [exact Ex|]. intro Compatible.
  assert (F : forall x, In x l1 ->
              found x = existsb (fun y => defaultEqualityComparer y x) l2).
  { intros x Hx. unfold found. clear - Compatible Hx.
    assert (G : forall l, incl l l2 ->
                existsb (fun y => same_key (hash y) (hash x)) l
                = existsb (fun y => defaultEqualityComparer y x) l).
    { induction l as [|y l IH]; intro Incl; simpl; [reflexivity|].
      rewrite IH by (intros z Hz; apply Incl; right; exact Hz).
      rewrite Compatible.
      - reflexivity.
      - apply in_or_app. right. apply Incl. left. reflexivity.
      - apply in_or_app. left. exact Hx. }
    apply G. apply incl_refl. }
  rewrite In_, Ex.
  change (intersect first l2 defaultEqualityComparer)
    with (generator first (intersect_body (C2 := list value) defaultEqualityComparer) l2).
  change (except first l2 defaultEqualityComparer)
    with (generator first (except_body (C2 := list value) defaultEqualityComparer) l2).
  rewrite (toArray_Elements
             (Elements_generator (intersect_body defaultEqualityComparer) l2 E1)).
  rewrite (toArray_Elements
             (Elements_generator (except_body defaultEqualityComparer) l2 E1)).
  rewrite outputs_intersect_array, outputs_except_array.
  split; apply filter_ext_in; intros x Hx; rewrite (F x Hx); reflexivity.
Qed.

Lemma exceptHash_intersectHash_spec_witness :
  let second := where_ [int 1; int 3] (fun _ _ => true) in
  fst (toArray (intersectHash [int 1; int 2; int 3; int 1] second defaultHash))
    = [int 1; int 3; int 1] /\
  fst (toArray (exceptHash [int 1; int 2; int 3; int 1] second defaultHash))
    = [int 2].
Proof.
  destruct (exceptHash_intersectHash_spec defaultHash
              (Elements_array [int 1; int 2; int 3; int 1])
              (Elements_where (fun _ _ => true) (Elements_array [int 1; int 3])))
    as [In_ [Ex _]].
  - intros y [<-|[<-|[]]]; discriminate.
  - split; [exact In_|exact Ex].
Defined.

(* ================================================================== *)
(** ** Numbers: max, min, sum and average                              *)
(* ================================================================== *)

Lemma number_lt_irrefl (x : number) : number_lt x x = false.
Proof.
  destruct (number_lt x x) eqn:E; [|reflexivity].
  pose proof (number_lt_asym _ _ E). congruence.
Qed.

(** "Not less than" is transitive through a number that is not NaN. *)
Lemma number_nlt_trans (x y z : number) :
  isNaN y = false ->
  number_lt x y = false -> number_lt y z = false -> number_lt x z = false.
Proof.
  unfold number_lt, SFltb, SFcompare.
  destruct x as [sx|sx| |sx mx ex], y as [sy|sy| |sy my ey], z as [sz|sz| |sz mz ez];
    intros N; try discriminate N; clear N;
    try reflexivity;
    try (destruct sx; try reflexivity; destruct sy; try reflexivity;
         destruct sz; try reflexivity; intros; discriminate);
    try (destruct sx, sy; try reflexivity; intros; discriminate);
    try (destruct sy, sz; try reflexivity; intros; discriminate);
    try (destruct sx, sz; try reflexivity; intros; discriminate);
    try (destruct sx; intros; try reflexivity; discriminate);
    try (destruct sy; intros; try reflexivity; discriminate);
    try (destruct sz; intros; try reflexivity; discriminate).
  all: change (Pos.compare_cont Eq mx my) with (Pos.compare mx my);
    change (Pos.compare_cont Eq my mz) with (Pos.compare my mz);
    change (Pos.compare_cont Eq mx mz) with (Pos.compare mx mz).
  all: destruct sx, sy, sz; try reflexivity; try (intros; discriminate);
    destruct (Z.compare_spec ex ey); try (intros; discriminate);
    destruct (Z.compare_spec ey ez); try (intros; discriminate);
    destruct (Z.compare_spec ex ez); try reflexivity; try lia;
    destruct (Pos.compare_spec mx my); simpl; try (intros; discriminate);
    destruct (Pos.compare_spec my mz); simpl; try (intros; discriminate);
    destruct (Pos.compare_spec mx mz); simpl; try reflexivity; try lia.
Qed.

Lemma Math_max_NaN (a b : number) :
  isNaN a = true \/ isNaN b = true -> Math_max a b = NaN.
Proof.
  unfold Math_max. intros [E|E]; rewrite E; [reflexivity|].
  rewrite orb_true_r. reflexivity.
Qed.

Lemma Math_min_NaN (a b : number) :
  isNaN a = true \/ isNaN b = true -> Math_min a b = NaN.
Proof.
  unfold Math_min. intros [E|E]; rewrite E; [reflexivity|].
  rewrite orb_true_r. reflexivity.
Qed.

(** [Math.max] of two numbers is one of them, and neither is above it. *)
Lemma Math_max_bound (a b : number) :
  isNaN a = false -> isNaN b = false ->
  (Math_max a b = a \/ Math_max a b = b) /\
  number_lt (Math_max a b) a = false /\ number_lt (Math_max a b) b = false.
Proof.
  intros Na Nb. unfold Math_max. rewrite Na, Nb. simpl.
  destruct (is_neg_zero a && is_pos_zero b) eqn:Z.
  - apply andb_true_iff in Z. destruct Z as [Za Zb].
    destruct a as [[|]| | |]; try discriminate.
    destruct b as [[|]| | |]; try discriminate.
    split; [right; reflexivity|]. split; reflexivity.
  - destruct (number_lt a b) eqn:Lt.
    + split; [right; reflexivity|]. split.
      * apply number_lt_asym. exact Lt.
      * apply number_lt_irrefl.
    + split; [left; reflexivity|]. split.
      * apply number_lt_irrefl.
      * exact Lt.
Qed.

Lemma Math_min_bound (a b : number) :
  isNaN a = false -> isNaN b = false ->
  (Math_min a b = a \/ Math_min a b = b) /\
  number_lt a (Math_min a b) = false /\ number_lt b (Math_min a b) = false.
Proof.
  intros Na Nb. unfold Math_min. rewrite Na, Nb. simpl.
  destruct (is_pos_zero a && is_neg_zero b) eqn:Z.
  - apply andb_true_iff in Z. destruct Z as [Za Zb].
    destruct a as [[|]| | |]; try discriminate.
    destruct b as [[|]| | |]; try discriminate.
    split; [right; reflexivity|]. split; reflexivity.
  - destruct (number_lt b a) eqn:Lt.
    + split; [right; reflexivity|]. split.
      * apply number_lt_asym. exact Lt.
      * apply number_lt_irrefl.
    + split; [left; reflexivity|]. split.
      * apply number_lt_irrefl.
      * exact Lt.
Qed.

Lemma fold_max_NaN (ys : list number) (acc : number) :
  isNaN acc = true \/ (exists y, In y ys /\ isNaN y = true) ->
  fold_left Math_max ys acc = NaN.
Proof.
  revert acc. induction ys as [|y ys IH]; intros acc [E|[z [Hz E]]]; simpl.
  - destruct acc; try discriminate. reflexivity.
  - contradiction.
  - apply IH. left. rewrite Math_max_NaN by (left; exact E). reflexivity.
  - destruct Hz as [->|Hz].
    + apply IH. left. rewrite Math_max_NaN by (right; exact E). reflexivity.
    + apply IH. right. exists z. split; assumption.
Qed.

Lemma fold_min_NaN (ys : list number) (acc : number) :
  isNaN acc = true \/ (exists y, In y ys /\ isNaN y = true) ->
  fold_left Math_min ys acc = NaN.
Proof.
  revert acc. induction ys as [|y ys IH]; intros acc [E|[z [Hz E]]]; simpl.
  - destruct acc; try discriminate. reflexivity.
  - contradiction.
  - apply IH. left. rewrite Math_min_NaN by (left; exact E). reflexivity.
  - destruct Hz as [->|Hz].
    + apply IH. left. rewrite Math_min_NaN by (right; exact E). reflexivity.
    + apply IH. right. exists z. split; assumption.
Qed.

Lemma fold_max_bound (ys : list number) (acc : number) :
  isNaN acc = false -> (forall y, In y ys -> isNaN y = false) ->
  let r := fold_left Math_max ys acc in
  isNaN r = false /\ (r = acc \/ In r ys) /\
  number_lt r acc = false /\ (forall y, In y ys -> number_lt r y = false).
Proof.
  revert acc. induction ys as [|y ys IH]; intros acc Na Ny; simpl.
  - split; [exact Na|]. split; [left; reflexivity|].
    split; [apply number_lt_irrefl|]. intros y [].
  - assert (Nb : isNaN y = false) by (apply Ny; left; reflexivity).
    destruct (@Math_max_bound acc y Na Nb) as [Which [Ba Bb]].
    assert (Nm : isNaN (Math_max acc y) = false).
    { destruct Which as [-> | ->]; assumption. }
    destruct (IH (Math_max acc y) Nm (fun z Hz => Ny z (or_intror Hz)))
      as [Nr [Wr [Br Bys]]].
    split; [exact Nr|]. split; [|split].
    + destruct Wr as [Wr|Wr]; [|right; right; exact Wr].
      rewrite Wr. destruct Which as [-> | ->]; [left; reflexivity|right; left; reflexivity].
    + exact (@number_nlt_trans _ _ _ Nm Br Ba).
    + intros z [<-|Hz]; [exact (@number_nlt_trans _ _ _ Nm Br Bb)|apply Bys; exact Hz].
Qed.

Lemma fold_min_bound (ys : list number) (acc : number) :
  isNaN acc = false -> (forall y, In y ys -> isNaN y = false) ->
  let r := fold_left Math_min ys acc in
  isNaN r = false /\ (r = acc \/ In r ys) /\
  number_lt acc r = false /\ (forall y, In y ys -> number_lt y r = false).
Proof.
  revert acc. induction ys as [|y ys IH]; intros acc Na Ny; simpl.
  - split; [exact Na|]. split; [left; reflexivity|].
    split; [apply number_lt_irrefl|]. intros y [].
  - assert (Nb : isNaN y = false) by (apply Ny; left; reflexivity).
    destruct (@Math_min_bound acc y Na Nb) as [Which [Ba Bb]].
    assert (Nm : isNaN (Math_min acc y) = false).
    { destruct Which as [-> | ->]; assumption. }
    destruct (IH (Math_min acc y) Nm (fun z Hz => Ny z (or_intror Hz)))
      as [Nr [Wr [Br Bys]]].
    split; [exact Nr|]. split; [|split].
    + destruct Wr as [Wr|Wr]; [|right; right; exact Wr].
      rewrite Wr. destruct Which as [-> | ->]; [left; reflexivity|right; left; reflexivity].
    + exact (@number_nlt_trans _ _ _ Nm Ba Br).
    + intros z [<-|Hz]; [exact (@number_nlt_trans _ _ _ Nm Bb Br)|apply Bys; exact Hz].
Qed.

Section Bounds.
Context {C I : Type} `{Iterator I} `{Iterable C I}.

(** X22.  For every finite source and selector: when some projected value
    is [NaN], [max] and [min] return [NaN]; when none is, [max] returns a
    number that no projected value exceeds, and it is one of the projected
    values or [Number.MIN_VALUE], and [min] returns a number that exceeds
    no projected value, and it is one of the projected values or
    [Number.MAX_VALUE]. *)
Theorem max_min_bounds (source : C) (l : list value) (selector : Selector number) :
  Elements source l ->
  ((exists x, In x l /\ isNaN (selector x) = true) ->
   fst (max source selector) = NaN /\ fst (min source selector) = NaN) /\
  ((forall x, In x l -> isNaN (selector x) = false) ->
   let hi := fst (max source selector) in
   let lo := fst (min source selector) in
   (forall x, In x l -> number_lt hi (selector x) = false) /\
   (hi = MIN_VALUE \/ exists x, In x l /\ hi = selector x) /\
   (forall x, In x l -> number_lt (selector x) lo = false) /\
   (lo = MAX_VALUE \/ exists x, In x l /\ lo = selector x)).
Proof.
  intro E. rewrite (max_Elements selector E), (min_Elements selector E).
  unfold max_as_fold, min_as_fold. split.
  - intros [x [Hx Nx]].
    assert (Ex : exists y, In y (map selector l) /\ isNaN y = true).
    { exists (selector x). split; [apply in_map; exact Hx|exact Nx]. }
    split; [apply fold_max_NaN|apply fold_min_NaN]; right; exact Ex.
  - intros Nl. cbv zeta.
    assert (Ny : forall y, In y (map selector l) -> isNaN y = false).
    { intros y Hy. apply in_map_iff in Hy. destruct Hy as [x [<- Hx]].
      apply Nl. exact Hx. }
    destruct (@fold_max_bound (map selector l) MIN_VALUE eq_refl Ny)
      as [_ [Wmax [_ Bmax]]].
    destruct (@fold_min_bound (map selector l) MAX_VALUE eq_refl Ny)
      as [_ [Wmin [_ Bmin]]].
    cbv zeta in Wmax, Bmax, Wmin, Bmin.
    split; [|split; [|split]].
    + intros x Hx. apply Bmax. apply in_map. exact Hx.
    + destruct Wmax as [Wmax|Wmax]; [left; exact Wmax|right].
      apply in_map_iff in Wmax. destruct Wmax as [x [Ex Hx]].
      exists x. split; [exact Hx|symmetry; exact Ex].
    + intros x Hx. apply Bmin. apply in_map. exact Hx.
    + destruct Wmin as [Wmin|Wmin]; [left; exact Wmin|right].
      apply in_map_iff in Wmin. destruct Wmin as [x [Ex Hx]].
      exists x. split; [exact Hx|symmetry; exact Ex].
Qed.

End Bounds.

Lemma max_min_bounds_witness :
  number_lt (fst (max [int 3; int 7; int 5] defaultNumberSelector))
    (defaultNumberSelector (int 7)) = false /\
  fst (max [int 3; VNum NaN; int 5] defaultNumberSelector) = NaN.
Proof.
  split.
  - refine (proj1 (proj2 (max_min_bounds defaultNumberSelector
                            (Elements_array [int 3; int 7; int 5])) _) (int 7) _).
    + intros x [<-|[<-|[<-|[]]]]; reflexivity.
    + simpl. tauto.
  - refine (proj1 (proj1 (max_min_bounds defaultNumberSelector
                            (Elements_array [int 3; VNum NaN; int 5])) _)).
    exists (VNum NaN). split; [simpl; tauto|reflexivity].
Defined.

(** *** sum and average *)

Lemma number_add_NaN (a b : number) :
  isNaN a = true \/ isNaN b = true -> number_add a b = NaN.
Proof.
  intros [E|E].
  - destruct a; try discriminate. reflexivity.
  - destruct b; try discriminate. destruct a; reflexivity.
Qed.

Lemma number_div_NaN (a b : number) : isNaN a = true -> number_div a b = NaN.
Proof. destruct a; try discriminate. reflexivity. Qed.

Lemma fold_add_NaN (ys : list number) (acc : number) :
  isNaN acc = true \/ (exists y, In y ys /\ isNaN y = true) ->
  fold_left number_add ys acc = NaN.
Proof.
  revert acc. induction ys as [|y ys IH]; intros acc [E|[z [Hz E]]]; simpl.
  - destruct acc; try discriminate. reflexivity.
  - contradiction.
  - apply IH. left. rewrite number_add_NaN by (left; exact E). reflexivity.
  - destruct Hz as [->|Hz].
    + apply IH. left. rewrite number_add_NaN by (right; exact E). reflexivity.
    + apply IH. right. exists z. split; assumption.
Qed.

Lemma run_loop_sum (selector : Selector number) (l : list value) (acc : number) :
  run_loop (R := Empty_set)
    (fun sum item => Continue (number_add sum (selector item))) l acc
  = Continue (fold_left number_add (map selector l) acc).
Proof.
  revert acc. induction l as [|x l IH]; intro acc; simpl; [reflexivity|apply IH].
Qed.

Lemma run_loop_average (selector : Selector number) (l : list value)
    (sc : number * number) :
  run_loop (R := Empty_set)
    (fun sc item =>
       Continue (number_add (fst sc) (selector item),
                 number_add (snd sc) (number_of_Z 1))) l sc
  = Continue (fold_left number_add (map selector l) (fst sc),
              fold_left (fun count _ => number_add count (number_of_Z 1)) l (snd sc)).
Proof.
  revert sc. induction l as [|x l IH]; intro sc; simpl.
  - destruct sc; reflexivity.
  - rewrite IH. reflexivity.
Qed.

Section SumAverage.
Context {C I : Type} `{Iterator I} `{Iterable C I}.

Lemma sum_Elements (source : C) (l : list value) (selector : Selector number) :
  Elements source l -> fst (sum source selector) = sum_as_fold selector l.
Proof.
  intro E. unfold sum. loop_over E. rewrite run_loop_sum. reflexivity.
Qed.

Lemma average_Elements (source : C) (l : list value) (selector : Selector number) :
  Elements source l ->
  fst (average source selector)
  = number_div (sum_as_fold selector l) (count_as_number l).
Proof.
  intro E. unfold average. loop_over E. rewrite run_loop_average. reflexivity.
Qed.

(** X23.  For every finite source and selector, [sum] adds the projected
    values from the left, starting from [0], and [average] divides that sum
    by the count of the elements.  Over a source that yields nothing [sum]
    returns [0] and [average] returns [NaN], the quotient [0 / 0]: neither
    throws.  When some projected value is [NaN], both return [NaN]. *)
Theorem sum_average_spec (source : C) (l : list value) (selector : Selector number) :
  Elements source l ->
  fst (sum source selector) = sum_as_fold selector l /\
  fst (average source selector)
    = number_div (fst (sum source selector)) (count_as_number l) /\
  (l = [] ->
   fst (sum source selector) = number_of_Z 0 /\ fst (average source selector) = NaN) /\
  ((exists x, In x l /\ isNaN (selector x) = true) ->
   fst (sum source selector) = NaN /\ fst (average source selector) = NaN).
Proof.
  intro E. rewrite (sum_Elements selector E), (average_Elements selector E).
  split; [reflexivity|]. split; [reflexivity|]. split.
  - intros ->. split; reflexivity.
  - intros [x [Hx Nx]].
    assert (S : sum_as_fold selector l = NaN).
    { apply fold_add_NaN. right. exists (selector x).
      split; [apply in_map; exact Hx|exact Nx]. }
    rewrite S. split; reflexivity.
Qed.

End SumAverage.

Lemma sum_average_spec_witness :
  fst (sum [int 1; int 2; int 3] defaultNumberSelector) = number_of_Z 6 /\
  fst (average [int 1; int 2; int 3] defaultNumberSelector) = number_of_Z 2 /\
  fst (average (where_ [int 1] (fun _ _ => false)) defaultNumberSelector) = NaN.
Proof.
  destruct (sum_average_spec defaultNumberSelector
              (Elements_array [int 1; int 2; int 3])) as [S [A _]].
  destruct (sum_average_spec defaultNumberSelector
              (Elements_where (fun _ _ => false) (Elements_array [int 1])))
    as [_ [_ [Em _]]].
  split; [rewrite S; reflexivity|]. split; [rewrite A, S; reflexivity|].
  exact (proj2 (Em eq_refl)).
Defined.

(* ================================================================== *)
(** ** distinct, for any comparer                                      *)
(* ================================================================== *)

Lemma first_occurrences_idempotent (eqb : value -> value -> bool)
    (seen l : list value) :
  first_occurrences eqb seen (first_occurrences eqb seen l)
  = first_occurrences eqb seen l.
Proof.
  revert seen. induction l as [|x l IH]; intro seen; simpl; [reflexivity|].
  destruct (existsb (fun y => eqb y x) seen) eqn:Ex.
  - apply IH.
  - simpl. rewrite Ex. f_equal. apply IH.
Qed.

Lemma first_occurrences_length (eqb : value -> value -> bool) (seen l : list value) :
  (length (first_occurrences eqb seen l) <= length l)%nat.
Proof.
  revert seen. induction l as [|x l IH]; intro seen; simpl; [lia|].
  destruct (existsb (fun y => eqb y x) seen); simpl.
  - specialize (IH seen). lia.
  - specialize (IH (seen ++ [x])). lia.
Qed.

(** X24.  For every finite source and every comparer, [distinct(source,
    comparer)] yields elements of the source, no more than the source has,
    such that the comparer holds of no earlier and later one; and applying
    [distinct] with the same comparer to the result changes nothing. *)
Theorem distinct_idempotent {C I : Type} `{Iterator I} `{Iterable C I}
    (source : C) (comparer : EqualityComparer) (l : list value) :
  Elements source l ->
  let result := fst (toArray (distinct source comparer)) in
  fst (toArray (distinct (distinct source comparer) comparer)) = result /\
  ForallOrdPairs (fun a b => comparer a b = false) result /\
  (forall x, In x result -> In x l) /\
  (length result <= length l)%nat.
Proof.
  intros E result.
  assert (R : result = first_occurrences comparer [] l).
  { apply toArray_Elements. apply Elements_distinct. exact E. }
  rewrite (toArray_Elements (Elements_distinct comparer (Elements_distinct comparer E))).
  rewrite R. split; [apply first_occurrences_idempotent|]. split; [|split].
  - apply first_occurrences_distinct.
  - intros x Hx. exact (proj1 (first_occurrences_unseen _ _ _ _ Hx)).
  - apply first_occurrences_length.
Qed.

Lemma distinct_idempotent_witness :
  let same_parity : EqualityComparer :=
    fun a b => strict_eq a b || (strict_eq a (int 1) && strict_eq b (int 3)) in
  fst (toArray (distinct (distinct [int 1; int 3; int 2; int 1] same_parity)
                  same_parity))
    = fst (toArray (distinct [int 1; int 3; int 2; int 1] same_parity)).
Proof.
  intro same_parity.
  exact (proj1 (distinct_idempotent same_parity
                  (Elements_array [int 1; int 3; int 2; int 1]))).
Defined.

(* ================================================================== *)
(** ** Evaluation on demand                                            *)
(* ================================================================== *)

(** A loop that leaves at the first value that satisfies [p] receives the
    values before it and that one. *)
Lemma runs_until (R : Type) (exit : value -> R) (p : Predicate) (l : list value) :
  runs (fun (_ : unit) item => if p item then Exit (exit item) else Continue tt) l tt
  = Nat.min (S (length (prefix_while (fun x _ => negb (p x)) l 0))) (length l).
Proof.
  generalize 0. induction l as [|x l IH]; intro i; simpl; [reflexivity|].
  destruct (p x); simpl; [reflexivity|]. rewrite (IH (i + 1)). reflexivity.
Qed.

Lemma runs_all (l acc : list value) :
  runs (R := Empty_set) (fun array item => Continue (array ++ [item])) l acc = length l.
Proof.
  revert acc. induction l as [|x l IH]; intro acc; simpl; [reflexivity|].
  rewrite IH. reflexivity.
Qed.

Section SelectOnDemand.
Context {C I : Type} `{Iterator I} `{Iterable C I} {A R : Type}.
Variable f : IndexedSelector value.
Variable body : A -> value -> Completion A R.

(** A loop over a [select] stage that is paused at its [yield]: the
    selector has been called once more for each value the loop
    receives, and the stage is left completed. *)
Lemma select_paused_loop (it it_end : I) (l : list value) :
  produces it l it_end ->
  forall (fuel : nat) (c : Counter) (n : nat) (acc : A), (length l < fuel)%nat ->
  let g := mkGenerator (C := C) suspendedYield (select_body f) (Obtained it) c n in
  let outs := map_indexed f l (index c + 1) in
  fst (for_of_loop body fuel g acc) = run_loop body outs acc /\
  calls (locals (snd (for_of_loop body fuel g acc)))
    = (calls c + runs body outs acc)%nat /\
  gstate (snd (for_of_loop body fuel g acc)) = completed.
Proof.
  induction 1 as [it it' Hn|it item it1 l it' Hn Hp P IH]; intros fuel c n acc Hf;
    (destruct fuel as [|fuel]; [simpl in Hf; lia|]);
    cbv zeta; cbn [for_of_loop next Generator_Iterator]; unfold gen_next;
    cbn [gstate upstream code locals gen_loop resume select_body];
    rewrite Hn; cbn [on_item select_body map_indexed run_loop runs].
  - simpl. repeat split. lia.
  - destruct (body acc (f item (index (incremented c)))) as [acc'|r] eqn:Eb;
      cbn [index incremented] in Eb; rewrite Eb.
    + destruct (IH fuel (called (incremented c)) (S n) acc') as [F [Cl G]].
      { simpl in Hf. lia. }
      cbn [index called incremented calls] in F, Cl, G.
      unfold suspend, pull. cbn [code pulled].
      split; [exact F|]. split; [|exact G]. rewrite Cl. lia.
    + cbn [fst snd]. split; [reflexivity|]. split; [|apply gen_return_completed].
      simpl. lia.
Qed.

(** The same for a [select] stage that has not started. *)
Lemma select_loop (source : C) (l : list value) (acc : A) :
  Elements source l ->
  let outs := map_indexed f l 0 in
  fst (for_of (select source f) body acc) = run_loop body outs acc /\
  calls (locals (snd (for_of (select source f) body acc))) = runs body outs acc /\
  gstate (snd (for_of (select source f) body acc)) = completed.
Proof.
  intros [[it_end P] _]. cbv zeta. unfold for_of.
  cbn [iterator writeback Generator_Iterable pending Generator_Iterator].
  assert (B : (length l <= pending (iterator source))%nat) by exact (produces_length P).
  unfold select at 2 4 6, generator, gen_pending. cbn [gstate upstream].
  cbn [for_of_loop next Generator_Iterator]. unfold gen_next.
  unfold select, generator. cbn [gstate upstream code locals gen_loop].
  inversion P as [a b Hn|a item it1 l' b Hn Hp P']; subst; rewrite Hn;
    cbn [on_item select_body map_indexed run_loop runs index].
  - simpl. repeat split.
  - destruct (body acc (f item 0)) as [acc'|r] eqn:Eb.
    + pose proof (@select_paused_loop it1 it_end l' P' (pending (iterator source))
                    (called (mkCounter 0 0)) 1 acc') as X.
      cbv zeta in X. cbn [index called calls] in X.
      unfold suspend, pull. cbn [code pulled].
      destruct X as [F [Cl G]].
      { pose proof (produces_length P'). lia. }
      destruct (for_of_loop body (pending (iterator source)) _ acc') as [r g'].
      cbn [fst snd] in *. split; [exact F|]. split; [|exact G]. rewrite Cl. lia.
    + cbn [fst snd]. split; [reflexivity|]. split; [|apply gen_return_completed].
      simpl. reflexivity.
Qed.

End SelectOnDemand.

(** X25.  Terminal operations evaluate a [select] stage only as far as they
    read it.  For every finite source, selector [f] and predicate [p]:
    [firstOrUndefined(select(source, f), p)] and [any(select(source, f), p)]
    call [f] for the elements up to the first whose projection satisfies
    [p], and for no later one ([k + 1] calls when [k] projections precede
    it, and one per element when there is none); [toArray] calls [f] once
    per element; and each of them leaves the stage completed. *)
Theorem select_on_demand {C I : Type} `{Iterator I} `{Iterable C I}
    (source : C) (l : list value) (f : IndexedSelector value) (p : Predicate) :
  Elements source l ->
  let stage := select source f in
  let k := length (prefix_while (fun x _ => negb (p x)) (map_indexed f l 0) 0) in
  calls (locals (snd (firstOrUndefined stage p))) = Nat.min (S k) (length l) /\
  calls (locals (snd (any stage p))) = Nat.min (S k) (length l) /\
  calls (locals (snd (toArray stage))) = length l /\
  gstate (snd (firstOrUndefined stage p)) = completed /\
  gstate (snd (any stage p)) = completed /\
  gstate (snd (toArray stage)) = completed.
Proof.
  intros E stage k.
  pose proof (select_loop f
                (fun (_ : unit) item => if p item then Exit item else Continue tt)
                tt E) as First.
  pose proof (select_loop f
                (fun (_ : unit) item => if p item then Exit true else Continue tt)
                tt E) as Any.
  pose proof (select_loop (R := Empty_set) f
                (fun array item => Continue (array ++ [item])) [] E) as All.
  cbv zeta in First, Any, All.
  rewrite (runs_until (fun item => item)) in First.
  rewrite (runs_until (fun _ => true)) in Any.
  rewrite runs_all in All. rewrite !map_indexed_length in *.
  fold stage in First, Any, All. fold k in First, Any.
  unfold firstOrUndefined, any, toArray.
  destruct (for_of stage
              (fun (_ : unit) item => if p item then Exit item else Continue tt) tt)
    as [r1 g1].
  destruct (for_of stage
              (fun (_ : unit) item => if p item then Exit true else Continue tt) tt)
    as [r2 g2].
  destruct (for_of (R := Empty_set) stage
              (fun array item => Continue (array ++ [item])) [])
    as [r3 g3].
  cbn [fst snd] in *.
  destruct First as [_ [F1 F2]]. destruct Any as [_ [A1 A2]].
  destruct All as [_ [L1 L2]].
  repeat split; assumption.
Qed.

Lemma select_on_demand_witness :
  let stage := select [int 5; int 6; int 7; int 8] (fun x _ => x) in
  calls (locals (snd (firstOrUndefined stage (fun x => strict_eq x (int 6))))) = 2%nat /\
  calls (locals (snd (toArray stage))) = 4%nat.
Proof.
  destruct (select_on_demand (fun x _ => x) (fun x => strict_eq x (int 6))
              (Elements_array [int 5; int 6; int 7; int 8])) as [F [_ [T _]]].
  split; [exact F|exact T].
Defined.

(* ================================================================== *)
(** ** selectMany                                                      *)
(* ================================================================== *)

Lemma flat_map_indexed_singletons (f : value -> Z -> value) (l : list value) (i : Z) :
  flat_map_indexed (fun x k => [f x k]) l i = map_indexed f l i.
Proof.
  revert i. induction l as [|x l IH]; intro i; simpl; [reflexivity|].
  rewrite IH. reflexivity.
Qed.

Lemma flat_map_indexed_filter (p : value -> Z -> bool) (l : list value) (i : Z) :
  flat_map_indexed (fun x k => if p x k then [x] else []) l i = filter_indexed p l i.
Proof.
  revert i. induction l as [|x l IH]; intro i; simpl; [reflexivity|].
  rewrite IH. destruct (p x i); reflexivity.
Qed.

Section SelectManyFacts.
Context {C I : Type} `{Iterator I} `{Iterable C I}.
Variable selector : ManySelector.

Lemma many_remaining_produces (it it_end : I) (l : list value) :
  produces it l it_end ->
  forall (fuel : nat) (index : Z), (length l <= fuel)%nat ->
  many_remaining fuel it index selector
  = length (flat_map_indexed selector l index).
Proof.
  induction 1 as [it it' Hn|it item it1 l it' Hn Hp _ IH]; intros fuel index Hf.
  - destruct fuel as [|fuel]; simpl; [reflexivity|]. rewrite Hn. reflexivity.
  - destruct fuel as [|fuel]; [simpl in Hf; lia|].
    simpl. rewrite Hn, length_app, IH by (simpl in Hf; lia). reflexivity.
Qed.

(** The generator paused in the inner loop over [a], at position [i], when
    the outer loop is known to go on as [rest] says. *)
Lemma many_paused_produces (it it_end : I) (l : list value) (index : Z)
    (a : list value) :
  produces it l it_end ->
  match flat_map_indexed selector l (index + 1) with
  | [] => many_outer (S (pending it)) it (index + 1) selector
          = (Finished, ManyCompleted (C := C) (Some it_end))
  | v :: rest =>
      exists g1 : SelectManyGenerator C I,
        many_outer (S (pending it)) it (index + 1) selector = (Yielded v, g1) /\
        pending g1 = length rest /\
        produces g1 rest (ManyCompleted (Some it_end))
  end ->
  forall (n i : nat), n = (length a - i)%nat -> (i <= length a)%nat ->
  let g := ManyPaused (C := C) it index (mkArrayIterator a i) selector in
  pending g = length (skipn i a ++ flat_map_indexed selector l (index + 1)) /\
  produces g (skipn i a ++ flat_map_indexed selector l (index + 1))
    (ManyCompleted (Some it_end)).
Proof.
  intros P Outer.
  assert (Rem : many_remaining (pending it) it (index + 1) selector
                = length (flat_map_indexed selector l (index + 1))).
  { apply (many_remaining_produces P). exact (produces_length P). }
  induction n as [|n IH]; intros i En Hi; cbv zeta.
  - assert (i = length a) by lia. subst i. rewrite skipn_all. cbn [app].
    assert (Ev : nth_error a (length a) = None) by (apply nth_error_None; lia).
    split.
    + simpl. rewrite Rem. lia.
    + destruct (flat_map_indexed selector l (index + 1)) as [|v rest] eqn:Ef.
      * apply produces_done. simpl. unfold array_next. simpl. rewrite Ev.
        exact Outer.
      * destruct Outer as [g1 [En1 [Ep1 P1]]].
        apply produces_item with (it1 := g1).
        -- simpl. unfold array_next. simpl. rewrite Ev. exact En1.
        -- rewrite Ep1. simpl. rewrite Rem. simpl. lia.
        -- exact P1.
  - destruct (nth_error a i) as [child|] eqn:Ev;
      [|apply nth_error_None in Ev; lia].
    assert (Es : skipn i a = child :: skipn (S i) a).
    { clear - Ev. revert i Ev. induction a as [|x a IHa]; intros [|i] Ev;
        simpl in *; try discriminate.
      - congruence.
      - apply IHa. exact Ev. }
    destruct (IH (S i)) as [Ep Pr]; [lia|lia|]. cbv zeta in Ep, Pr.
    rewrite Es. cbn [app]. split.
    + cbn [pending SelectManyGenerator_Iterator many_pending ArrayIterator_Iterator
           iterated nextIndex] in Ep |- *.
      rewrite Rem in *. cbn [length]. rewrite length_app in *.
      pose proof (length_skipn (S i) a) as Hl. lia.
    + apply produces_item
        with (it1 := ManyPaused it index (mkArrayIterator a (S i)) selector).
      * simpl. unfold array_next. simpl. rewrite Ev. reflexivity.
      * rewrite Ep.
        cbn [pending SelectManyGenerator_Iterator many_pending ArrayIterator_Iterator
             iterated nextIndex].
        rewrite Rem, length_app.
        pose proof (length_skipn (S i) a) as Hl. lia.
      * exact Pr.
Qed.

(** The outer loop, from its head. *)
Lemma many_outer_produces (it it_end : I) (l : list value) :
  produces it l it_end ->
  forall (fuel : nat) (index : Z), (length l < fuel)%nat ->
  match flat_map_indexed selector l index with
  | [] => many_outer fuel it index selector
          = (Finished, ManyCompleted (C := C) (Some it_end))
  | v :: rest =>
      exists g1 : SelectManyGenerator C I,
        many_outer fuel it index selector = (Yielded v, g1) /\
        pending g1 = length rest /\
        produces g1 rest (ManyCompleted (Some it_end))
  end.
Proof.
  induction 1 as [it it' Hn|it item it1 l it' Hn Hp P IH]; intros fuel index Hf;
    (destruct fuel as [|fuel]; [simpl in Hf; lia|]);
    cbn [many_outer flat_map_indexed]; rewrite Hn.
  - reflexivity.
  - destruct (selector item index) as [|child a'] eqn:Ea.
    + cbn [app]. simpl next. unfold array_next. simpl.
      apply IH. simpl in Hf. lia.
    + cbn [app]. simpl next. unfold array_next. simpl.
      assert (Outer := IH (S (pending it1)) (index + 1)).
      assert (B : (length l < S (pending it1))%nat).
      { pose proof (produces_length P). lia. }
      specialize (Outer B).
      destruct (@many_paused_produces it1 it' l index (child :: a') P Outer
                  (length a') 1%nat) as [Ep Pr].
      { simpl. lia. }
      { simpl. lia. }
      cbv zeta in Ep, Pr. cbn [skipn] in Ep, Pr.
      exists (ManyPaused it1 index (mkArrayIterator (child :: a') 1) selector).
      split; [reflexivity|]. split; [exact Ep|exact Pr].
Qed.

Lemma Elements_selectMany (source : C) (l : list value) :
  Elements source l ->
  Elements (selectMany source selector) (flat_map_indexed selector l 0).
Proof.
  intros [[it_end P] _]. split; [|intros a Ea; discriminate].
  exists (ManyCompleted (Some it_end)).
  assert (B : (length l < S (pending (iterator source)))%nat).
  { pose proof (produces_length P). lia. }
  pose proof (many_outer_produces P 0 B) as Outer.
  destruct (flat_map_indexed selector l 0) as [|v rest] eqn:Ef.
  - apply produces_done. exact Outer.
  - destruct Outer as [g1 [En1 [Ep1 P1]]].
    apply produces_item with (it1 := g1); [exact En1| |exact P1].
    rewrite Ep1. cbn [iterator SelectManyGenerator_Iterable selectMany pending
                      SelectManyGenerator_Iterator many_pending].
    rewrite (many_remaining_produces P 0 (produces_length P)), Ef. simpl. lia.
Qed.

End SelectManyFacts.

(** X26.  For every finite source and every selector that returns arrays,
    [selectMany(source, selector)] yields the elements of [selector(x, i)]
    for each element [x] of the source and its zero-based index [i], one
    array after the other, in order.  So with a selector that returns the
    one-element array [[f(x, i)]] it yields what [select(source, f)]
    yields, with one that returns [[x]] or [[]] as [p(x, i)] holds or not
    it yields what [where(source, p)] yields, and with one that always
    returns [[]] it yields nothing. *)
Theorem selectMany_spec {C I : Type} `{Iterator I} `{Iterable C I}
    (source : C) (l : list value) (selector : ManySelector)
    (f : IndexedSelector value) (p : IndexedPredicate) :
  Elements source l ->
  fst (toArray (selectMany source selector)) = flat_map_indexed selector l 0 /\
  fst (toArray (selectMany source (fun x i => [f x i])))
    = fst (toArray (select source f)) /\
  fst (toArray (selectMany source (fun x i => if p x i then [x] else [])))
    = fst (toArray (where_ source p)) /\
  fst (toArray (selectMany source (fun _ _ => []))) = [].
Proof.
  intro E.
  rewrite !(toArray_Elements (Elements_selectMany _ E)).
  rewrite (toArray_Elements (Elements_select f E)).
  rewrite (toArray_Elements (Elements_where p E)).
  split; [reflexivity|]. split; [apply flat_map_indexed_singletons|].
  split; [apply flat_map_indexed_filter|].
  clear. generalize 0. induction l as [|x l IH]; intro i; simpl; [reflexivity|apply IH].
Qed.

Lemma selectMany_spec_witness :
  fst (toArray (selectMany [int 1; int 2; int 3]
                  (fun x i => if i =? 1 then [] else [x; int i])))
    = [int 1; int 0; int 3; int 2].
Proof.
  exact (proj1 (selectMany_spec (fun x i => if i =? 1 then [] else [x; int i])
                  (fun x _ => x) (fun _ _ => true)
                  (Elements_array [int 1; int 2; int 3]))).
Defined.

(* ================================================================== *)
(** ** A predicate argument is a where stage                           *)
(* ================================================================== *)

Lemma find_filter (p : Predicate) (l : list value) :
  find defaultPredicate (filter p l) = find p l.
Proof.
  induction l as [|x l IH]; simpl; [reflexivity|].
  destruct (p x); simpl; [reflexivity|exact IH].
Qed.

Lemma existsb_filter (p : Predicate) (l : list value) :
  existsb defaultPredicate (filter p l) = existsb p l.
Proof.
  induction l as [|x l IH]; simpl; [reflexivity|].
  destruct (p x); simpl; [reflexivity|exact IH].
Qed.

Lemma filter_all (l : list value) : filter defaultPredicate l = l.
Proof. induction l as [|x l IH]; simpl; [reflexivity|]. f_equal. exact IH. Qed.

Lemma filter_reversed (p : Predicate) (l : list value) :
  filter p (rev l) = rev (filter p l).
Proof.
  induction l as [|x l IH]; simpl; [reflexivity|].
  rewrite filter_app, IH. simpl. destruct (p x); simpl.
  - reflexivity.
  - apply app_nil_r.
Qed.

(** The loop of [singleOrUndefined] looks at the elements that satisfy the
    predicate, and at nothing else. *)
Lemma run_loop_single_filter (p : Predicate) (l : list value) (result : value) :
  run_loop
    (fun result item =>
       if p item then
         if negb (strict_eq result undefined) then Exit moreThanOneElement
         else Continue item
       else Continue result)
    l result
  = run_loop
      (fun result item =>
         if defaultPredicate item then
           if negb (strict_eq result undefined) then Exit moreThanOneElement
           else Continue item
         else Continue result)
      (filter p l) result.
Proof.
  revert result. induction l as [|x l IH]; intro result; simpl; [reflexivity|].
  destruct (p x); simpl.
  - destruct (negb (strict_eq result undefined)); [reflexivity|apply IH].
  - apply IH.
Qed.

Section PredicateIsWhere.
Context {C I : Type} `{Iterator I} `{Iterable C I}.

Lemma singleOrUndefined_where (source : C) (l : list value) (p : Predicate) :
  Elements source l ->
  fst (singleOrUndefined source p)
  = fst (singleOrUndefined (where_ source (fun x _ => p x)) defaultPredicate).
Proof.
  intro E.
  pose proof (Elements_where (fun x _ => p x) E) as Ew.
  rewrite filter_indexed_filter in Ew.
  unfold singleOrUndefined.
  pose proof (for_of_Elements
                (fun result item =>
                   if p item then
                     if negb (strict_eq result undefined) then Exit moreThanOneElement
                     else Continue item
                   else Continue result) undefined E) as F1.
  pose proof (for_of_Elements
                (fun result item =>
                   if defaultPredicate item then
                     if negb (strict_eq result undefined) then Exit moreThanOneElement
                     else Continue item
                   else Continue result) undefined Ew) as F2.
  rewrite run_loop_single_filter in F1. rewrite <- F2 in F1.
  destruct (for_of source _ undefined) as [r1 s1].
  destruct (for_of (where_ source (fun x _ => p x)) _ undefined) as [r2 s2].
  simpl in F1. subst r1. reflexivity.
Qed.

(** X27.  Giving a terminal operation a predicate is filtering first: for
    every finite source and predicate [p] of the element alone,
    [first(source, p)], [last(source, p)], [single(source, p)] and their
    [OrUndefined] variants, [any(source, p)] and [count(source, p)] return
    (or throw) what the same operation returns (or throws), with its
    default predicate, on [where(source, p)]. *)
Theorem predicate_is_where (source : C) (l : list value) (p : Predicate) :
  Elements source l ->
  let stage := where_ source (fun x _ => p x) in
  fst (firstOrUndefined source p) = fst (firstOrUndefined stage defaultPredicate) /\
  fst (first source p) = fst (first stage defaultPredicate) /\
  fst (lastOrUndefined source p) = fst (lastOrUndefined stage defaultPredicate) /\
  fst (last source p) = fst (last stage defaultPredicate) /\
  fst (singleOrUndefined source p) = fst (singleOrUndefined stage defaultPredicate) /\
  fst (single source p) = fst (single stage defaultPredicate) /\
  fst (any source p) = fst (any stage defaultPredicate) /\
  fst (count source p) = fst (count stage defaultPredicate).
Proof.
  intros E stage.
  assert (Ew : Elements stage (filter p l)).
  { rewrite <- (filter_indexed_filter p l 0). apply Elements_where. exact E. }
  assert (F : fst (firstOrUndefined source p)
              = fst (firstOrUndefined stage defaultPredicate)).
  { rewrite (firstOrUndefined_Elements p E),
      (firstOrUndefined_Elements defaultPredicate Ew), find_filter. reflexivity. }
  assert (La : fst (lastOrUndefined source p)
               = fst (lastOrUndefined stage defaultPredicate)).
  { rewrite (lastOrUndefined_Elements p E),
      (lastOrUndefined_Elements defaultPredicate Ew).
    rewrite <- filter_reversed, find_filter. reflexivity. }
  assert (Si : fst (singleOrUndefined source p)
               = fst (singleOrUndefined stage defaultPredicate))
    by exact (singleOrUndefined_where p E).
  split; [exact F|]. split.
  { rewrite !first_firstOrUndefined, F. reflexivity. }
  split; [exact La|]. split.
  { rewrite !last_lastOrUndefined, La. reflexivity. }
  split; [exact Si|]. split.
  { rewrite !single_singleOrUndefined, Si. reflexivity. }
  split.
  - rewrite (any_Elements p E), (any_Elements defaultPredicate Ew), existsb_filter.
    reflexivity.
  - rewrite (count_Elements p E), (count_Elements defaultPredicate Ew), filter_all.
    reflexivity.
Qed.

End PredicateIsWhere.

Lemma predicate_is_where_witness :
  let p : Predicate := fun x => strict_eq x (int 2) in
  fst (single [int 1; int 2; int 2] p)
    = fst (single (where_ [int 1; int 2; int 2] (fun x _ => p x)) defaultPredicate) /\
  fst (last [int 1; int 2; int 3] p)
    = fst (last (where_ [int 1; int 2; int 3] (fun x _ => p x)) defaultPredicate).
Proof.
  intro p.
  destruct (predicate_is_where p (Elements_array [int 1; int 2; int 2]))
    as [_ [_ [_ [_ [_ [S _]]]]]].
  destruct (predicate_is_where p (Elements_array [int 1; int 2; int 3]))
    as [_ [_ [_ [La _]]]].
  split; [exact S|exact La].
Defined.
